(** * Text-to-audio transcriber: a shallow embedding of the workflow core

    The development follows the TypeScript sources file by file:

    - [JsString], [JS]: the JavaScript string operations and dynamic values
      the program relies on;
    - [Service]: [services/transcriptionService.ts] (the synthesis client);
    - [Types], [FilesSlice], [SettingsSlice]: the Redux slices and thunks;
    - [Persist]: the redux-persist transform and migration of
      [store/index.ts];
    - [App]: the ingestion handler of [App.tsx].

    Everything the browser supplies (network, collation, identifiers,
    renderings of values) is gathered in one record, [Host], and is a
    parameter of the model. *)

From stdpp Require Import gmap strings list pretty.
From Stdlib Require Import Ascii QArith Sorted.

Close Scope Q_scope.

(** ** JavaScript strings

    A JavaScript string is a sequence of code units; [string] stands for
    the strings whose code units are below 256, one [ascii] per unit. *)
Module JsString.

Definition startsWith (s p : string) : bool := String.prefix p s.

Definition endsWith (s p : string) : bool :=
  String.prefix (String.rev p) (String.rev s).

Definition includes (s p : string) : bool :=
  match String.index 0 p s with Some _ => true | None => false end.

(** The [WhiteSpace] and [LineTerminator] code units below 256: TAB, LF,
    VT, FF, CR, SP and NBSP. *)
Definition isWhiteSpace (c : ascii) : bool :=
  let n := N_of_ascii c in
  ((9 <=? n) && (n <=? 13) || (n =? 32) || (n =? 160))%N.

Fixpoint trimStart (s : string) : string :=
  match s with
  | EmptyString => EmptyString
  | String c s' => if isWhiteSpace c then trimStart s' else s
  end.

Definition trimEnd (s : string) : string :=
  String.rev (trimStart (String.rev s)).

Definition trim (s : string) : string := trimEnd (trimStart s).

(** ToBoolean on a string. *)
Definition truthy (s : string) : bool :=
  match s with EmptyString => false | _ => true end.

(** [s || d] on strings. *)
Definition orElse (s d : string) : string := if truthy s then s else d.

(** [Array.from(new Set(l))]: the elements of [l] in the order of their
    first occurrence. *)
Definition unique (l : list string) : list string :=
  foldl (fun acc x => if decide (x ∈ acc) then acc else acc ++ [x]) [] l.

End JsString.

(** ** JavaScript values

    The values that [JSON.parse] and object literals produce.  An object
    is the list of its own enumerable properties in enumeration order; the
    program only ever adds properties with non-numeric names, so the order
    is the insertion order. *)
Module JS.

#[warnings="-register-all"]
Inductive value :=
| VUndefined
| VNull
| VBool (b : bool)
| VNum (q : Q)
| VStr (s : string)
| VArr (elems : list value)
| VObj (props : list (string * value)).

(** ToBoolean. *)
Definition truthy (v : value) : bool :=
  match v with
  | VUndefined | VNull => false
  | VBool b => b
  | VNum q => negb (Qeq_bool q 0)
  | VStr s => JsString.truthy s
  | VArr _ | VObj _ => true
  end.

Definition isArray (v : value) : bool :=
  match v with VArr _ => true | _ => false end.

Definition typeof (v : value) : string :=
  match v with
  | VUndefined => "undefined"
  | VNull | VArr _ | VObj _ => "object"
  | VBool _ => "boolean"
  | VNum _ => "number"
  | VStr _ => "string"
  end.

Definition isString (v : value) : bool :=
  match v with VStr _ => true | _ => false end.

Fixpoint lookupProp (k : string) (props : list (string * value)) : value :=
  match props with
  | [] => VUndefined
  | (k', v) :: rest => if String.eqb k k' then v else lookupProp k rest
  end.

(** [props[k] = v]: overwrite in place, or append a new property. *)
Fixpoint setProp (k : string) (v : value) (props : list (string * value))
  : list (string * value) :=
  match props with
  | [] => [(k, v)]
  | (k', v') :: rest =>
      if String.eqb k k' then (k, v) :: rest else (k', v') :: setProp k v rest
  end.

(** The index properties of an array (or of the units of a string). *)
Definition indexed (elems : list value) : list (string * value) :=
  imap (fun i v => (pretty i, v)) elems.

Definition units (s : string) : list value :=
  (fun c => VStr (String c EmptyString)) <$> String.list_ascii_of_string s.

(** The own enumerable properties, as [{...v}] copies them. *)
Definition spread (v : value) : list (string * value) :=
  match v with
  | VObj props => props
  | VArr elems => indexed elems
  | VStr s => indexed (units s)
  | _ => []
  end.

(** [v.k] for a data property [k]; [None] is the TypeError raised when
    [v] is [null] or [undefined].  (The program reads no accessor or
    prototype property through this function.) *)
Definition get (v : value) (k : string) : option value :=
  match v with
  | VUndefined | VNull => None
  | _ => Some (lookupProp k (spread v))
  end.

(** [v?.k]. *)
Definition getOpt (v : value) (k : string) : value :=
  match get v k with Some x => x | None => VUndefined end.

(** [Object.keys(v)]; [None] is the TypeError on [null] and [undefined]. *)
Definition keys (v : value) : option (list string) :=
  match v with
  | VUndefined | VNull => None
  | _ => Some ((spread v).*1)
  end.

End JS.

(** ** The host environment *)

(** What the program writes and reads through [fetch]. *)
Module Fetch.

Inductive Method := GET | POST.

Record SpeechBody := {
  input : string;
  model : string;
  voice : string;
  speed : Q;
  response_format : string;
  stream : bool;
  return_download_link : bool;
}.

Record Request := {
  url : string;
  method : Method;
  body : option SpeechBody;
}.

(** What the client reads of a response.  [json] is the outcome of
    [response.json()] ([None] when the body does not parse); [blob] is the
    outcome of [response.blob()] followed by [URL.createObjectURL]: the
    object URL, or the message of the failure. *)
Record Response := {
  ok : bool;
  status : nat;
  statusText : string;
  contentType : option string;
  downloadPath : option string;
  json : option JS.value;
  blob : string + string;
}.

Inductive FetchOutcome :=
| NetworkError (message : string)
| Responded (r : Response).

End Fetch.

Record Host := {
  (** [fetch]: the outcome of the [n]-th request of the session. *)
  fetch : nat -> Fetch.Request -> Fetch.FetchOutcome;
  (** [String.prototype.localeCompare], by its sign. *)
  localeCompare : string -> string -> comparison;
  (** [crypto.randomUUID()], by the number of earlier calls. *)
  randomUUID : nat -> string;
  (** Template-literal conversion of a value, and [JSON.stringify]. *)
  toString : JS.value -> string;
  stringify : JS.value -> string;
}.

(** A settled promise. *)
Inductive Promise (A : Type) :=
| Fulfilled (a : A)
| Rejected (message : string).
Arguments Fulfilled {A} a.
Arguments Rejected {A} message.

(** ** The network monad: a computation is told how many requests were
    sent before it and reports the requests it sends. *)
Definition Net (A : Type) : Type := nat -> A * list Fetch.Request.

Definition netRet {A} (a : A) : Net A := fun _ => (a, []).

Definition netBind {A B} (m : Net A) (f : A -> Net B) : Net B :=
  fun n =>
    let '(a, sent1) := m n in
    let '(b, sent2) := f a (n + length sent1) in
    (b, sent1 ++ sent2).

Definition send (host : Host) (r : Fetch.Request) : Net Fetch.FetchOutcome :=
  fun n => (fetch host n r, [r]).

#[global] Instance Net_ret : MRet Net := @netRet.
#[global] Instance Net_bind : MBind Net := fun A B f m => netBind m f.

(** ** [services/transcriptionService.ts] *)
Module Service.
Import Fetch.

Definition API_BASE_URL : string := "http://localhost:8880".

Record TranscriptionResult := { audioSrc : string }.

Definition speechRequest (text voice : string) (speed : Q) : Request :=
  {| url := API_BASE_URL +:+ "/v1/audio/speech";
     method := POST;
     body := Some {| input := text;
                     model := "kokoro";
                     voice := voice;
                     speed := speed;
                     response_format := "mp3";
                     stream := false;
                     return_download_link := true |} |}.

Definition voicesRequest : Request :=
  {| url := API_BASE_URL +:+ "/v1/audio/voices"; method := GET; body := None |}.

(** The message thrown by [transcribeText] on blank text (the spec's
    [EmptyInput]). *)
Definition EmptyInput (fileName : string) : string :=
  "Cannot transcribe empty text for " +:+ fileName +:+ ".".

(** The spec's [UnrecognizedResponse], as thrown inside the [try]. *)
Definition UnrecognizedResponse (fileName : string) : string :=
  "API response format not recognized for " +:+ fileName +:+
  ". Expected either audio content or a download path.".

(** The message built for a response that is not [ok]. *)
Definition errorBodyMessage (host : Host) (fileName : string) (r : Response)
  : string :=
  let base :=
    "API request failed for " +:+ fileName +:+ " with status " +:+
    pretty (status r) in
  let withStatusText := base +:+ ": " +:+ statusText r in
  match json r with
  | None => withStatusText
  | Some errorData =>
      match JS.get errorData "detail" with
      | None => withStatusText
      | Some detail =>
          if JS.truthy detail then
            match detail with
            | JS.VArr (first :: _) =>
                match JS.get first "msg" with
                | None => withStatusText
                | Some msg =>
                    if JS.truthy msg then base +:+ ": " +:+ toString host msg
                    else base +:+ ": " +:+ stringify host detail
                end
            | JS.VStr s => base +:+ ": " +:+ s
            | _ => base +:+ ": " +:+ stringify host detail
            end
          else withStatusText
      end
  end.

(** The body of the [try] block of [transcribeText]: [inl] is a thrown
    error, by its message. *)
Definition speechAttempt (host : Host) (fileName : string)
    (outcome : FetchOutcome) : string + TranscriptionResult :=
  match outcome with
  | NetworkError message => inl message
  | Responded r =>
      if negb (ok r) then inl (errorBodyMessage host fileName r)
      else
        let isAudio :=
          match contentType r with
          | Some ct => JsString.truthy ct && JsString.includes ct "audio/"
          | None => false
          end in
        if isAudio then
          match blob r with
          | inr objectUrl => inr {| audioSrc := objectUrl |}
          | inl message => inl message
          end
        else
          match downloadPath r with
          | Some p =>
              if JsString.truthy p
              then inr {| audioSrc := API_BASE_URL +:+ p |}
              else inl (UnrecognizedResponse fileName)
          | None => inl (UnrecognizedResponse fileName)
          end
  end.

(** The [catch] block of [transcribeText]. *)
Definition rethrow (fileName message : string) : string :=
  if JsString.startsWith message "API request failed"
     || JsString.includes message "X-Download-Path"
  then message
  else "Transcription failed for " +:+ fileName +:+ ": " +:+ message.

Definition transcribeText (host : Host) (text fileName voice : string)
    (speed : Q) : Net (Promise TranscriptionResult) :=
  if negb (JsString.truthy text) || (String.length (JsString.trim text) =? 0)
  then mret (Rejected (EmptyInput fileName))
  else
    outcome ← send host (speechRequest text voice speed);
    mret (match speechAttempt host fileName outcome with
          | inr result => Fulfilled result
          | inl message => Rejected (rethrow fileName message)
          end).

(** The identifier an element of a voice list carries: [typeof v?.id ===
    'string']. *)
Definition idOf (v : JS.value) : option string :=
  match JS.getOpt v "id" with JS.VStr s => Some s | _ => None end.

Definition stringOf (v : JS.value) : option string :=
  match v with JS.VStr s => Some s | _ => None end.

Definition everyString (l : list JS.value) : bool := forallb JS.isString l.

Definition everyHasId (l : list JS.value) : bool :=
  forallb (fun v => bool_decide (is_Some (idOf v))) l.

(** The strings of a list of values: all of them when [everyString]
    holds. *)
Definition strings (l : list JS.value) : list string :=
  omap stringOf l.

Definition ids (l : list JS.value) : list string := omap idOf l.

(** The two extraction rules, applied to a candidate array. *)
Definition extract (l : list JS.value) : option (list string) :=
  if everyString l then Some (strings l)
  else if everyHasId l then Some (ids l)
  else None.

(** The best-effort scan: the first property whose value is an array. *)
Definition firstArray (props : list (string * JS.value))
  : option (list JS.value) :=
  match filter (fun kv => JS.isArray kv.2 = true) props with
  | (_, JS.VArr l) :: _ => Some l
  | _ => None
  end.

(** The shape analysis of [fetchAvailableVoices]; [None] is the
    "Unexpected format" error. *)
Definition parseVoices (data : JS.value) : option (list string) :=
  match data with
  | JS.VArr l => Some (strings (filter (fun v => JS.isString v = true) l))
  | _ =>
      let byVoices :=
        if JS.truthy data then
          match JS.getOpt data "voices" with
          | JS.VArr l => extract l
          | _ => None
          end
        else None in
      match byVoices with
      | Some voices => Some voices
      | None =>
          match data with
          | JS.VObj props => l ← firstArray props; extract l
          | _ => None
          end
      end
  end.

(** The body of the [try] block of [fetchAvailableVoices]; [None] is any
    error thrown there (it is only logged). *)
Definition voicesAttempt (outcome : FetchOutcome) : option (list string) :=
  match outcome with
  | NetworkError _ => None
  | Responded r =>
      if negb (ok r) then None
      else data ← json r; parseVoices data
  end.

Definition fallbackVoices : list string := ["am_michael"; "af_heart"].

Definition fetchAvailableVoices (host : Host) : Net (Promise (list string)) :=
  outcome ← send host voicesRequest;
  mret (match voicesAttempt outcome with
        | Some voices => Fulfilled voices
        | None => Fulfilled fallbackVoices
        end).

End Service.

(** ** [types.ts] *)
Module Types.

Inductive FileStatus :=
| Pending | Reading | Ready | Processing | Transcribed | Error.

#[global] Instance FileStatus_eq_dec : EqDecision FileStatus.
Proof. solve_decision. Defined.

Record ProcessedFile := {
  id : string;
  name : string;
  content : string;
  status : FileStatus;
  audioSrc : option string;
  error : option string;
}.

End Types.
Import Types.

(** ** [store/slices/filesSlice.ts] *)
Module FilesSlice.

(** *** The entity adapter

    [createEntityAdapter] of Redux Toolkit, with the operations the slice
    uses.  [ids] is kept sorted by [sortComparer]; entities that compare
    equal keep the order in which they were added. *)
Record EntityState := {
  ids : list string;
  entities : gmap string ProcessedFile;
}.

Definition getInitialState : EntityState := {| ids := []; entities := ∅ |}.

Definition sortComparer (host : Host) (a b : ProcessedFile) : comparison :=
  localeCompare host (name a) (name b).

Definition compareIds (host : Host) (e : gmap string ProcessedFile)
    (a b : string) : comparison :=
  match e !! a, e !! b with
  | Some x, Some y => sortComparer host x y
  | _, _ => Eq
  end.

Fixpoint insertSorted (cmp : string -> string -> comparison) (x : string)
    (l : list string) : list string :=
  match l with
  | [] => [x]
  | y :: l' =>
      match cmp x y with
      | Lt => x :: y :: l'
      | _ => y :: insertSorted cmp x l'
      end
  end.

Definition sortIds (host : Host) (e : gmap string ProcessedFile)
    (l : list string) : list string :=
  foldl (fun acc x => insertSorted (compareIds host e) x acc) [] l.

Definition merge (host : Host) (models : list ProcessedFile)
    (state : EntityState) : EntityState :=
  let entities' := foldl (fun e m => <[id m := m]> e) (entities state) models in
  let added :=
    filter (fun i => i ∉ ids state) (JsString.unique (id <$> models)) in
  {| ids := sortIds host entities' (ids state ++ added);
     entities := entities' |}.

Definition addMany (host : Host) (state : EntityState)
    (newEntities : list ProcessedFile) : EntityState :=
  match filter (fun m => entities state !! id m = None) newEntities with
  | [] => state
  | models => merge host models state
  end.

(** [updateOne(state, {id, changes})]: [changes] is applied to the entity
    with [Object.assign]; an unknown [id] is ignored. *)
Definition updateOne (host : Host) (state : EntityState) (fileId : string)
    (changes : ProcessedFile -> ProcessedFile) : EntityState :=
  match entities state !! fileId with
  | None => state
  | Some entity =>
      let entities' := <[fileId := changes entity]> (entities state) in
      {| ids := sortIds host entities' (ids state); entities := entities' |}
  end.

Definition removeAll (state : EntityState) : EntityState := getInitialState.

(** [Object.values(state.entities).some(p)]. *)
Definition some (p : ProcessedFile -> bool) (e : gmap string ProcessedFile)
  : bool :=
  existsb p (map_to_list e).*2.

(** *** The slice state *)
Record Progress := {
  current : nat;
  total : nat;
  currentFileName : option string;
}.

(** The field [error] of the source's [FilesState] is [filesError] here
    (a record of this module already has a field [error]). *)
Record FilesState := {
  files : EntityState;
  isReadingFiles : bool;
  isTranscribing : bool;
  isDownloading : bool;
  isRestoringAudio : bool;
  transcriptionProgress : Progress;
  filesError : option string;
}.

Definition noProgress : Progress :=
  {| current := 0; total := 0; currentFileName := None |}.

Definition initialState : FilesState :=
  {| files := getInitialState;
     isReadingFiles := false;
     isTranscribing := false;
     isDownloading := false;
     isRestoringAudio := false;
     transcriptionProgress := noProgress;
     filesError := None |}.

(** *** Actions *)
Record TranscribeArg := {
  file : ProcessedFile;
  voice : string;
  speed : Q;
}.

(** A [rejected] action carries [payload] (the value given to
    [rejectWithValue]) and [error.message]. *)
Inductive Action :=
| setIsReadingFiles (payload : bool)
| setIsTranscribing (payload : bool)
| setIsDownloading (payload : bool)
| setIsRestoringAudio (payload : bool)
| setTranscriptionProgress (payload : Progress)
| addProcessedFiles (payload : list ProcessedFile)
| updateFileStatus (fileId : string) (status : FileStatus)
    (error : option string)
| updateFileWithAudio (fileId : string) (audioSrc : string)
| clearAllFiles
| clearError
| restoreAudioData_pending
| restoreAudioData_fulfilled
| restoreAudioData_rejected (payload : option string)
| refetchAudioForFile_pending (arg : TranscribeArg)
| refetchAudioForFile_fulfilled (fileId : string) (audioSrc : string)
| refetchAudioForFile_rejected (arg : TranscribeArg) (payload : option string)
| transcribeFile_pending (arg : TranscribeArg)
| transcribeFile_fulfilled (fileId : string)
    (result : Service.TranscriptionResult)
| transcribeFile_rejected (arg : TranscribeArg) (payload : option string)
    (errorMessage : option string)
| transcribeMultipleFiles_pending
| transcribeMultipleFiles_fulfilled (successCount errorCount : nat)
| transcribeMultipleFiles_rejected (payload : option string).

(** [a || d] for an optional string [a]. *)
Definition orString (a : option string) (d : string) : string :=
  match a with
  | Some s => JsString.orElse s d
  | None => d
  end.

(** [changes] objects, as functions on the entity they are assigned to. *)
Definition statusChanges (st : FileStatus) (err : option string)
    (f : ProcessedFile) : ProcessedFile :=
  {| id := id f; name := name f; content := content f;
     status := st;
     audioSrc := audioSrc f;
     error :=
       if decide (st = Error) then
         match err with
         | Some e => if JsString.truthy e then Some e else error f
         | None => error f
         end
       else None |}.

Definition processingChanges (f : ProcessedFile) : ProcessedFile :=
  {| id := id f; name := name f; content := content f;
     status := Processing; audioSrc := audioSrc f; error := None |}.

Definition audioChanges (src : string) (f : ProcessedFile) : ProcessedFile :=
  {| id := id f; name := name f; content := content f;
     status := Transcribed; audioSrc := Some src; error := None |}.

Definition errorChanges (message : string) (f : ProcessedFile)
  : ProcessedFile :=
  {| id := id f; name := name f; content := content f;
     status := Error; audioSrc := audioSrc f; error := Some message |}.

Definition withFiles (state : FilesState) (fs : EntityState) : FilesState :=
  {| files := fs;
     isReadingFiles := isReadingFiles state;
     isTranscribing := isTranscribing state;
     isDownloading := isDownloading state;
     isRestoringAudio := isRestoringAudio state;
     transcriptionProgress := transcriptionProgress state;
     filesError := filesError state |}.

Definition withIsTranscribing (state : FilesState) (b : bool) : FilesState :=
  {| files := files state;
     isReadingFiles := isReadingFiles state;
     isTranscribing := b;
     isDownloading := isDownloading state;
     isRestoringAudio := isRestoringAudio state;
     transcriptionProgress := transcriptionProgress state;
     filesError := filesError state |}.

Definition withError (state : FilesState) (e : option string) : FilesState :=
  {| files := files state;
     isReadingFiles := isReadingFiles state;
     isTranscribing := isTranscribing state;
     isDownloading := isDownloading state;
     isRestoringAudio := isRestoringAudio state;
     transcriptionProgress := transcriptionProgress state;
     filesError := e |}.

Definition withProgress (state : FilesState) (p : Progress) : FilesState :=
  {| files := files state;
     isReadingFiles := isReadingFiles state;
     isTranscribing := isTranscribing state;
     isDownloading := isDownloading state;
     isRestoringAudio := isRestoringAudio state;
     transcriptionProgress := p;
     filesError := filesError state |}.

(** "Check if all transcriptions are complete". *)
Definition settle (state : FilesState) : FilesState :=
  let stillProcessing :=
    some (fun f => bool_decide (status f = Processing))
         (entities (files state)) in
  if negb stillProcessing then withIsTranscribing state false else state.

(** *** The reducer: [reducers] and [extraReducers] of the slice *)
Definition reducer (host : Host) (state : FilesState) (action : Action)
  : FilesState :=
  match action with
  | setIsReadingFiles payload =>
      {| files := files state;
         isReadingFiles := payload;
         isTranscribing := isTranscribing state;
         isDownloading := isDownloading state;
         isRestoringAudio := isRestoringAudio state;
         transcriptionProgress := transcriptionProgress state;
         filesError := if negb payload then None else filesError state |}
  | setIsTranscribing payload =>
      let state' := withIsTranscribing state payload in
      if negb payload then withProgress state' noProgress else state'
  | setIsDownloading payload =>
      {| files := files state;
         isReadingFiles := isReadingFiles state;
         isTranscribing := isTranscribing state;
         isDownloading := payload;
         isRestoringAudio := isRestoringAudio state;
         transcriptionProgress := transcriptionProgress state;
         filesError := filesError state |}
  | setIsRestoringAudio payload =>
      {| files := files state;
         isReadingFiles := isReadingFiles state;
         isTranscribing := isTranscribing state;
         isDownloading := isDownloading state;
         isRestoringAudio := payload;
         transcriptionProgress := transcriptionProgress state;
         filesError := filesError state |}
  | setTranscriptionProgress payload => withProgress state payload
  | addProcessedFiles payload =>
      withError (withFiles state (addMany host (files state) payload)) None
  | updateFileStatus fileId st err =>
      withFiles state (updateOne host (files state) fileId (statusChanges st err))
  | updateFileWithAudio fileId src =>
      withFiles state (updateOne host (files state) fileId (audioChanges src))
  | clearAllFiles =>
      withProgress
        (withError (withFiles state (removeAll (files state))) None)
        noProgress
  | clearError => withError state None
  | restoreAudioData_pending =>
      withError
        {| files := files state;
           isReadingFiles := isReadingFiles state;
           isTranscribing := isTranscribing state;
           isDownloading := isDownloading state;
           isRestoringAudio := true;
           transcriptionProgress := transcriptionProgress state;
           filesError := filesError state |} None
  | restoreAudioData_fulfilled =>
      {| files := files state;
         isReadingFiles := isReadingFiles state;
         isTranscribing := isTranscribing state;
         isDownloading := isDownloading state;
         isRestoringAudio := false;
         transcriptionProgress := transcriptionProgress state;
         filesError := filesError state |}
  | restoreAudioData_rejected payload =>
      {| files := files state;
         isReadingFiles := isReadingFiles state;
         isTranscribing := isTranscribing state;
         isDownloading := isDownloading state;
         isRestoringAudio := false;
         transcriptionProgress := transcriptionProgress state;
         filesError := Some (orString payload "Failed to restore audio data") |}
  | refetchAudioForFile_pending arg =>
      withFiles state
        (updateOne host (files state) (id (file arg)) processingChanges)
  | refetchAudioForFile_fulfilled fileId src =>
      withFiles state (updateOne host (files state) fileId (audioChanges src))
  | refetchAudioForFile_rejected arg payload =>
      let errorMessage := orString payload "Failed to re-fetch audio" in
      withFiles state
        (updateOne host (files state) (id (file arg)) (errorChanges errorMessage))
  | transcribeFile_pending arg =>
      withError
        (withIsTranscribing
           (withFiles state
              (updateOne host (files state) (id (file arg)) processingChanges))
           true)
        None
  | transcribeFile_fulfilled fileId result =>
      settle
        (withFiles state
           (updateOne host (files state) fileId
              (audioChanges (Service.audioSrc result))))
  | transcribeFile_rejected arg payload message =>
      let errorMessage :=
        orString payload (orString message "Transcription failed") in
      settle
        (withFiles state
           (updateOne host (files state) (id (file arg))
              (errorChanges errorMessage)))
  | transcribeMultipleFiles_pending =>
      withError (withIsTranscribing state true) None
  | transcribeMultipleFiles_fulfilled successCount errorCount =>
      let state' := withIsTranscribing state false in
      if 0 <? errorCount then
        withError state'
          (Some ("Completed with " +:+ pretty successCount +:+
                 " successes and " +:+ pretty errorCount +:+ " errors"))
      else state'
  | transcribeMultipleFiles_rejected payload =>
      withError (withIsTranscribing state false)
        (Some (orString payload "Bulk transcription failed"))
  end.

(** *** Thunks

    The synthesis thunks and the batch thunk.  ([restoreAudioData] probes
    the object URLs of the store and then dispatches [updateFileStatus]
    and [updateFileWithAudio]; the slice sees it through these actions and
    its three lifecycle actions.)

    A thunk runs against the store and the network.  [requests] counts the
    requests of the session so far; [events] records, in order, every
    action the thunk dispatches and every request it sends. *)
Inductive Event :=
| Dispatched (a : Action)
| Sent (r : Fetch.Request).

Record World := {
  state : FilesState;
  requests : nat;
  events : list Event;
}.

Definition Thunk (A : Type) : Type := World -> A * World.

Definition thunkRet {A} (a : A) : Thunk A := fun w => (a, w).

Definition thunkBind {A B} (m : Thunk A) (f : A -> Thunk B) : Thunk B :=
  fun w => let '(a, w') := m w in f a w'.

#[global] Instance Thunk_ret : MRet Thunk := @thunkRet.
#[global] Instance Thunk_bind : MBind Thunk := fun A B f m => thunkBind m f.

Definition dispatch (host : Host) (a : Action) : Thunk unit :=
  fun w =>
    (tt, {| state := reducer host (state w) a;
            requests := requests w;
            events := events w ++ [Dispatched a] |}).

(** Run a network computation from a thunk. *)
Definition await {A} (m : Net A) : Thunk A :=
  fun w =>
    let '(a, sent) := m (requests w) in
    (a, {| state := state w;
           requests := requests w + length sent;
           events := events w ++ (Sent <$> sent) |}).

(** [createAsyncThunk]: [pending] is dispatched, then the payload creator
    runs, then [fulfilled] or [rejected] is dispatched.  A payload
    creator settles with [Rejected message] for
    [rejectWithValue(message)]. *)
Definition createAsyncThunk {Arg R : Type} (host : Host)
    (pending : Arg -> Action) (fulfilled : R -> Action)
    (rejected : Arg -> string -> Action)
    (payloadCreator : Arg -> Thunk (Promise R)) (arg : Arg)
  : Thunk (Promise R) :=
  _ ← dispatch host (pending arg);
  r ← payloadCreator arg;
  match r with
  | Fulfilled v => _ ← dispatch host (fulfilled v); mret r
  | Rejected message => _ ← dispatch host (rejected arg message); mret r
  end.

Definition refetchAudioForFile (host : Host)
  : TranscribeArg -> Thunk (Promise (string * string)) :=
  createAsyncThunk host
    refetchAudioForFile_pending
    (fun p => refetchAudioForFile_fulfilled p.1 p.2)
    (fun arg message => refetchAudioForFile_rejected arg (Some message))
    (fun params =>
       r ← await (Service.transcribeText host (content (file params))
                    (name (file params)) (voice params) (speed params));
       mret (match r with
             | Fulfilled result =>
                 Fulfilled (id (file params), Service.audioSrc result)
             | Rejected message => Rejected message
             end)).

Definition transcribeFile (host : Host)
  : TranscribeArg -> Thunk (Promise (string * Service.TranscriptionResult)) :=
  createAsyncThunk host
    transcribeFile_pending
    (fun p => transcribeFile_fulfilled p.1 p.2)
    (fun arg message =>
       transcribeFile_rejected arg (Some message) (Some "Rejected"))
    (fun params =>
       r ← await (Service.transcribeText host (content (file params))
                    (name (file params)) (voice params) (speed params));
       mret (match r with
             | Fulfilled result => Fulfilled (id (file params), result)
             | Rejected message => Rejected message
             end)).

(** The [for] loop of [transcribeMultipleFiles], from index [i]. *)
Fixpoint transcribeLoop (host : Host) (len : nat) (v : string) (sp : Q)
    (rest : list ProcessedFile) (i successCount errorCount : nat)
  : Thunk (nat * nat) :=
  match rest with
  | [] => mret (successCount, errorCount)
  | f :: rest' =>
      _ ← dispatch host
            (setTranscriptionProgress
               {| current := i + 1; total := len;
                  currentFileName := Some (name f) |});
      r ← transcribeFile host {| file := f; voice := v; speed := sp |};
      match r with
      | Fulfilled _ =>
          transcribeLoop host len v sp rest' (i + 1) (successCount + 1)
            errorCount
      | Rejected _ =>
          transcribeLoop host len v sp rest' (i + 1) successCount
            (errorCount + 1)
      end
  end.

Record BatchArg := {
  batchFiles : list ProcessedFile;
  batchVoice : string;
  batchSpeed : Q;
}.

Definition transcribeMultipleFiles (host : Host)
  : BatchArg -> Thunk (Promise (nat * nat)) :=
  createAsyncThunk host
    (fun _ => transcribeMultipleFiles_pending)
    (fun counts => transcribeMultipleFiles_fulfilled counts.1 counts.2)
    (fun _ message => transcribeMultipleFiles_rejected (Some message))
    (fun params =>
       let fs := batchFiles params in
       _ ← dispatch host
             (setTranscriptionProgress
                {| current := 0; total := length fs;
                   currentFileName := None |});
       counts ← transcribeLoop host (length fs) (batchVoice params)
                  (batchSpeed params) fs 0 0 0;
       _ ← dispatch host (setTranscriptionProgress noProgress);
       mret (Fulfilled counts)).

End FilesSlice.

(** ** [store/slices/settingsSlice.ts] *)
Module SettingsSlice.

Record SettingsState := {
  selectedVoice : string;
  availableVoices : list string;
  selectedSpeed : Q;
  isLoadingVoices : bool;
}.

Definition initialState : SettingsState :=
  {| selectedVoice := "am_michael";
     availableVoices := ["am_michael"];
     selectedSpeed := 1%Q;
     isLoadingVoices := false |}.

Inductive Action :=
| setSelectedVoice (payload : string)
| setSelectedSpeed (payload : Q)
| setAvailableVoices (payload : list string)
| resetSettings
| loadVoices_pending
| loadVoices_fulfilled (payload : list string)
| loadVoices_rejected.

Definition includes (l : list string) (x : string) : bool :=
  bool_decide (x ∈ l).

Definition reducer (state : SettingsState) (action : Action) : SettingsState :=
  match action with
  | setSelectedVoice payload =>
      {| selectedVoice := payload;
         availableVoices := availableVoices state;
         selectedSpeed := selectedSpeed state;
         isLoadingVoices := isLoadingVoices state |}
  | setSelectedSpeed payload =>
      {| selectedVoice := selectedVoice state;
         availableVoices := availableVoices state;
         selectedSpeed := payload;
         isLoadingVoices := isLoadingVoices state |}
  | setAvailableVoices payload =>
      {| selectedVoice := selectedVoice state;
         availableVoices := payload;
         selectedSpeed := selectedSpeed state;
         isLoadingVoices := isLoadingVoices state |}
  | resetSettings =>
      {| selectedVoice := selectedVoice initialState;
         availableVoices := availableVoices state;
         selectedSpeed := selectedSpeed initialState;
         isLoadingVoices := isLoadingVoices state |}
  | loadVoices_pending =>
      {| selectedVoice := selectedVoice state;
         availableVoices := availableVoices state;
         selectedSpeed := selectedSpeed state;
         isLoadingVoices := true |}
  | loadVoices_fulfilled payload =>
      let uniqueVoices := JsString.unique ("am_michael" :: payload) in
      {| selectedVoice :=
           if includes uniqueVoices "am_michael" then "am_michael"
           else match uniqueVoices with
                | first :: _ => first
                | [] => selectedVoice state
                end;
         availableVoices := uniqueVoices;
         selectedSpeed := selectedSpeed state;
         isLoadingVoices := false |}
  | loadVoices_rejected =>
      {| selectedVoice := "am_michael";
         availableVoices :=
           if negb (includes (availableVoices state) "am_michael")
           then JsString.unique ("am_michael" :: availableVoices state)
           else availableVoices state;
         selectedSpeed := selectedSpeed state;
         isLoadingVoices := false |}
  end.

(** The [loadVoices] thunk, by the actions it dispatches. *)
Definition loadVoices (host : Host) : Net (list Action) :=
  r ← Service.fetchAvailableVoices host;
  mret (match r with
        | Fulfilled voices => [loadVoices_pending; loadVoices_fulfilled voices]
        | Rejected _ => [loadVoices_pending; loadVoices_rejected]
        end).

End SettingsSlice.

(** ** [store/index.ts]: the persistence transform and migration *)
Module Persist.
Import JS.

Definition initialAdapterState : value :=
  VObj [("ids", VArr []); ("entities", VObj [])].

(** [file?.audioSrc?.startsWith('blob:')]; [None] is the TypeError raised
    when [audioSrc] is neither a string nor nullish. *)
Definition hasBlobUrl (file : value) : option bool :=
  match getOpt file "audioSrc" with
  | VUndefined | VNull => Some false
  | VStr s => Some (JsString.startsWith s "blob:")
  | _ => None
  end.

(** The [forEach] over [Object.keys(cleanedEntities)]. *)
Fixpoint clean (keys : list string) (cleanedEntities : list (string * value))
  : option (list (string * value)) :=
  match keys with
  | [] => Some cleanedEntities
  | key :: keys' =>
      let file := lookupProp key cleanedEntities in
      isBlob ← hasBlobUrl file;
      clean keys'
        (if isBlob : bool
         then setProp key (VObj (setProp "audioSrc" (VStr "") (spread file)))
                cleanedEntities
         else cleanedEntities)
  end.

(** [filesTransform.in]. *)
Definition filesTransform_in (inboundState : value) : option value :=
  let entities := getOpt (getOpt inboundState "files") "entities" in
  if truthy entities then
    let cleanedEntities := spread entities in
    cleaned ← clean cleanedEntities.*1 cleanedEntities;
    files ← get inboundState "files";
    Some (VObj (setProp "files"
                  (VObj (setProp "entities" (VObj cleaned) (spread files)))
                  (spread inboundState)))
  else Some inboundState.

(** [filesTransform.out]. *)
Definition filesTransform_out (outboundState : value) : option value :=
  let reset :=
    VObj (setProp "files" initialAdapterState (spread outboundState)) in
  if negb (truthy outboundState) then Some reset
  else
    filesState ← get outboundState "files";
    if negb (truthy filesState) then Some reset
    else
      ids ← get filesState "ids";
      entities ← get filesState "entities";
      if negb (truthy ids) || negb (truthy entities) || negb (isArray ids)
      then
        if truthy entities && String.eqb (typeof entities) "object" then
          ks ← keys entities;
          Some (VObj (setProp "files"
                        (VObj (setProp "entities" entities
                                 (setProp "ids" (VArr (VStr <$> ks))
                                    (spread filesState))))
                        (spread outboundState)))
        else Some reset
      else Some outboundState.

(** [state.files = v] on the state object. *)
Definition assignFiles (state v : value) : value :=
  match state with
  | VObj props => VObj (setProp "files" v props)
  | _ => state
  end.

(** [filesPersistConfig.migrate], by the state its promise resolves to. *)
Definition migrate (state : value) : option value :=
  if truthy state && String.eqb (typeof state) "object" then
    filesState ← get state "files";
    if truthy filesState then
      ids ← get filesState "ids";
      entities ← get filesState "entities";
      if negb (truthy ids) || negb (truthy entities)
      then Some (assignFiles state initialAdapterState)
      else Some state
    else Some state
  else Some state.

End Persist.

(** ** [App.tsx]: ingestion of the selected files *)
Module App.

(** An entry of a loaded archive; [text] is the outcome of
    [zipEntry.async('string')]: the content, or the rendered error. *)
Record ZipEntry := {
  entryName : string;
  dir : bool;
  text : string + string;
}.

(** A selected [File]; [readAsText] is the outcome of [readFileContent],
    [loadAsync] that of [JSZip.loadAsync], each with the rendered error on
    the left. *)
Record File := {
  fileName : string;
  type : string;
  readAsText : string + string;
  loadAsync : string + list ZipEntry;
}.

Definition readyFile (uuid fileName content : string) : ProcessedFile :=
  {| id := uuid; name := fileName; content := content; status := Ready;
     audioSrc := None; error := None |}.

Definition errorFile (uuid fileName message : string) : ProcessedFile :=
  {| id := uuid; name := fileName; content := ""; status := Error;
     audioSrc := None; error := Some message |}.

(** The filter of [zip.forEach]. *)
Definition isTextEntry (zipEntry : ZipEntry) : bool :=
  negb (dir zipEntry)
  && (JsString.endsWith (entryName zipEntry) ".txt"
      || JsString.endsWith (entryName zipEntry) ".TXT").

Definition fromEntry (uuid : string) (zipEntry : ZipEntry) : ProcessedFile :=
  match text zipEntry with
  | inr content => readyFile uuid (entryName zipEntry) content
  | inl err =>
      errorFile uuid (entryName zipEntry) ("Failed to read from ZIP: " +:+ err)
  end.

(** The records of an archive ([filesFromZip]); [n] counts the identifiers
    drawn so far. *)
Fixpoint filesFromZip (host : Host) (n : nat) (entries : list ZipEntry)
  : list ProcessedFile :=
  match entries with
  | [] => []
  | zipEntry :: rest =>
      if isTextEntry zipEntry
      then fromEntry (randomUUID host n) zipEntry
             :: filesFromZip host (S n) rest
      else filesFromZip host n rest
  end.

(** The records one selected file contributes. *)
Definition process (host : Host) (n : nat) (f : File) : list ProcessedFile :=
  if String.eqb (type f) "text/plain" || JsString.endsWith (fileName f) ".txt"
  then
    match readAsText f with
    | inr content => [readyFile (randomUUID host n) (fileName f) content]
    | inl err =>
        [errorFile (randomUUID host n) (fileName f)
           ("Failed to read file: " +:+ err)]
    end
  else if String.eqb (type f) "application/zip"
          || JsString.endsWith (fileName f) ".zip"
  then
    match loadAsync f with
    | inr entries => filesFromZip host n entries
    | inl err =>
        [errorFile (randomUUID host n) (fileName f)
           ("Failed to process ZIP: " +:+ err)]
    end
  else
    [errorFile (randomUUID host n) (fileName f)
       "Unsupported file type. Please upload .txt or .zip files."].

Fixpoint processAll (host : Host) (n : nat) (selected : list File)
  : list ProcessedFile :=
  match selected with
  | [] => []
  | f :: rest =>
      let produced := process host n f in
      produced ++ processAll host (n + length produced) rest
  end.

(** [handleFilesSelected], by the actions it dispatches to the files
    slice (the messages of the ui slice are left out). *)
Definition handleFilesSelected (host : Host) (n : nat) (selected : list File)
  : list FilesSlice.Action :=
  match selected with
  | [] => []
  | _ =>
      [FilesSlice.setIsReadingFiles true;
       FilesSlice.clearError;
       FilesSlice.addProcessedFiles (processAll host n selected);
       FilesSlice.setIsReadingFiles false]
  end.

End App.

(** ** [store/selectors.ts] *)
Module Selectors.
Import FilesSlice.

(** [selectAll] of the adapter, [ids.map(id => entities[id])]: an
    identifier without an entity gives [undefined]. *)
Definition selectProcessedFiles (state : FilesState)
  : list (option ProcessedFile) :=
  (fun k => entities (files state) !! k) <$> ids (files state).

(** [files.filter(file => p(file))] for a [p] that reads a property of
    [file]: a [TypeError] ([None]) when some file is [undefined]. *)
Definition filterFiles (p : ProcessedFile -> bool)
    (files : list (option ProcessedFile)) : option (list ProcessedFile) :=
  l ← mapM (fun file => file) files;
  Some (filter (fun file => p file = true) l).

(** [file.audioSrc] as a condition. *)
Definition hasAudioSrc (file : ProcessedFile) : bool :=
  match audioSrc file with
  | Some src => JsString.truthy src
  | None => false
  end.

Definition selectReadyFiles (state : FilesState)
  : option (list ProcessedFile) :=
  filterFiles (fun file => bool_decide (status file = Ready))
    (selectProcessedFiles state).

Definition selectTranscribedFiles (state : FilesState)
  : option (list ProcessedFile) :=
  filterFiles
    (fun file => bool_decide (status file = Transcribed) && hasAudioSrc file)
    (selectProcessedFiles state).

Definition selectTranscribedFilesNeedingAudioRestoration (state : FilesState)
  : option (list ProcessedFile) :=
  filterFiles
    (fun file =>
       bool_decide (status file = Transcribed)
       && (negb (hasAudioSrc file)
           || match audioSrc file with
              | Some src => JsString.startsWith src "blob:"
              | None => false
              end))
    (selectProcessedFiles state).

Definition selectFilesWithErrors (state : FilesState)
  : option (list ProcessedFile) :=
  filterFiles (fun file => bool_decide (status file = Error))
    (selectProcessedFiles state).

Definition selectCanTranscribe (state : FilesState) : option bool :=
  readyFiles ← selectReadyFiles state;
  Some ((0 <? length readyFiles) && negb (isTranscribing state)
        && negb (isReadingFiles state) && negb (isRestoringAudio state)).

Definition selectCanClear (state : FilesState) : bool :=
  (0 <? length (selectProcessedFiles state)) && negb (isTranscribing state)
  && negb (isReadingFiles state) && negb (isRestoringAudio state).

Definition selectCanDownload (state : FilesState) : option bool :=
  transcribedFiles ← selectTranscribedFiles state;
  Some ((0 <? length transcribedFiles) && negb (isDownloading state)
        && negb (isTranscribing state) && negb (isReadingFiles state)
        && negb (isRestoringAudio state)).

Record FileStatistics := {
  statTotal : nat;
  statReady : nat;
  statProcessing : nat;
  statTranscribed : nat;
  statErrors : nat;
}.

Definition selectFileStatistics (state : FilesState)
  : option FileStatistics :=
  let files := selectProcessedFiles state in
  ready ← filterFiles (fun f => bool_decide (status f = Ready)) files;
  processing ←
    filterFiles (fun f => bool_decide (status f = Processing)) files;
  transcribed ←
    filterFiles (fun f => bool_decide (status f = Transcribed)) files;
  errors ← filterFiles (fun f => bool_decide (status f = Error)) files;
  Some {| statTotal := length files;
          statReady := length ready;
          statProcessing := length processing;
          statTranscribed := length transcribed;
          statErrors := length errors |}.

End Selectors.

(** ** [App.tsx]: starting the batch

    [handleStartTranscription], run on the ready files, voice and speed
    of its closure; the result is the global message it leaves ([None]
    when it returns at once). *)
Module Handlers.

Definition handleStartTranscription (host : Host)
    (readyFiles : list ProcessedFile) (selectedVoice : string)
    (selectedSpeed : Q) : FilesSlice.Thunk (option string) :=
  match readyFiles with
  | [] => mret None
  | _ =>
      r ← FilesSlice.transcribeMultipleFiles host
            {| FilesSlice.batchFiles := readyFiles;
               FilesSlice.batchVoice := selectedVoice;
               FilesSlice.batchSpeed := selectedSpeed |};
      mret (Some
              match r with
              | Fulfilled _ => "All transcriptions completed successfully!"
              | Rejected _ =>
                  "Some transcriptions failed. Please check individual file statuses."
              end)
  end.

End Handlers.

(** ** [store/slices/filesSlice.ts]: restoring audio after rehydration

    [restoreAudioData] probes the object URLs of the transcribed records
    with [fetch(url, {method: 'HEAD'})] and blanks the handles that no
    longer answer.  [head] gives the outcome of the probe of a URL (a
    probe is not a request to the synthesis service and is not counted in
    [requests]).  [Object.values] lists the entities in the order of the
    table. *)
Module AudioRestore.
Import FilesSlice.

Definition isBlobUrlValid (head : string -> Fetch.FetchOutcome)
    (url : string) : bool :=
  match head url with
  | Fetch.Responded response => Fetch.ok response
  | Fetch.NetworkError _ => false
  end.

(** [file?.status === 'transcribed' && file?.audioSrc]. *)
Definition isTranscribedWithAudio (file : ProcessedFile) : bool :=
  bool_decide (status file = Transcribed)
  && match audioSrc file with
     | Some src => JsString.truthy src
     | None => false
     end.

Definition transcribedFiles (state : FilesState) : list ProcessedFile :=
  filter (fun file => isTranscribedWithAudio file = true)
    (map_to_list (entities (files state))).*2.

(** The files pushed to [invalidFiles]. *)
Definition isInvalid (head : string -> Fetch.FetchOutcome)
    (file : ProcessedFile) : bool :=
  match audioSrc file with
  | Some src =>
      JsString.startsWith src "blob:" && negb (isBlobUrlValid head src)
  | None => false
  end.

Definition invalidFiles (head : string -> Fetch.FetchOutcome)
    (transcribed : list ProcessedFile) : list ProcessedFile :=
  filter (fun file => isInvalid head file = true) transcribed.

Definition getState : Thunk FilesState := fun w => (state w, w).

(** "Mark files as needing audio restoration". *)
Fixpoint markInvalid (host : Host) (invalid : list ProcessedFile)
  : Thunk unit :=
  match invalid with
  | [] => mret tt
  | file :: rest =>
      _ ← dispatch host (updateFileStatus (id file) Transcribed None);
      _ ← dispatch host (updateFileWithAudio (id file) "");
      markInvalid host rest
  end.

Definition restoreAudioData (host : Host)
    (head : string -> Fetch.FetchOutcome) : unit -> Thunk (Promise unit) :=
  createAsyncThunk host
    (fun _ => restoreAudioData_pending)
    (fun _ => restoreAudioData_fulfilled)
    (fun _ message => restoreAudioData_rejected (Some message))
    (fun _ =>
       state ← getState;
       match transcribedFiles state with
       | [] => mret (Fulfilled tt)
       | transcribed =>
           match invalidFiles head transcribed with
           | [] => mret (Fulfilled tt)
           | invalid =>
               _ ← markInvalid host invalid;
               mret (Fulfilled tt)
           end
       end).

End AudioRestore.

(** ** [App.tsx]: downloading the audio

    What [handleDownloadAll] and [handleDownloadSingle] do with the
    audio of the transcribed files: the name given to each download, and
    the archive built by [downloadPromises] and [Promise.all]. *)
Module Download.

(** [file.name.replace(/\.[^/.]+$/, '') + '.mp3']: the match is the dot
    that is followed, up to the end of the name, by one or more
    characters other than [/] and [.]. *)
Definition isOther (c : ascii) : bool :=
  negb (Ascii.eqb c "/") && negb (Ascii.eqb c ".").

Fixpoint allOther (s : string) : bool :=
  match s with
  | EmptyString => true
  | String c s' => isOther c && allOther s'
  end.

Definition isExtension (s : string) : bool :=
  JsString.truthy s && allOther s.

Fixpoint removeExtension (s : string) : string :=
  match s with
  | EmptyString => EmptyString
  | String c s' =>
      if Ascii.eqb c "." && isExtension s' then EmptyString
      else String c (removeExtension s')
  end.

Definition audioFileName (fileName : string) : string :=
  removeExtension fileName +:+ ".mp3".






End Download.

(** ** [components/FileListItem.tsx]: what a row shows of a record *)
Module FileListItem.

Inductive Icon := ArchiveBoxIcon | DocumentTextIcon.

(** "Heuristic for zip entries vs top-level zips". *)
Definition isZipEntry (fileName : string) : bool :=
  JsString.includes fileName "/"
  || (JsString.endsWith fileName ".txt"
      && negb (JsString.startsWith fileName "blob:")).

Definition FileIcon (fileName : string) : Icon :=
  if JsString.endsWith fileName ".zip" && negb (isZipEntry fileName)
  then ArchiveBoxIcon
  else DocumentTextIcon.

End FileListItem.

(** * Vocabulary of the statements

    The response shapes and inputs the specification names, and sample
    hosts on which the statements are evaluated. *)

(** A text that is empty or made of white space only. *)
Fixpoint blank (s : string) : bool :=
  match s with
  | EmptyString => true
  | String c s' => JsString.isWhiteSpace c && blank s'
  end.

(** The three documented shapes of the voice list. *)
Definition bareArray (vs : list string) : JS.value :=
  JS.VArr (JS.VStr <$> vs).

Definition wrappedStrings (vs : list string) : JS.value :=
  JS.VObj [("voices", JS.VArr (JS.VStr <$> vs))].

(** A voice record: its [id] and its other properties. *)
Definition voiceRecord (r : string * list (string * JS.value)) : JS.value :=
  JS.VObj (("id", JS.VStr r.1) :: r.2).

Definition wrappedRecords (rs : list (string * list (string * JS.value)))
  : JS.value :=
  JS.VObj [("voices", JS.VArr (voiceRecord <$> rs))].

(** The ways the voice-list call fails: the service is unreachable, answers
    with a status that is not a success, or sends a body that does not
    parse or has no recognized shape. *)
Inductive VoiceListFailure : Fetch.FetchOutcome -> Prop :=
| Unreachable message : VoiceListFailure (Fetch.NetworkError message)
| NotOk r : Fetch.ok r = false -> VoiceListFailure (Fetch.Responded r)
| Unparseable r :
    Fetch.ok r = true -> Fetch.json r = None ->
    VoiceListFailure (Fetch.Responded r)
| Unrecognized r data :
    Fetch.ok r = true -> Fetch.json r = Some data ->
    Service.parseVoices data = None ->
    VoiceListFailure (Fetch.Responded r).

Definition silentHost : Host :=
  {| fetch := fun _ _ => Fetch.NetworkError "Failed to fetch";
     localeCompare := String.compare;
     randomUUID := fun n => pretty n;
     toString := fun _ => EmptyString;
     stringify := fun _ => EmptyString |}.

(** A host whose service answers every request with the JSON [data]. *)
Definition jsonHost (data : JS.value) : Host :=
  {| fetch := fun _ _ =>
       Fetch.Responded
         {| Fetch.ok := true; Fetch.status := 200; Fetch.statusText := "OK";
            Fetch.contentType := Some "application/json";
            Fetch.downloadPath := None;
            Fetch.json := Some data;
            Fetch.blob := inl "not audio" |};
     localeCompare := String.compare;
     randomUUID := fun n => pretty n;
     toString := fun _ => EmptyString;
     stringify := fun _ => EmptyString |}.

(** The suffix test of the specification: the name ends in [.txt] in any
    mix of cases. *)
Definition toLowerCase (c : ascii) : ascii :=
  let n := N_of_ascii c in
  if ((65 <=? n) && (n <=? 90))%N then ascii_of_N (n + 32) else c.

Fixpoint lowered (s : string) : string :=
  match s with
  | EmptyString => EmptyString
  | String c s' => String (toLowerCase c) (lowered s')
  end.

Definition hasTextSuffixAnyCase (entryName : string) : bool :=
  JsString.endsWith (lowered entryName) ".txt".

Definition mixedCaseEntry : App.ZipEntry :=
  {| App.entryName := "notes.Txt"; App.dir := false;
     App.text := inr "hello" |}.



(** The fields of a record that count as defined: a non-empty [audioSrc],
    an [error] that is not [undefined]. *)
Definition hasAudio (f : ProcessedFile) : Prop :=
  exists src, audioSrc f = Some src /\ src <> EmptyString.

Definition hasError (f : ProcessedFile) : Prop := is_Some (error f).

(** The invariant of the data model: each of the two fields implies its
    status (so the two exclude each other). *)
Definition Exclusive (f : ProcessedFile) : Prop :=
  (hasAudio f -> status f = Transcribed) /\ (hasError f -> status f = Error).

(** Its half about [error]. *)
Definition ErrorImpliesStatus (f : ProcessedFile) : Prop :=
  hasError f -> status f = Error.

(** [P] holds of every record of the store. *)
Definition Everywhere (P : ProcessedFile -> Prop) (s : FilesSlice.FilesState)
  : Prop :=
  forall k f,
    FilesSlice.entities (FilesSlice.files s) !! k = Some f -> P f.

(** An action whose new records, if it adds any, satisfy [P]. *)
Definition Admissible (P : ProcessedFile -> Prop) (a : FilesSlice.Action)
  : Prop :=
  match a with
  | FilesSlice.addProcessedFiles payload => Forall P payload
  | _ => True
  end.

(** The entity an action updates, with its changes. *)
Definition update (a : FilesSlice.Action)
  : option (string * (ProcessedFile -> ProcessedFile)) :=
  match a with
  | FilesSlice.updateFileStatus fileId st err =>
      Some (fileId, FilesSlice.statusChanges st err)
  | FilesSlice.updateFileWithAudio fileId src
  | FilesSlice.refetchAudioForFile_fulfilled fileId src =>
      Some (fileId, FilesSlice.audioChanges src)
  | FilesSlice.refetchAudioForFile_pending arg
  | FilesSlice.transcribeFile_pending arg =>
      Some (id (FilesSlice.file arg), FilesSlice.processingChanges)
  | FilesSlice.refetchAudioForFile_rejected arg payload =>
      Some (id (FilesSlice.file arg),
            FilesSlice.errorChanges
              (FilesSlice.orString payload "Failed to re-fetch audio"))
  | FilesSlice.transcribeFile_fulfilled fileId result =>
      Some (fileId, FilesSlice.audioChanges (Service.audioSrc result))
  | FilesSlice.transcribeFile_rejected arg payload message =>
      Some (id (FilesSlice.file arg),
            FilesSlice.errorChanges
              (FilesSlice.orString payload
                 (FilesSlice.orString message "Transcription failed")))
  | _ => None
  end.

(** [updateFileStatus] on a record in error: towards [ready] with an error
    given, towards [error] with none given, towards [error] with one. *)
Definition statusChanges_example
  : option string * option string * option string :=
  let f := App.errorFile "a" "a.txt" "kept" in
  (error (FilesSlice.statusChanges Ready (Some "ignored") f),
   error (FilesSlice.statusChanges Error None f),
   error (FilesSlice.statusChanges Error (Some "new") f)).

(** A host whose service serves the first request of the session, with a
    download path, and is unreachable afterwards. *)
Definition flakyHost : Host :=
  {| fetch := fun n _ =>
       match n with
       | 0 =>
           Fetch.Responded
             {| Fetch.ok := true; Fetch.status := 200;
                Fetch.statusText := "OK";
                Fetch.contentType := Some "application/json";
                Fetch.downloadPath := Some "/download/a.mp3";
                Fetch.json := None;
                Fetch.blob := inl "not audio" |}
       | S _ => Fetch.NetworkError "Failed to fetch"
       end;
     localeCompare := String.compare;
     randomUUID := fun n => pretty n;
     toString := fun _ => EmptyString;
     stringify := fun _ => EmptyString |}.

Definition docA : ProcessedFile := App.readyFile "a" "a.txt" "hello".
Definition docB : ProcessedFile := App.readyFile "b" "b.txt" "world".

Definition attempt (f : ProcessedFile) : FilesSlice.TranscribeArg :=
  {| FilesSlice.file := f; FilesSlice.voice := "am_michael";
     FilesSlice.speed := 1%Q |}.

Definition storeWith (host : Host) (l : list ProcessedFile)
  : FilesSlice.World :=
  {| FilesSlice.state :=
       FilesSlice.reducer host FilesSlice.initialState
         (FilesSlice.addProcessedFiles l);
     FilesSlice.requests := 0;
     FilesSlice.events := [] |}.

(** The record with identifier [k], as the store holds it. *)
Definition recordAt (k : string) (s : FilesSlice.FilesState)
  : option ProcessedFile :=
  FilesSlice.entities (FilesSlice.files s) !! k.

Definition statusAt (k : string) (s : FilesSlice.FilesState)
  : option FileStatus :=
  status <$> recordAt k s.

(** The store after each event of a trace: a dispatched action is reduced,
    a request leaves the store as it is. *)
Fixpoint replay (host : Host) (s : FilesSlice.FilesState)
    (evs : list FilesSlice.Event) : list FilesSlice.FilesState :=
  match evs with
  | [] => []
  | e :: evs' =>
      let s' :=
        match e with
        | FilesSlice.Dispatched a => FilesSlice.reducer host s a
        | FilesSlice.Sent _ => s
        end in
      s' :: replay host s' evs'
  end.

(** The action that settles a synthesis attempt. *)
Definition transcribeFile_settled (arg : FilesSlice.TranscribeArg)
    (r : Promise Service.TranscriptionResult) : FilesSlice.Action :=
  match r with
  | Fulfilled result =>
      FilesSlice.transcribeFile_fulfilled (id (FilesSlice.file arg)) result
  | Rejected message =>
      FilesSlice.transcribeFile_rejected arg (Some message) (Some "Rejected")
  end.

Definition refetchAudioForFile_settled (arg : FilesSlice.TranscribeArg)
    (r : Promise Service.TranscriptionResult) : FilesSlice.Action :=
  match r with
  | Fulfilled result =>
      FilesSlice.refetchAudioForFile_fulfilled (id (FilesSlice.file arg))
        (Service.audioSrc result)
  | Rejected message =>
      FilesSlice.refetchAudioForFile_rejected arg (Some message)
  end.

Definition settledStatus {A} (r : Promise A) : FileStatus :=
  match r with Fulfilled _ => Transcribed | Rejected _ => Error end.

(** The synthesis call of an attempt. *)
Definition synthesis (host : Host) (arg : FilesSlice.TranscribeArg)
  : Net (Promise Service.TranscriptionResult) :=
  Service.transcribeText host (content (FilesSlice.file arg))
    (name (FilesSlice.file arg)) (FilesSlice.voice arg) (FilesSlice.speed arg).

Definition freshWorld (s : FilesSlice.FilesState) (n : nat)
  : FilesSlice.World :=
  {| FilesSlice.state := s; FilesSlice.requests := n;
     FilesSlice.events := [] |}.

Definition progress (current total : nat) (currentFileName : option string)
  : FilesSlice.Progress :=
  {| FilesSlice.current := current; FilesSlice.total := total;
     FilesSlice.currentFileName := currentFileName |}.

Definition batch (l : list ProcessedFile) (v : string) (sp : Q)
  : FilesSlice.BatchArg :=
  {| FilesSlice.batchFiles := l; FilesSlice.batchVoice := v;
     FilesSlice.batchSpeed := sp |}.

Definition attemptWith (v : string) (sp : Q) (f : ProcessedFile)
  : FilesSlice.TranscribeArg :=
  {| FilesSlice.file := f; FilesSlice.voice := v; FilesSlice.speed := sp |}.

(** The actions a trace dispatches, in order. *)
Definition dispatched (evs : list FilesSlice.Event) : list FilesSlice.Action :=
  omap (fun e => match e with
                 | FilesSlice.Dispatched a => Some a
                 | FilesSlice.Sent _ => None
                 end) evs.

(** The records of [docA] and [docB] once the batch has run on
    [flakyHost]. *)
Definition sampleBatch : Promise (nat * nat) * FilesSlice.World :=
  FilesSlice.transcribeMultipleFiles flakyHost
    (batch [docA; docB] "am_michael" 1%Q)
    (freshWorld (FilesSlice.state (storeWith flakyHost [docA; docB])) 0).

(** A record with its transient audio handle blanked. *)
Definition blanked (file : JS.value) : JS.value :=
  JS.VObj (JS.setProp "audioSrc" (JS.VStr "") (JS.spread file)).

(** What the write transform makes of a record. *)
Definition cleanedFile (file : JS.value) : JS.value :=
  match Persist.hasBlobUrl file with
  | Some true => blanked file
  | _ => file
  end.

(** The structure the repair pass checks for: an array [ids] and truthy
    [entities]. *)
Definition hasAdapterStructure (filesState : JS.value) : bool :=
  JS.truthy (JS.getOpt filesState "ids")
  && JS.truthy (JS.getOpt filesState "entities")
  && JS.isArray (JS.getOpt filesState "ids").

(** An entities value the repair pass can rebuild the index from. *)
Definition usable (entities : JS.value) : bool :=
  JS.truthy entities && String.eqb (JS.typeof entities) "object".

(** A stored record, as the slice serializes it. *)
Definition storedFile (fileId audio : string) : JS.value :=
  JS.VObj [("id", JS.VStr fileId); ("name", JS.VStr (fileId +:+ ".txt"));
           ("content", JS.VStr "hello"); ("status", JS.VStr "transcribed");
           ("audioSrc", JS.VStr audio)].

(** The repair of a stored collection, in the words of the specification:
    a collection with the expected structure is kept; otherwise the index
    is rebuilt from the keys of the entities when these are usable, and
    the collection is the empty one when they are not. *)
Definition repairedCollection (filesState : JS.value) : JS.value :=
  let entities := JS.getOpt filesState "entities" in
  if hasAdapterStructure filesState then filesState
  else if usable entities then
    JS.VObj
      (JS.setProp "entities" entities
         (JS.setProp "ids" (JS.VArr (JS.VStr <$> (JS.spread entities).*1))
            (JS.spread filesState)))
  else Persist.initialAdapterState.

(** A stored state whose collection has lost its index. *)
Definition staleState (audioA audioB : string) (withIds : bool) : JS.value :=
  JS.VObj
    [("files",
      JS.VObj
        ((if withIds then [("ids", JS.VArr [JS.VStr "a"; JS.VStr "b"])]
          else [])
         ++ [("entities",
              JS.VObj [("a", storedFile "a" audioA);
                       ("b", storedFile "b" audioB)])]));
     ("_persist", JS.VStr "{version:1}")].

(** A host whose service refuses every request with status 500 and a
    detail message. *)
Definition refusingHost : Host :=
  {| fetch := fun _ _ =>
       Fetch.Responded
         {| Fetch.ok := false; Fetch.status := 500;
            Fetch.statusText := "Internal Server Error";
            Fetch.contentType := Some "application/json";
            Fetch.downloadPath := None;
            Fetch.json := Some (JS.VObj [("detail", JS.VStr "voice not found")]);
            Fetch.blob := inl "not audio" |};
     localeCompare := String.compare;
     randomUUID := fun n => pretty n;
     toString := fun _ => EmptyString;
     stringify := fun _ => EmptyString |}.

(** A record after a synthesis attempt that settled with [r]. *)
Definition settledRecord (f : ProcessedFile)
    (r : Promise Service.TranscriptionResult) : ProcessedFile :=
  match r with
  | Fulfilled result =>
      {| id := id f; name := name f; content := content f;
         status := Transcribed;
         audioSrc := Some (Service.audioSrc result);
         error := None |}
  | Rejected message =>
      {| id := id f; name := name f; content := content f;
         status := Error;
         audioSrc := audioSrc f;
         error := Some message |}
  end.

(** The structure of the entity table: no identifier is listed twice, the
    listed identifiers are those that have an entity, and an entity is
    stored under its own [id]. *)
Definition Coherent (st : FilesSlice.EntityState) : Prop :=
  NoDup (FilesSlice.ids st)
  /\ (forall k,
        k ∈ FilesSlice.ids st <-> is_Some (FilesSlice.entities st !! k))
  /\ (forall k f, FilesSlice.entities st !! k = Some f -> id f = k).

(** The listed identifiers follow the order of the names: no record is
    listed right before one whose name compares smaller. *)
Definition InNameOrder (host : Host) (st : FilesSlice.EntityState) : Prop :=
  forall i k1 k2 f1 f2,
    FilesSlice.ids st !! i = Some k1 ->
    FilesSlice.ids st !! S i = Some k2 ->
    FilesSlice.entities st !! k1 = Some f1 ->
    FilesSlice.entities st !! k2 = Some f2 ->
    localeCompare host (name f2) (name f1) <> Lt.

(** The store after a sequence of actions. *)
Definition reduce (host : Host) (s : FilesSlice.FilesState)
    (actions : list FilesSlice.Action) : FilesSlice.FilesState :=
  foldl (FilesSlice.reducer host) s actions.

(** A comparison of names in which no two names are each smaller than the
    other. *)
Definition asymmetric (host : Host) : Prop :=
  forall a b, localeCompare host a b = Lt -> localeCompare host b a <> Lt.

(** The fields of a record that identify it and carry its text. *)
Definition sameDocument (f g : ProcessedFile) : Prop :=
  id g = id f /\ name g = name f /\ content g = content f.

(** A small selection: a text file, an archive of two text entries and a
    directory, and a picture. *)
Definition sampleSelection : list App.File :=
  [{| App.fileName := "a.txt"; App.type := "text/plain";
      App.readAsText := inr "hello"; App.loadAsync := inl "not an archive" |};
   {| App.fileName := "b.zip"; App.type := "application/zip";
      App.readAsText := inl "not text";
      App.loadAsync :=
        inr [{| App.entryName := "docs/"; App.dir := true;
                App.text := inr "" |};
             {| App.entryName := "docs/c.txt"; App.dir := false;
                App.text := inr "world" |};
             {| App.entryName := "docs/d.TXT"; App.dir := false;
                App.text := inl "bad data" |}] |};
   {| App.fileName := "e.png"; App.type := "image/png";
      App.readAsText := inl "not text";
      App.loadAsync := inl "not an archive" |}].

(** A record that a synthesis attempt has settled. *)
Definition Settled (k : string) (s : FilesSlice.FilesState) : Prop :=
  exists f, recordAt k s = Some f
            /\ (status f = Transcribed \/ status f = Error).

(** The records of a list whose content is not blank. *)
Definition speakable (l : list ProcessedFile) : list ProcessedFile :=
  filter (fun f => blank (content f) = false) l.

(** The banner of a batch that ended with [errorCount] failures. *)
Definition batchBanner (successCount errorCount : nat) : option string :=
  if errorCount =? 0 then None
  else Some ("Completed with " +:+ pretty successCount +:+
             " successes and " +:+ pretty errorCount +:+ " errors").

(** An empty record and one with text, both ready. *)
Definition docEmpty : ProcessedFile := App.readyFile "e" "e.txt" "  ".

(** A transcribed record whose handle is an object URL that no longer
    answers. *)
Definition stale (head : string -> Fetch.FetchOutcome) (f : ProcessedFile)
  : bool :=
  AudioRestore.isTranscribedWithAudio f && AudioRestore.isInvalid head f.

(** What the restoration makes of a record. *)
Definition restored (head : string -> Fetch.FetchOutcome) (f : ProcessedFile)
  : ProcessedFile :=
  if stale head f then
    {| id := id f; name := name f; content := content f;
       status := Transcribed; audioSrc := Some ""; error := None |}
  else f.

(** Probes that find the object URL [blob:live] and no other. *)
Definition onlyLive (url : string) : Fetch.FetchOutcome :=
  if String.eqb url "blob:live" then
    Fetch.Responded
      {| Fetch.ok := true; Fetch.status := 200; Fetch.statusText := "OK";
         Fetch.contentType := Some "audio/mpeg"; Fetch.downloadPath := None;
         Fetch.json := None; Fetch.blob := inr "blob:live" |}
  else Fetch.NetworkError "Failed to fetch".

Definition transcribedDoc (k src : string) : ProcessedFile :=
  {| id := k; name := k +:+ ".txt"; content := "hello";
     status := Transcribed; audioSrc := Some src; error := None |}.

(** A rehydrated store: a live object URL, a dead one, a download
    location, and a record still ready. *)
Definition rehydrated : FilesSlice.FilesState :=
  reduce silentHost FilesSlice.initialState
    [FilesSlice.addProcessedFiles
       [transcribedDoc "l" "blob:live"; transcribedDoc "d" "blob:dead";
        transcribedDoc "p" "http://localhost:8880/download/p.mp3"; docA]].








(** The two tests of the ingestion handler on a selected file. *)
Definition isText (f : App.File) : bool :=
  String.eqb (App.type f) "text/plain"
  || JsString.endsWith (App.fileName f) ".txt".

Definition isArchive (f : App.File) : bool :=
  String.eqb (App.type f) "application/zip"
  || JsString.endsWith (App.fileName f) ".zip".

(** A record as the ingestion handler makes them. *)
Definition Fresh (r : ProcessedFile) : Prop :=
  audioSrc r = None
  /\ ((status r = Ready /\ error r = None)
      \/ (status r = Error /\ content r = EmptyString
          /\ exists message, error r = Some message)).

(** An archive that loads and has no text entry, and a text file whose
    name ends in [.zip]. *)
Definition emptyArchive : App.File :=
  {| App.fileName := "pictures.zip"; App.type := "application/zip";
     App.readAsText := inl "not text";
     App.loadAsync :=
       inr [{| App.entryName := "a.png"; App.dir := false;
               App.text := inr "" |};
            {| App.entryName := "notes.txt/"; App.dir := true;
               App.text := inr "" |}] |}.

Definition textNamedZip : App.File :=
  {| App.fileName := "notes.zip"; App.type := "text/plain";
     App.readAsText := inr "hello";
     App.loadAsync := inl "not an archive" |}.

(** Some record of the table is still processing. *)
Definition stillProcessing (s : FilesSlice.FilesState) : bool :=
  FilesSlice.some (fun f => bool_decide (status f = Processing))
    (FilesSlice.entities (FilesSlice.files s)).

(** A record that is neither pending nor being read. *)
Definition Counted (f : ProcessedFile) : Prop :=
  status f <> Pending /\ status f <> Reading.

(** * Properties *)

(** ** Strings and values *)

Example trim_strips_both_ends : JsString.trim "  a b  " = "a b".
Proof. reflexivity. Qed.

Example endsWith_is_case_sensitive :
  JsString.endsWith "notes.txt" ".txt" = true
  /\ JsString.endsWith "NOTES.TXT" ".TXT" = true
  /\ JsString.endsWith "notes.Txt" ".txt" = false
  /\ JsString.endsWith "txt" ".txt" = false.
Proof. by split_and!. Qed.

Example unique_keeps_first_occurrences :
  JsString.unique ["b"; "a"; "b"; "c"; "a"] = ["b"; "a"; "c"].
Proof. reflexivity. Qed.

Example spread_of_a_string :
  JS.spread (JS.VStr "ab") = [("0", JS.VStr "a"); ("1", JS.VStr "b")].
Proof. reflexivity. Qed.

Example get_of_null_throws :
  JS.get JS.VNull "files" = None /\ JS.getOpt JS.VNull "files" = JS.VUndefined.
Proof. by split. Qed.


Lemma trimStart_blank (s : string) :
  blank s = true -> JsString.trimStart s = EmptyString.
Proof.
  induction s as [|c s IH]; simpl; [done|].
  intros [Hc Hs]%andb_true_iff. rewrite Hc. auto.
Qed.

Lemma trim_blank (s : string) :
  blank s = true -> JsString.trim s = EmptyString.
Proof.
  intros H. unfold JsString.trim. by rewrite trimStart_blank.
Qed.

Lemma lookupProp_setProp_eq k v props :
  JS.lookupProp k (JS.setProp k v props) = v.
Proof.
  induction props as [|[k' v'] props IH]; simpl.
  - by rewrite String.eqb_refl.
  - destruct (String.eqb k k') eqn:E; simpl.
    + by rewrite String.eqb_refl.
    + by rewrite E.
Qed.

Lemma lookupProp_setProp_ne k k' v props :
  k <> k' -> JS.lookupProp k' (JS.setProp k v props) = JS.lookupProp k' props.
Proof.
  intros Hne. induction props as [|[k0 v0] props IH]; simpl.
  - destruct (String.eqb k' k) eqn:E; [|done].
    apply String.eqb_eq in E. congruence.
  - destruct (String.eqb k k0) eqn:E; simpl.
    + apply String.eqb_eq in E. subst k0.
      destruct (String.eqb k' k) eqn:E'; [|done].
      apply String.eqb_eq in E'. congruence.
    + destruct (String.eqb k' k0); [done|apply IH].
Qed.

Lemma setProp_keys k v props :
  JS.lookupProp k props <> JS.VUndefined ->
  (JS.setProp k v props).*1 = props.*1.
Proof.
  induction props as [|[k0 v0] props IH]; cbn [JS.setProp JS.lookupProp];
    [done|].
  destruct (String.eqb k k0) eqn:E.
  - apply String.eqb_eq in E. by subst.
  - intros H. rewrite !fmap_cons. f_equal. by apply IH.
Qed.

(** ** The synthesis client *)

(** C3.  For every text that is empty or made of white space only,
    [transcribeText] rejects with the empty-input error, and the list of
    requests it sent is empty: the check precedes the call of [fetch]. *)
Theorem transcribeText_blank_rejects_before_fetch
    (host : Host) (text fileName voice : string) (speed : Q) (n : nat) :
  blank text = true ->
  Service.transcribeText host text fileName voice speed n
  = (Rejected (Service.EmptyInput fileName), []).
Proof.
  intros Hblank. unfold Service.transcribeText.
  rewrite (trim_blank _ Hblank). simpl.
  by rewrite orb_true_r.
Qed.

Lemma transcribeText_blank_rejects_before_fetch_witness :
  blank "   " = true
  /\ Service.transcribeText silentHost "   " "notes.txt" "am_michael" 1%Q 0
     = (Rejected "Cannot transcribe empty text for notes.txt.", []).
Proof.
  split; [reflexivity|].
  apply (transcribeText_blank_rejects_before_fetch
           silentHost "   " "notes.txt" "am_michael" 1%Q 0).
  reflexivity.
Defined.

Lemma strings_VStr (vs : list string) :
  Service.strings (JS.VStr <$> vs) = vs.
Proof.
  unfold Service.strings. induction vs as [|v vs IH]; [done|].
  rewrite fmap_cons. cbn [omap list_omap Service.stringOf]. by rewrite IH.
Qed.

Lemma everyString_VStr (vs : list string) :
  Service.everyString (JS.VStr <$> vs) = true.
Proof. unfold Service.everyString. by induction vs. Qed.

Lemma filter_isString_VStr (vs : list string) :
  filter (fun v => JS.isString v = true) (JS.VStr <$> vs) = JS.VStr <$> vs.
Proof.
  induction vs as [|v vs IH]; [done|].
  rewrite fmap_cons, filter_cons_True by done. by rewrite IH.
Qed.

Lemma idOf_voiceRecord r : Service.idOf (voiceRecord r) = Some r.1.
Proof. reflexivity. Qed.

Lemma ids_voiceRecord rs : Service.ids (voiceRecord <$> rs) = rs.*1.
Proof.
  unfold Service.ids. induction rs as [|r rs IH]; [done|].
  rewrite !fmap_cons. cbn [omap list_omap]. rewrite idOf_voiceRecord.
  cbn. by rewrite IH.
Qed.

Lemma everyHasId_voiceRecord rs :
  Service.everyHasId (voiceRecord <$> rs) = true.
Proof. unfold Service.everyHasId. by induction rs. Qed.

Lemma extract_strings (vs : list string) :
  Service.extract (JS.VStr <$> vs) = Some vs.
Proof.
  unfold Service.extract. by rewrite everyString_VStr, strings_VStr.
Qed.

Lemma extract_records rs :
  Service.extract (voiceRecord <$> rs) = Some rs.*1.
Proof.
  unfold Service.extract. destruct rs as [|r rs]; [done|].
  rewrite fmap_cons. cbn [Service.everyString forallb voiceRecord JS.isString].
  cbn [andb]. rewrite <- fmap_cons.
  by rewrite everyHasId_voiceRecord, ids_voiceRecord.
Qed.

Lemma parseVoices_shapes vs rs :
  Service.parseVoices (bareArray vs) = Some vs
  /\ Service.parseVoices (wrappedStrings vs) = Some vs
  /\ Service.parseVoices (wrappedRecords rs) = Some rs.*1.
Proof.
  split_and!.
  - cbn [Service.parseVoices bareArray].
    by rewrite filter_isString_VStr, strings_VStr.
  - unfold Service.parseVoices, wrappedStrings.
    cbn [JS.truthy JS.getOpt JS.get JS.spread JS.lookupProp String.eqb
         Ascii.eqb Bool.eqb]. by rewrite extract_strings.
  - unfold Service.parseVoices, wrappedRecords.
    cbn [JS.truthy JS.getOpt JS.get JS.spread JS.lookupProp String.eqb
         Ascii.eqb Bool.eqb]. by rewrite extract_records.
Qed.

(** C4.  When the service answers the voice-list request with a success
    whose body has one of the three documented shapes (a bare array of
    identifiers, an object wrapping such an array, an object wrapping an
    array of records with an [id]), [fetchAvailableVoices] fulfils with
    exactly the identifiers, in order. *)
Theorem fetchAvailableVoices_normalizes_documented_shapes
    (host : Host) (n : nat) (r : Fetch.Response) (vs : list string)
    (rs : list (string * list (string * JS.value))) :
  fetch host n Service.voicesRequest = Fetch.Responded r ->
  Fetch.ok r = true ->
  Fetch.json r = Some (bareArray vs)
  \/ Fetch.json r = Some (wrappedStrings vs)
  \/ (Fetch.json r = Some (wrappedRecords rs) /\ rs.*1 = vs) ->
  Service.fetchAvailableVoices host n = (Fulfilled vs, [Service.voicesRequest]).
Proof.
  intros Hfetch Hok Hshape.
  destruct (parseVoices_shapes vs rs) as (Hbare & Hwrapped & Hrecords).
  assert (Hparse : Service.voicesAttempt (Fetch.Responded r) = Some vs).
  { unfold Service.voicesAttempt. rewrite Hok. simpl.
    destruct Hshape as [-> | [-> | [-> <-]]]; simpl; done. }
  unfold Service.fetchAvailableVoices, send, mbind, Net_bind, netBind.
  rewrite Hfetch, Hparse. reflexivity.
Qed.

Lemma fetchAvailableVoices_normalizes_documented_shapes_witness :
  fst (Service.fetchAvailableVoices
         (jsonHost (JS.VArr [JS.VStr "x"; JS.VStr "y"])) 0)
    = Fulfilled ["x"; "y"]
  /\ fst (Service.fetchAvailableVoices
            (jsonHost (JS.VObj [("voices", JS.VArr [JS.VStr "x"; JS.VStr "y"])]))
            0)
    = Fulfilled ["x"; "y"]
  /\ fst (Service.fetchAvailableVoices
            (jsonHost
               (JS.VObj [("voices",
                          JS.VArr [JS.VObj [("id", JS.VStr "x")];
                                   JS.VObj [("id", JS.VStr "y")]])]))
            0)
    = Fulfilled ["x"; "y"].
Proof.
  split_and!.
  - exact (f_equal fst
             (fetchAvailableVoices_normalizes_documented_shapes
                (jsonHost (bareArray ["x"; "y"])) 0 _ ["x"; "y"] []
                eq_refl eq_refl (or_introl eq_refl))).
  - exact (f_equal fst
             (fetchAvailableVoices_normalizes_documented_shapes
                (jsonHost (wrappedStrings ["x"; "y"])) 0 _ ["x"; "y"] []
                eq_refl eq_refl (or_intror (or_introl eq_refl)))).
  - exact (f_equal fst
             (fetchAvailableVoices_normalizes_documented_shapes
                (jsonHost (wrappedRecords [("x", []); ("y", [])])) 0 _
                ["x"; "y"] [("x", []); ("y", [])]
                eq_refl eq_refl
                (or_intror (or_intror (conj eq_refl eq_refl))))).
Defined.

(** [fetchAvailableVoices] never rejects: its [catch] returns a list. *)
Lemma fetchAvailableVoices_fulfils (host : Host) (n : nat) :
  exists voices,
    Service.fetchAvailableVoices host n
    = (Fulfilled voices, [Service.voicesRequest]).
Proof.
  unfold Service.fetchAvailableVoices, send, mbind, Net_bind, netBind. simpl.
  destruct (Service.voicesAttempt _); eauto.
Qed.

Lemma voicesAttempt_failure (outcome : Fetch.FetchOutcome) :
  VoiceListFailure outcome -> Service.voicesAttempt outcome = None.
Proof.
  intros [message | r Hok | r Hok Hjson | r data Hok Hjson Hparse];
    unfold Service.voicesAttempt; [done|by rewrite Hok|..];
    rewrite Hok, Hjson; done.
Qed.

(** C5, as the code has it.  When the voice-list call fails (unreachable
    service, status that is not a success, body without a recognized
    shape), [fetchAvailableVoices] does not fail: it fulfils with the
    hardcoded list [am_michael, af_heart], and the [loadVoices] thunk
    dispatches [fulfilled] with that list, never [rejected]; on no host
    and at no point of a session does [fetchAvailableVoices] reject. *)
Theorem fetchAvailableVoices_falls_back_itself (host : Host) (n : nat) :
  VoiceListFailure (fetch host n Service.voicesRequest) ->
  Service.fetchAvailableVoices host n
  = (Fulfilled ["am_michael"; "af_heart"], [Service.voicesRequest])
  /\ SettingsSlice.loadVoices host n
     = ([SettingsSlice.loadVoices_pending;
         SettingsSlice.loadVoices_fulfilled ["am_michael"; "af_heart"]],
        [Service.voicesRequest])
  /\ (forall host' n' message,
        (Service.fetchAvailableVoices host' n').1 <> Rejected message).
Proof.
  intros Hfail%voicesAttempt_failure. split_and!.
  - unfold Service.fetchAvailableVoices, send, mbind, Net_bind, netBind.
    simpl. by rewrite Hfail.
  - unfold SettingsSlice.loadVoices, Service.fetchAvailableVoices, send,
      mbind, Net_bind, netBind. simpl. by rewrite Hfail.
  - intros host' n' message.
    by destruct (fetchAvailableVoices_fulfils host' n') as [voices ->].
Qed.

Lemma fetchAvailableVoices_falls_back_itself_witness :
  VoiceListFailure (fetch silentHost 0 Service.voicesRequest)
  /\ Service.fetchAvailableVoices silentHost 0
     = (Fulfilled ["am_michael"; "af_heart"], [Service.voicesRequest])
  /\ VoiceListFailure (fetch (jsonHost (JS.VNum 5%Q)) 0 Service.voicesRequest)
  /\ Service.fetchAvailableVoices (jsonHost (JS.VNum 5%Q)) 0
     = (Fulfilled ["am_michael"; "af_heart"], [Service.voicesRequest]).
Proof.
  assert (H1 : VoiceListFailure (fetch silentHost 0 Service.voicesRequest))
    by apply Unreachable.
  assert (H2 : VoiceListFailure
                 (fetch (jsonHost (JS.VNum 5%Q)) 0 Service.voicesRequest))
    by (eapply Unrecognized; reflexivity).
  split_and!; [exact H1| |exact H2|].
  - exact (proj1 (fetchAvailableVoices_falls_back_itself silentHost 0 H1)).
  - exact (proj1 (fetchAvailableVoices_falls_back_itself
                    (jsonHost (JS.VNum 5%Q)) 0 H2)).
Defined.

(** C5, as the claim states it, fails: with the service unreachable the
    operation fulfils with the fallback list; no rejection reaches the
    caller. *)
Lemma fetchAvailableVoices_unreachable_is_not_an_error :
  fetch silentHost 0 Service.voicesRequest
  = Fetch.NetworkError "Failed to fetch"
  /\ fst (Service.fetchAvailableVoices silentHost 0)
     = Fulfilled ["am_michael"; "af_heart"]
  /\ (forall message,
        fst (Service.fetchAvailableVoices silentHost 0) <> Rejected message).
Proof. split_and!; [reflexivity..|]. intros message. discriminate. Qed.

(** ** Ingestion *)

Lemma filesFromZip_names (host : Host) (n : nat) (entries : list App.ZipEntry) :
  name <$> App.filesFromZip host n entries
  = App.entryName <$> filter (fun e => App.isTextEntry e = true) entries.
Proof.
  revert n. induction entries as [|e entries IH]; intros n; [done|].
  cbn [App.filesFromZip]. destruct (App.isTextEntry e) eqn:E.
  - rewrite filter_cons_True by done. rewrite !fmap_cons, IH. f_equal.
    unfold App.fromEntry. by destruct (App.text e).
  - rewrite filter_cons_False by congruence. apply IH.
Qed.

Lemma filesFromZip_ids (host : Host) (n : nat) (entries : list App.ZipEntry) :
  id <$> App.filesFromZip host n entries
  = randomUUID host
      <$> seq n (length (filter (fun e => App.isTextEntry e = true) entries)).
Proof.
  revert n. induction entries as [|e entries IH]; intros n; [done|].
  cbn [App.filesFromZip]. destruct (App.isTextEntry e) eqn:E.
  - rewrite filter_cons_True by done. cbn [length seq].
    rewrite !fmap_cons, IH. f_equal.
    unfold App.fromEntry. by destruct (App.text e).
  - rewrite filter_cons_False by congruence. apply IH.
Qed.

Lemma filter_split_length {A} (p : A -> bool) (l : list A) :
  length (filter (fun x => p x = true) l)
  + length (filter (fun x => p x = false) l) = length l.
Proof.
  induction l as [|x l IH]; [done|]. destruct (p x) eqn:E.
  - rewrite filter_cons_True, filter_cons_False by congruence. simpl. lia.
  - rewrite filter_cons_False, filter_cons_True by congruence. simpl. lia.
Qed.

(** C6, as the code has it.  Extraction yields exactly one record per
    entry that is not a directory and whose name ends in [.txt] or in
    [.TXT], in the order of the archive and under the entry's name, each
    with a fresh identifier; every other entry is skipped, so with [N]
    such entries among [N + M] the output has [N] records. *)
Theorem filesFromZip_one_record_per_txt_or_TXT_entry
    (host : Host) (n : nat) (entries : list App.ZipEntry) :
  length (App.filesFromZip host n entries)
  = length (filter (fun e => App.isTextEntry e = true) entries)
  /\ length (App.filesFromZip host n entries)
     + length (filter (fun e => App.isTextEntry e = false) entries)
     = length entries
  /\ name <$> App.filesFromZip host n entries
     = App.entryName <$> filter (fun e => App.isTextEntry e = true) entries
  /\ id <$> App.filesFromZip host n entries
     = randomUUID host <$> seq n (length (App.filesFromZip host n entries))
  /\ (forall e,
        App.isTextEntry e = true <->
        App.dir e = false
        /\ (JsString.endsWith (App.entryName e) ".txt" = true
            \/ JsString.endsWith (App.entryName e) ".TXT" = true)).
Proof.
  assert (Hlen : length (App.filesFromZip host n entries)
                 = length (filter (fun e => App.isTextEntry e = true) entries)).
  { rewrite <- (length_fmap name), filesFromZip_names. apply length_fmap. }
  split_and!.
  - exact Hlen.
  - rewrite Hlen. apply filter_split_length.
  - apply filesFromZip_names.
  - rewrite Hlen. apply filesFromZip_ids.
  - intros e. unfold App.isTextEntry.
    rewrite andb_true_iff, negb_true_iff, orb_true_iff. tauto.
Qed.

(** C6, as the claim states it, fails: an entry named [notes.Txt] has the
    text suffix up to case and is not a directory, yet extraction yields no
    record for it. *)
Lemma filesFromZip_skips_mixed_case_suffix :
  hasTextSuffixAnyCase (App.entryName mixedCaseEntry) = true
  /\ App.dir mixedCaseEntry = false
  /\ App.filesFromZip silentHost 0 [mixedCaseEntry] = []
  /\ length (App.filesFromZip silentHost 0 [mixedCaseEntry]) <> 1.
Proof. split_and!; [reflexivity..|]. intros H. discriminate H. Qed.

(** ** The settings slice *)

Lemma unique_from_spec (acc l : list string) :
  let r :=
    foldl (fun acc x => if decide (x ∈ acc) then acc else acc ++ [x]) acc l in
  (NoDup acc -> NoDup r) /\ (forall x, x ∈ r <-> x ∈ acc \/ x ∈ l).
Proof.
  revert acc. induction l as [|y l IH]; intros acc; cbn [foldl].
  - split; [done|]. intros x. rewrite elem_of_nil. tauto.
  - destruct (IH (if decide (y ∈ acc) then acc else acc ++ [y])) as [Hnd Hin].
    split.
    + intros Hacc. apply Hnd. case_decide; [done|].
      apply NoDup_app. split_and!; [done| |apply NoDup_singleton].
      intros x Hx ->%list_elem_of_singleton. done.
    + intros x. rewrite Hin, elem_of_cons. case_decide.
      * split; [tauto|]. intros [?|[->|?]]; tauto.
      * rewrite elem_of_app, list_elem_of_singleton. tauto.
Qed.

Lemma unique_NoDup (l : list string) : NoDup (JsString.unique l).
Proof. apply (unique_from_spec [] l), NoDup_nil_2. Qed.

Lemma unique_elem_of (l : list string) (x : string) :
  x ∈ JsString.unique l <-> x ∈ l.
Proof.
  unfold JsString.unique.
  rewrite (proj2 (unique_from_spec [] l) x), elem_of_nil. tauto.
Qed.








(** ** The files slice: how actions change the records *)

Example addProcessedFiles_sorts_by_name :
  FilesSlice.ids
    (FilesSlice.files
       (FilesSlice.reducer silentHost FilesSlice.initialState
          (FilesSlice.addProcessedFiles [docB; docA])))
  = ["a"; "b"].
Proof. vm_compute. reflexivity. Qed.

Example addProcessedFiles_skips_known_ids :
  recordAt "a"
    (FilesSlice.reducer silentHost
       (FilesSlice.state (storeWith silentHost [docA]))
       (FilesSlice.addProcessedFiles [App.errorFile "a" "a.txt" "late"]))
  = Some docA.
Proof. vm_compute. reflexivity. Qed.

Example updateFileStatus_clears_error_outside_error :
  statusChanges_example = (None, Some "kept", Some "new").
Proof. reflexivity. Qed.


Lemma updateOne_lookup (host : Host) (st : FilesSlice.EntityState)
    (k k' : string) (changes : ProcessedFile -> ProcessedFile) :
  FilesSlice.entities (FilesSlice.updateOne host st k changes) !! k'
  = if decide (k = k') then changes <$> FilesSlice.entities st !! k'
    else FilesSlice.entities st !! k'.
Proof.
  unfold FilesSlice.updateOne.
  destruct (FilesSlice.entities st !! k) as [e|] eqn:E;
    cbn [FilesSlice.entities]; case_decide; subst; try done.
  - by rewrite lookup_insert_eq, E.
  - by rewrite lookup_insert_ne.
  - by rewrite E.
Qed.

Lemma merged_lookup (models : list ProcessedFile)
    (e : gmap string ProcessedFile) (k : string) (f : ProcessedFile) :
  foldl (fun e m => <[id m := m]> e) e models !! k = Some f ->
  e !! k = Some f \/ f ∈ models.
Proof.
  revert e. induction models as [|m models IH]; intros e; cbn [foldl];
    [by left|].
  intros [H|H]%IH; [|right; by right].
  destruct (decide (id m = k)) as [<-|Hne].
  - rewrite lookup_insert_eq in H. injection H as <-. right. left.
  - rewrite lookup_insert_ne in H by done. by left.
Qed.

Lemma addMany_lookup (host : Host) (st : FilesSlice.EntityState)
    (l : list ProcessedFile) (k : string) (f : ProcessedFile) :
  FilesSlice.entities (FilesSlice.addMany host st l) !! k = Some f ->
  FilesSlice.entities st !! k = Some f \/ f ∈ l.
Proof.
  unfold FilesSlice.addMany.
  destruct (filter _ l) as [|m models] eqn:E; [by left|].
  unfold FilesSlice.merge. cbn [FilesSlice.entities].
  intros [H|H]%merged_lookup; [by left|right].
  rewrite <- E in H. by apply list_elem_of_filter in H as [_ H].
Qed.

Lemma settle_files (s : FilesSlice.FilesState) :
  FilesSlice.files (FilesSlice.settle s) = FilesSlice.files s.
Proof. unfold FilesSlice.settle. by destruct (negb _). Qed.

Lemma settle_progress (s : FilesSlice.FilesState) :
  FilesSlice.transcriptionProgress (FilesSlice.settle s)
  = FilesSlice.transcriptionProgress s.
Proof. unfold FilesSlice.settle. by destruct (negb _). Qed.

Lemma reducer_files (host : Host) (s : FilesSlice.FilesState)
    (a : FilesSlice.Action) :
  FilesSlice.files (FilesSlice.reducer host s a)
  = match a with
    | FilesSlice.addProcessedFiles payload =>
        FilesSlice.addMany host (FilesSlice.files s) payload
    | FilesSlice.clearAllFiles => FilesSlice.getInitialState
    | _ =>
        match update a with
        | Some (k, changes) =>
            FilesSlice.updateOne host (FilesSlice.files s) k changes
        | None => FilesSlice.files s
        end
    end.
Proof.
  destruct a; cbn [FilesSlice.reducer update]; rewrite ?settle_files;
    try reflexivity.
  - by destruct (negb payload).
  - by destruct (0 <? errorCount).
Qed.

Lemma recordAt_reducer (host : Host) (s : FilesSlice.FilesState)
    (a : FilesSlice.Action) (k : string) :
  (forall payload, a <> FilesSlice.addProcessedFiles payload) ->
  a <> FilesSlice.clearAllFiles ->
  recordAt k (FilesSlice.reducer host s a)
  = match update a with
    | Some (k', changes) =>
        if decide (k' = k) then changes <$> recordAt k s else recordAt k s
    | None => recordAt k s
    end.
Proof.
  intros Hadd Hclear. unfold recordAt. rewrite reducer_files.
  destruct a; try done; cbn [update]; try apply updateOne_lookup.
  by destruct (Hadd payload).
Qed.

(** ** The files slice: the invariant of the records *)

Lemma changes_establish_ErrorImpliesStatus (a : FilesSlice.Action)
    (k : string) (changes : ProcessedFile -> ProcessedFile)
    (f : ProcessedFile) :
  update a = Some (k, changes) ->
  ErrorImpliesStatus (changes f).
Proof.
  unfold ErrorImpliesStatus, hasError.
  destruct a; cbn [update]; intros [= <- <-]; cbn; try done;
    try (by intros []).
  case_decide; [done|by intros []].
Qed.

Lemma reducer_preserves_ErrorImpliesStatus (host : Host)
    (s : FilesSlice.FilesState) (a : FilesSlice.Action) :
  Everywhere ErrorImpliesStatus s ->
  Admissible ErrorImpliesStatus a ->
  Everywhere ErrorImpliesStatus (FilesSlice.reducer host s a).
Proof.
  intros Hs Ha k f. rewrite reducer_files.
  assert (Hupd : match update a with
                 | Some (k', changes) =>
                     FilesSlice.entities
                       (FilesSlice.updateOne host (FilesSlice.files s) k'
                          changes) !! k = Some f
                 | None => FilesSlice.entities (FilesSlice.files s) !! k
                           = Some f
                 end -> ErrorImpliesStatus f).
  { destruct (update a) as [[k' changes]|] eqn:E; [|apply Hs].
    rewrite updateOne_lookup. case_decide; [|apply Hs].
    destruct (FilesSlice.entities (FilesSlice.files s) !! k); [|done].
    intros [= <-]. by eapply changes_establish_ErrorImpliesStatus. }
  destruct a; try exact Hupd.
  - intros [H|H]%addMany_lookup; [by eapply Hs|].
    cbn [Admissible] in Ha. rewrite Forall_forall in Ha. by apply Ha.
  - cbn [FilesSlice.getInitialState FilesSlice.entities].
    by rewrite lookup_empty.
Qed.

Lemma readyFile_Exclusive (uuid fileName content : string) :
  Exclusive (App.readyFile uuid fileName content).
Proof. split; [by intros (src & [=] & _)|by intros []]. Qed.

Lemma errorFile_Exclusive (uuid fileName message : string) :
  Exclusive (App.errorFile uuid fileName message).
Proof. split; [by intros (src & [=] & _)|done]. Qed.

Lemma filesFromZip_Exclusive (host : Host) (n : nat)
    (entries : list App.ZipEntry) :
  Forall Exclusive (App.filesFromZip host n entries).
Proof.
  revert n. induction entries as [|e entries IH]; intros n;
    cbn [App.filesFromZip]; [constructor|].
  destruct (App.isTextEntry e); [|apply IH].
  constructor; [|apply IH]. unfold App.fromEntry.
  destruct (App.text e);
    [apply errorFile_Exclusive|apply readyFile_Exclusive].
Qed.

Lemma process_Exclusive (host : Host) (n : nat) (f : App.File) :
  Forall Exclusive (App.process host n f).
Proof.
  unfold App.process.
  repeat (first [ apply filesFromZip_Exclusive
                | apply Forall_singleton, errorFile_Exclusive
                | apply Forall_singleton, readyFile_Exclusive
                | match goal with
                  | |- context [if ?b then _ else _] => destruct b
                  | |- context [match ?x with inl _ => _ | inr _ => _ end] =>
                      destruct x
                  end ]).
Qed.

Lemma processAll_Exclusive (host : Host) (n : nat) (selected : list App.File) :
  Forall Exclusive (App.processAll host n selected).
Proof.
  revert n. induction selected as [|f selected IH]; intros n;
    cbn [App.processAll]; [constructor|].
  apply Forall_app. split; [apply process_Exclusive|apply IH].
Qed.

Lemma Exclusive_ErrorImpliesStatus (f : ProcessedFile) :
  Exclusive f -> ErrorImpliesStatus f.
Proof. by intros [_ H]. Qed.

(** C1, as the code has it.  In every state reached from the initial one,
    a record with a defined [error] has the status [error], so a
    transcribed record has none; every action of the slice preserves this
    (the records added by [addProcessedFiles] are asked to satisfy it, as
    those of the ingestion handler do). *)
Theorem error_field_implies_error_status (host : Host) :
  (forall s a,
     Everywhere ErrorImpliesStatus s ->
     Admissible ErrorImpliesStatus a ->
     Everywhere ErrorImpliesStatus (FilesSlice.reducer host s a))
  /\ (forall actions,
        Forall (Admissible ErrorImpliesStatus) actions ->
        Everywhere ErrorImpliesStatus
          (foldl (FilesSlice.reducer host) FilesSlice.initialState actions))
  /\ (forall n selected,
        Forall (Admissible ErrorImpliesStatus)
          (App.handleFilesSelected host n selected))
  /\ (forall s k f,
        Everywhere ErrorImpliesStatus s ->
        recordAt k s = Some f ->
        status f = Transcribed -> error f = None).
Proof.
  split_and!.
  - apply reducer_preserves_ErrorImpliesStatus.
  - intros actions Hactions.
    assert (Hinit : Everywhere ErrorImpliesStatus FilesSlice.initialState).
    { intros k f. cbn. by rewrite lookup_empty. }
    revert Hinit. generalize FilesSlice.initialState.
    induction Hactions as [|a actions Ha _ IH]; intros s Hs; cbn [foldl];
      [done|].
    apply IH. by apply reducer_preserves_ErrorImpliesStatus.
  - intros n selected. unfold App.handleFilesSelected.
    destruct selected as [|f selected]; [constructor|].
    repeat constructor. cbn [Admissible].
    eapply Forall_impl; [apply processAll_Exclusive|].
    apply Exclusive_ErrorImpliesStatus.
  - intros s k f Hs Hk Hst. specialize (Hs k f Hk).
    destruct (error f) as [e|] eqn:E; [|done].
    unfold ErrorImpliesStatus, hasError in Hs. rewrite E in Hs.
    specialize (Hs (ex_intro _ e eq_refl)). congruence.
Qed.

Lemma error_field_implies_error_status_witness :
  Everywhere ErrorImpliesStatus
    (FilesSlice.state
       (FilesSlice.refetchAudioForFile flakyHost (attempt docA)
          (FilesSlice.transcribeFile flakyHost (attempt docA)
             (storeWith flakyHost [docA])).2).2).
Proof.
  apply (proj1 (proj2 (error_field_implies_error_status flakyHost))
           [FilesSlice.addProcessedFiles [docA];
            FilesSlice.transcribeFile_pending (attempt docA);
            FilesSlice.transcribeFile_fulfilled "a"
              {| Service.audioSrc := "http://localhost:8880/download/a.mp3" |};
            FilesSlice.refetchAudioForFile_pending (attempt docA);
            FilesSlice.refetchAudioForFile_rejected (attempt docA)
              (Some "Transcription failed for a.txt: Failed to fetch")]).
  repeat constructor.
  apply Exclusive_ErrorImpliesStatus, readyFile_Exclusive.
Defined.

(** C1, as the claim states it, fails: a record is transcribed (the service
    returns a download path), then a re-synthesis of it is rejected (the
    service is unreachable); the record then has the status [error], a
    defined [error], and still its [audioSrc]. *)
Lemma rejected_resynthesis_keeps_audioSrc :
  Exclusive docA
  /\ recordAt "a"
       (FilesSlice.state
          (FilesSlice.refetchAudioForFile flakyHost (attempt docA)
             (FilesSlice.transcribeFile flakyHost (attempt docA)
                (storeWith flakyHost [docA])).2).2)
     = Some {| id := "a"; name := "a.txt"; content := "hello";
               status := Error;
               audioSrc := Some "http://localhost:8880/download/a.mp3";
               error := Some "Transcription failed for a.txt: Failed to fetch" |}
  /\ (Everywhere Exclusive
        (FilesSlice.state
           (FilesSlice.refetchAudioForFile flakyHost (attempt docA)
              (FilesSlice.transcribeFile flakyHost (attempt docA)
                 (storeWith flakyHost [docA])).2).2) -> False).
Proof.
  assert (Hrec :
    recordAt "a"
      (FilesSlice.state
         (FilesSlice.refetchAudioForFile flakyHost (attempt docA)
            (FilesSlice.transcribeFile flakyHost (attempt docA)
               (storeWith flakyHost [docA])).2).2)
    = Some {| id := "a"; name := "a.txt"; content := "hello";
              status := Error;
              audioSrc := Some "http://localhost:8880/download/a.mp3";
              error := Some "Transcription failed for a.txt: Failed to fetch" |})
    by (vm_compute; reflexivity).
  split_and!; [apply readyFile_Exclusive|exact Hrec|].
  intros H. destruct (H _ _ Hrec) as [Haudio _].
  discriminate Haudio. eexists. split; [reflexivity|discriminate].
Qed.

(** ** The synthesis thunks *)

Lemma transcribeFile_run (host : Host) (arg : FilesSlice.TranscribeArg)
    (st : FilesSlice.FilesState) (n : nat) (evs : list FilesSlice.Event)
    (r : Promise Service.TranscriptionResult) (sent : list Fetch.Request) :
  synthesis host arg n = (r, sent) ->
  FilesSlice.transcribeFile host arg
    {| FilesSlice.state := st; FilesSlice.requests := n;
       FilesSlice.events := evs |}
  = (match r with
     | Fulfilled result => Fulfilled (id (FilesSlice.file arg), result)
     | Rejected message => Rejected message
     end,
     {| FilesSlice.state :=
          FilesSlice.reducer host
            (FilesSlice.reducer host st (FilesSlice.transcribeFile_pending arg))
            (transcribeFile_settled arg r);
        FilesSlice.requests := n + length sent;
        FilesSlice.events :=
          evs ++ FilesSlice.Dispatched (FilesSlice.transcribeFile_pending arg)
              :: (FilesSlice.Sent <$> sent)
              ++ [FilesSlice.Dispatched (transcribeFile_settled arg r)] |}).
Proof.
  unfold synthesis. intros Hsyn.
  unfold FilesSlice.transcribeFile, FilesSlice.createAsyncThunk, mbind, mret,
    FilesSlice.Thunk_bind, FilesSlice.Thunk_ret, FilesSlice.thunkBind,
    FilesSlice.thunkRet, FilesSlice.dispatch, FilesSlice.await.
  cbn [FilesSlice.state FilesSlice.requests FilesSlice.events].
  rewrite Hsyn.
  destruct r; cbn [FilesSlice.state FilesSlice.requests FilesSlice.events
                   transcribeFile_settled fst snd];
    by rewrite <- !app_assoc.
Qed.

Lemma refetchAudioForFile_run (host : Host) (arg : FilesSlice.TranscribeArg)
    (st : FilesSlice.FilesState) (n : nat) (evs : list FilesSlice.Event)
    (r : Promise Service.TranscriptionResult) (sent : list Fetch.Request) :
  synthesis host arg n = (r, sent) ->
  FilesSlice.refetchAudioForFile host arg
    {| FilesSlice.state := st; FilesSlice.requests := n;
       FilesSlice.events := evs |}
  = (match r with
     | Fulfilled result =>
         Fulfilled (id (FilesSlice.file arg), Service.audioSrc result)
     | Rejected message => Rejected message
     end,
     {| FilesSlice.state :=
          FilesSlice.reducer host
            (FilesSlice.reducer host st
               (FilesSlice.refetchAudioForFile_pending arg))
            (refetchAudioForFile_settled arg r);
        FilesSlice.requests := n + length sent;
        FilesSlice.events :=
          evs ++ FilesSlice.Dispatched
                   (FilesSlice.refetchAudioForFile_pending arg)
              :: (FilesSlice.Sent <$> sent)
              ++ [FilesSlice.Dispatched (refetchAudioForFile_settled arg r)] |}).
Proof.
  unfold synthesis. intros Hsyn.
  unfold FilesSlice.refetchAudioForFile, FilesSlice.createAsyncThunk, mbind,
    mret, FilesSlice.Thunk_bind, FilesSlice.Thunk_ret, FilesSlice.thunkBind,
    FilesSlice.thunkRet, FilesSlice.dispatch, FilesSlice.await.
  cbn [FilesSlice.state FilesSlice.requests FilesSlice.events].
  rewrite Hsyn.
  destruct r; cbn [FilesSlice.state FilesSlice.requests FilesSlice.events
                   refetchAudioForFile_settled fst snd];
    by rewrite <- !app_assoc.
Qed.

Lemma replay_sent (host : Host) (s : FilesSlice.FilesState)
    (sent : list Fetch.Request) (rest : list FilesSlice.Event) :
  replay host s ((FilesSlice.Sent <$> sent) ++ rest)
  = replicate (length sent) s ++ replay host s rest.
Proof.
  induction sent as [|r sent IH]; [done|].
  rewrite fmap_cons. cbn [app replay length replicate]. by rewrite IH.
Qed.

Lemma statusAt_pending (host : Host) (s : FilesSlice.FilesState)
    (a : FilesSlice.Action) (k : string) (f : ProcessedFile) :
  update a = Some (k, FilesSlice.processingChanges) ->
  recordAt k s = Some f ->
  statusAt k (FilesSlice.reducer host s a) = Some Processing.
Proof.
  intros Hupd Hk. unfold statusAt.
  rewrite recordAt_reducer, Hupd, decide_True, Hk by (by destruct a). done.
Qed.

Lemma recordAt_settled (host : Host) (s : FilesSlice.FilesState)
    (a : FilesSlice.Action) (k : string)
    (changes : ProcessedFile -> ProcessedFile) :
  update a = Some (k, changes) ->
  recordAt k (FilesSlice.reducer host s a) = changes <$> recordAt k s.
Proof.
  intros Hupd.
  by rewrite recordAt_reducer, Hupd, decide_True by (by destruct a).
Qed.

Lemma recordAt_other (host : Host) (s : FilesSlice.FilesState)
    (a : FilesSlice.Action) (k k' : string)
    (changes : ProcessedFile -> ProcessedFile) :
  update a = Some (k', changes) -> k' <> k ->
  recordAt k (FilesSlice.reducer host s a) = recordAt k s.
Proof.
  intros Hupd Hne.
  by rewrite recordAt_reducer, Hupd, decide_False by (by destruct a).
Qed.

Lemma recordAt_untouched (host : Host) (s : FilesSlice.FilesState)
    (a : FilesSlice.Action) (k : string) :
  update a = None ->
  (forall payload, a <> FilesSlice.addProcessedFiles payload) ->
  a <> FilesSlice.clearAllFiles ->
  recordAt k (FilesSlice.reducer host s a) = recordAt k s.
Proof. intros Hupd Hadd Hclear. by rewrite recordAt_reducer, Hupd. Qed.

Lemma statusAt_settled (host : Host) (s : FilesSlice.FilesState)
    (a : FilesSlice.Action) (k : string) (f : ProcessedFile)
    (changes : ProcessedFile -> ProcessedFile) :
  update a = Some (k, changes) ->
  recordAt k s = Some f ->
  statusAt k (FilesSlice.reducer host s a) = Some (status (changes f)).
Proof.
  intros Hupd Hk. unfold statusAt.
  by rewrite (recordAt_settled _ _ _ _ _ Hupd), Hk.
Qed.

Lemma attempt_statuses (host : Host) (s : FilesSlice.FilesState)
    (pendingA settledA : FilesSlice.Action) (k : string) (f : ProcessedFile)
    (changes : ProcessedFile -> ProcessedFile) (sent : list Fetch.Request) :
  update pendingA = Some (k, FilesSlice.processingChanges) ->
  update settledA = Some (k, changes) ->
  recordAt k s = Some f ->
  statusAt k
    <$> replay host s
          (FilesSlice.Dispatched pendingA
             :: (FilesSlice.Sent <$> sent) ++ [FilesSlice.Dispatched settledA])
  = replicate (S (length sent)) (Some Processing)
    ++ [Some (status (changes (FilesSlice.processingChanges f)))]
  /\ last (replay host s
             (FilesSlice.Dispatched pendingA
                :: (FilesSlice.Sent <$> sent)
                ++ [FilesSlice.Dispatched settledA]))
     = Some (FilesSlice.reducer host (FilesSlice.reducer host s pendingA)
               settledA).
Proof.
  intros Hpending Hsettled Hk.
  cbn [replay]. rewrite replay_sent. cbn [replay]. split.
  - rewrite fmap_cons, fmap_app, fmap_replicate. cbn [fmap list_fmap].
    rewrite (statusAt_pending _ _ _ _ _ Hpending Hk).
    rewrite (statusAt_settled host _ _ k (FilesSlice.processingChanges f)
               changes Hsettled).
    + done.
    + by rewrite (recordAt_settled _ _ _ _ _ Hpending), Hk.
  - by rewrite last_cons, last_snoc.
Qed.

(** C7.  A synthesis attempt on a record of the store ([transcribeFile] or
    [refetchAudioForFile]) dispatches [pending] first, then sends whatever
    the synthesis call sends, then dispatches the settling action.  The
    record is [processing] in the store from the first event on and at
    every request, and [transcribed] or [error] after the last event: it
    is never [ready] once the attempt is dispatched, whatever its status
    was before. *)
Theorem synthesis_attempt_passes_through_processing
    (host : Host) (s : FilesSlice.FilesState) (n : nat)
    (arg : FilesSlice.TranscribeArg) (f : ProcessedFile) :
  recordAt (id (FilesSlice.file arg)) s = Some f ->
  (FilesSlice.events (FilesSlice.transcribeFile host arg (freshWorld s n)).2
   = FilesSlice.Dispatched (FilesSlice.transcribeFile_pending arg)
       :: (FilesSlice.Sent <$> (synthesis host arg n).2)
       ++ [FilesSlice.Dispatched
             (transcribeFile_settled arg (synthesis host arg n).1)]
   /\ statusAt (id (FilesSlice.file arg))
        <$> replay host s
              (FilesSlice.events
                 (FilesSlice.transcribeFile host arg (freshWorld s n)).2)
      = replicate (S (length (synthesis host arg n).2)) (Some Processing)
        ++ [Some (settledStatus (synthesis host arg n).1)]
   /\ last (replay host s
              (FilesSlice.events
                 (FilesSlice.transcribeFile host arg (freshWorld s n)).2))
      = Some (FilesSlice.state
                (FilesSlice.transcribeFile host arg (freshWorld s n)).2))
  /\ (FilesSlice.events
        (FilesSlice.refetchAudioForFile host arg (freshWorld s n)).2
      = FilesSlice.Dispatched (FilesSlice.refetchAudioForFile_pending arg)
          :: (FilesSlice.Sent <$> (synthesis host arg n).2)
          ++ [FilesSlice.Dispatched
                (refetchAudioForFile_settled arg (synthesis host arg n).1)]
      /\ statusAt (id (FilesSlice.file arg))
           <$> replay host s
                 (FilesSlice.events
                    (FilesSlice.refetchAudioForFile host arg
                       (freshWorld s n)).2)
         = replicate (S (length (synthesis host arg n).2)) (Some Processing)
           ++ [Some (settledStatus (synthesis host arg n).1)]
      /\ last (replay host s
                 (FilesSlice.events
                    (FilesSlice.refetchAudioForFile host arg
                       (freshWorld s n)).2))
         = Some (FilesSlice.state
                   (FilesSlice.refetchAudioForFile host arg
                      (freshWorld s n)).2)).
Proof.
  intros Hk. destruct (synthesis host arg n) as [r sent] eqn:Hsyn.
  unfold freshWorld.
  rewrite (transcribeFile_run _ _ _ _ _ _ _ Hsyn),
    (refetchAudioForFile_run _ _ _ _ _ _ _ Hsyn).
  cbn [snd fst FilesSlice.events FilesSlice.state app].
  split.
  - destruct r as [result|message].
    + destruct (attempt_statuses host s
                  (FilesSlice.transcribeFile_pending arg)
                  (transcribeFile_settled arg (Fulfilled result))
                  _ f _ sent eq_refl eq_refl Hk) as [H1 H2].
      by rewrite H1, H2.
    + destruct (attempt_statuses host s
                  (FilesSlice.transcribeFile_pending arg)
                  (transcribeFile_settled arg (Rejected message))
                  _ f _ sent eq_refl eq_refl Hk) as [H1 H2].
      by rewrite H1, H2.
  - destruct r as [result|message].
    + destruct (attempt_statuses host s
                  (FilesSlice.refetchAudioForFile_pending arg)
                  (refetchAudioForFile_settled arg (Fulfilled result))
                  _ f _ sent eq_refl eq_refl Hk) as [H1 H2].
      by rewrite H1, H2.
    + destruct (attempt_statuses host s
                  (FilesSlice.refetchAudioForFile_pending arg)
                  (refetchAudioForFile_settled arg (Rejected message))
                  _ f _ sent eq_refl eq_refl Hk) as [H1 H2].
      by rewrite H1, H2.
Qed.

Lemma synthesis_attempt_passes_through_processing_witness :
  recordAt "a" (FilesSlice.state (storeWith flakyHost [docA])) = Some docA
  /\ statusAt "a"
       <$> replay flakyHost (FilesSlice.state (storeWith flakyHost [docA]))
             (FilesSlice.events
                (FilesSlice.transcribeFile flakyHost (attempt docA)
                   (freshWorld
                      (FilesSlice.state (storeWith flakyHost [docA])) 0)).2)
     = [Some Processing; Some Processing; Some Transcribed]
  /\ statusAt "a"
       <$> replay flakyHost (FilesSlice.state (storeWith flakyHost [docA]))
             (FilesSlice.events
                (FilesSlice.refetchAudioForFile flakyHost (attempt docA)
                   (freshWorld
                      (FilesSlice.state (storeWith flakyHost [docA])) 1)).2)
     = [Some Processing; Some Processing; Some Error].
Proof.
  assert (H : recordAt "a" (FilesSlice.state (storeWith flakyHost [docA]))
              = Some docA) by (vm_compute; reflexivity).
  split_and!; [exact H|..].
  - exact (proj1 (proj2 (proj1
             (synthesis_attempt_passes_through_processing flakyHost
                (FilesSlice.state (storeWith flakyHost [docA])) 0
                (attempt docA) docA H)))).
  - exact (proj1 (proj2 (proj2
             (synthesis_attempt_passes_through_processing flakyHost
                (FilesSlice.state (storeWith flakyHost [docA])) 1
                (attempt docA) docA H)))).
Defined.

(** ** The batch thunk *)

Lemma transcribeLoop_cons (host : Host) (len : nat) (v : string) (sp : Q)
    (f : ProcessedFile) (rest : list ProcessedFile) (i sc ec : nat)
    (st : FilesSlice.FilesState) (n : nat) (evs : list FilesSlice.Event)
    (r : Promise Service.TranscriptionResult) (sent : list Fetch.Request) :
  let arg := {| FilesSlice.file := f; FilesSlice.voice := v;
                FilesSlice.speed := sp |} in
  let announced :=
    FilesSlice.setTranscriptionProgress (progress (i + 1) len (Some (name f))) in
  synthesis host arg n = (r, sent) ->
  FilesSlice.transcribeLoop host len v sp (f :: rest) i sc ec
    {| FilesSlice.state := st; FilesSlice.requests := n;
       FilesSlice.events := evs |}
  = FilesSlice.transcribeLoop host len v sp rest (i + 1)
      (match r with Fulfilled _ => sc + 1 | Rejected _ => sc end)
      (match r with Fulfilled _ => ec | Rejected _ => ec + 1 end)
      {| FilesSlice.state :=
           FilesSlice.reducer host
             (FilesSlice.reducer host
                (FilesSlice.reducer host st announced)
                (FilesSlice.transcribeFile_pending arg))
             (transcribeFile_settled arg r);
         FilesSlice.requests := n + length sent;
         FilesSlice.events :=
           evs ++ FilesSlice.Dispatched announced
               :: FilesSlice.Dispatched (FilesSlice.transcribeFile_pending arg)
               :: (FilesSlice.Sent <$> sent)
               ++ [FilesSlice.Dispatched (transcribeFile_settled arg r)] |}.
Proof.
  intros arg announced Hsyn.
  cbn [FilesSlice.transcribeLoop].
  unfold mbind, FilesSlice.Thunk_bind, FilesSlice.thunkBind at 1.
  unfold FilesSlice.dispatch at 1.
  cbn [FilesSlice.state FilesSlice.requests FilesSlice.events].
  unfold FilesSlice.thunkBind.
  rewrite (transcribeFile_run host arg _ _ _ _ _ Hsyn).
  rewrite <- app_assoc. cbn [app].
  by destruct r.
Qed.

Lemma transcribeMultipleFiles_run (host : Host) (l : list ProcessedFile)
    (v : string) (sp : Q) (st : FilesSlice.FilesState) (n : nat)
    (evs : list FilesSlice.Event) :
  FilesSlice.transcribeMultipleFiles host (batch l v sp)
    {| FilesSlice.state := st; FilesSlice.requests := n;
       FilesSlice.events := evs |}
  = let '(counts, w) :=
      FilesSlice.transcribeLoop host (length l) v sp l 0 0 0
        {| FilesSlice.state :=
             FilesSlice.reducer host
               (FilesSlice.reducer host st
                  FilesSlice.transcribeMultipleFiles_pending)
               (FilesSlice.setTranscriptionProgress
                  (progress 0 (length l) None));
           FilesSlice.requests := n;
           FilesSlice.events :=
             evs ++ [FilesSlice.Dispatched
                       FilesSlice.transcribeMultipleFiles_pending;
                     FilesSlice.Dispatched
                       (FilesSlice.setTranscriptionProgress
                          (progress 0 (length l) None))] |} in
    (Fulfilled counts,
     {| FilesSlice.state :=
          FilesSlice.reducer host
            (FilesSlice.reducer host (FilesSlice.state w)
               (FilesSlice.setTranscriptionProgress FilesSlice.noProgress))
            (FilesSlice.transcribeMultipleFiles_fulfilled counts.1 counts.2);
        FilesSlice.requests := FilesSlice.requests w;
        FilesSlice.events :=
          FilesSlice.events w
          ++ [FilesSlice.Dispatched
                (FilesSlice.setTranscriptionProgress FilesSlice.noProgress);
              FilesSlice.Dispatched
                (FilesSlice.transcribeMultipleFiles_fulfilled
                   counts.1 counts.2)] |}).
Proof.
  unfold FilesSlice.transcribeMultipleFiles, FilesSlice.createAsyncThunk,
    mbind, mret, FilesSlice.Thunk_bind, FilesSlice.Thunk_ret,
    FilesSlice.thunkBind, FilesSlice.thunkRet, FilesSlice.dispatch, batch.
  cbn [FilesSlice.state FilesSlice.requests FilesSlice.events
       FilesSlice.batchFiles FilesSlice.batchVoice FilesSlice.batchSpeed].
  rewrite <- app_assoc. cbn [app].
  destruct (FilesSlice.transcribeLoop _ _ _ _ _ _ _ _ _) as [counts w].
  cbn [FilesSlice.state FilesSlice.requests FilesSlice.events].
  by rewrite <- app_assoc.
Qed.

(** The loop visits every record, whatever the outcomes. *)
Lemma transcribeLoop_visits_all (host : Host) (len : nat) (v : string)
    (sp : Q) (l : list ProcessedFile) (i sc ec : nat)
    (st : FilesSlice.FilesState) (n : nat) (evs : list FilesSlice.Event) :
  exists sc' ec' st' n' evs',
    FilesSlice.transcribeLoop host len v sp l i sc ec
      {| FilesSlice.state := st; FilesSlice.requests := n;
         FilesSlice.events := evs |}
    = ((sc', ec'),
       {| FilesSlice.state := st'; FilesSlice.requests := n';
          FilesSlice.events := evs ++ evs' |})
    /\ sc' + ec' = sc + ec + length l
    /\ forall f, f ∈ l ->
         FilesSlice.Dispatched
           (FilesSlice.transcribeFile_pending (attemptWith v sp f)) ∈ evs'.
Proof.
  revert i sc ec st n evs.
  induction l as [|f l IH]; intros i sc ec st n evs.
  - exists sc, ec, st, n, []. rewrite app_nil_r.
    split_and!; [done|simpl; lia|]. by intros f Hf%elem_of_nil.
  - destruct (synthesis host (attemptWith v sp f) n) as [r sent] eqn:Hsyn.
    rewrite (transcribeLoop_cons host len v sp f l i sc ec st n evs r sent Hsyn).
    edestruct IH as (sc' & ec' & st' & n' & evs' & -> & Hsum & Hall).
    eexists _, _, _, _, _. rewrite <- app_assoc.
    split_and!; [reflexivity|destruct r; simpl; lia|].
    intros g [->|Hg]%elem_of_cons.
    + apply elem_of_app. left. right. left.
    + apply elem_of_app. right. by apply Hall.
Qed.

Lemma dispatched_sent (sent : list Fetch.Request) :
  dispatched (FilesSlice.Sent <$> sent) = [].
Proof. unfold dispatched. by induction sent. Qed.

Lemma reducer_progress (host : Host) (s : FilesSlice.FilesState)
    (a : FilesSlice.Action) :
  FilesSlice.transcriptionProgress (FilesSlice.reducer host s a)
  = match a with
    | FilesSlice.setTranscriptionProgress payload => payload
    | FilesSlice.setIsTranscribing false | FilesSlice.clearAllFiles =>
        FilesSlice.noProgress
    | _ => FilesSlice.transcriptionProgress s
    end.
Proof.
  destruct a; cbn [FilesSlice.reducer]; rewrite ?settle_progress;
    try reflexivity.
  - by destruct payload.
  - by destruct (0 <? errorCount).
Qed.

(** C2.  A batch over the records [A] and [B] of the store, where the
    synthesis of [A] fulfils and that of [B] rejects, dispatches in this
    order: [pending], progress 0 of 2, progress 1 of 2, the attempt on [A]
    settled by [fulfilled], progress 2 of 2, the attempt on [B] settled by
    [rejected], progress 0 of 0, [fulfilled] with the counts 1 and 1.  It
    resolves to those counts; in the final store [A] is transcribed, [B]
    is in error and the progress is 0 of 0, after having been 2 of 2.  For
    any list of records, whatever fails, every record is attempted and the
    two counts add up to the length of the list. *)
Theorem batch_of_a_success_and_a_failure
    (host : Host) (s : FilesSlice.FilesState) (n : nat)
    (A B fa fb : ProcessedFile) (v : string) (sp : Q)
    (result : Service.TranscriptionResult) (message : string)
    (sentA sentB : list Fetch.Request) :
  id A <> id B ->
  recordAt (id A) s = Some fa ->
  recordAt (id B) s = Some fb ->
  synthesis host (attemptWith v sp A) n = (Fulfilled result, sentA) ->
  synthesis host (attemptWith v sp B) (n + length sentA)
  = (Rejected message, sentB) ->
  let run :=
    FilesSlice.transcribeMultipleFiles host (batch [A; B] v sp)
      (freshWorld s n) in
  let actions :=
    [FilesSlice.transcribeMultipleFiles_pending;
     FilesSlice.setTranscriptionProgress (progress 0 2 None);
     FilesSlice.setTranscriptionProgress (progress 1 2 (Some (name A)));
     FilesSlice.transcribeFile_pending (attemptWith v sp A);
     FilesSlice.transcribeFile_fulfilled (id A) result;
     FilesSlice.setTranscriptionProgress (progress 2 2 (Some (name B)));
     FilesSlice.transcribeFile_pending (attemptWith v sp B);
     FilesSlice.transcribeFile_rejected (attemptWith v sp B) (Some message)
       (Some "Rejected");
     FilesSlice.setTranscriptionProgress (progress 0 0 None);
     FilesSlice.transcribeMultipleFiles_fulfilled 1 1] in
  run.1 = Fulfilled (1, 1)
  /\ dispatched (FilesSlice.events run.2) = actions
  /\ FilesSlice.state run.2 = foldl (FilesSlice.reducer host) s actions
  /\ statusAt (id A) (FilesSlice.state run.2) = Some Transcribed
  /\ statusAt (id B) (FilesSlice.state run.2) = Some Error
  /\ FilesSlice.transcriptionProgress
       (foldl (FilesSlice.reducer host) s (take 8 actions))
     = progress 2 2 (Some (name B))
  /\ FilesSlice.transcriptionProgress (FilesSlice.state run.2)
     = progress 0 0 None
  /\ (forall l s' n',
        exists successCount errorCount,
          (FilesSlice.transcribeMultipleFiles host (batch l v sp)
             (freshWorld s' n')).1
          = Fulfilled (successCount, errorCount)
          /\ successCount + errorCount = length l
          /\ forall f, f ∈ l ->
               FilesSlice.Dispatched
                 (FilesSlice.transcribeFile_pending (attemptWith v sp f))
               ∈ FilesSlice.events
                   (FilesSlice.transcribeMultipleFiles host (batch l v sp)
                      (freshWorld s' n')).2).
Proof.
  intros Hne HA HB HsynA HsynB run actions.
  assert (Hrun :
    run = (Fulfilled (1, 1),
           {| FilesSlice.state := foldl (FilesSlice.reducer host) s actions;
              FilesSlice.requests := n + length sentA + length sentB;
              FilesSlice.events :=
                [FilesSlice.Dispatched
                   FilesSlice.transcribeMultipleFiles_pending;
                 FilesSlice.Dispatched
                   (FilesSlice.setTranscriptionProgress (progress 0 2 None));
                 FilesSlice.Dispatched
                   (FilesSlice.setTranscriptionProgress
                      (progress 1 2 (Some (name A))));
                 FilesSlice.Dispatched
                   (FilesSlice.transcribeFile_pending (attemptWith v sp A))]
                ++ (FilesSlice.Sent <$> sentA)
                ++ [FilesSlice.Dispatched
                      (FilesSlice.transcribeFile_fulfilled (id A) result);
                    FilesSlice.Dispatched
                      (FilesSlice.setTranscriptionProgress
                         (progress 2 2 (Some (name B))));
                    FilesSlice.Dispatched
                      (FilesSlice.transcribeFile_pending (attemptWith v sp B))]
                ++ (FilesSlice.Sent <$> sentB)
                ++ [FilesSlice.Dispatched
                      (FilesSlice.transcribeFile_rejected (attemptWith v sp B)
                         (Some message) (Some "Rejected"));
                    FilesSlice.Dispatched
                      (FilesSlice.setTranscriptionProgress (progress 0 0 None));
                    FilesSlice.Dispatched
                      (FilesSlice.transcribeMultipleFiles_fulfilled 1 1)] |})).
  { subst run. unfold freshWorld. rewrite transcribeMultipleFiles_run.
    cbn [length]. 
    rewrite (transcribeLoop_cons host 2 v sp A [B] 0 0 0 _ _ _ _ _ HsynA).
    rewrite (transcribeLoop_cons host 2 v sp B [] _ _ _ _ _ _ _ _ HsynB).
    cbn [FilesSlice.transcribeLoop mret FilesSlice.Thunk_ret
         FilesSlice.thunkRet FilesSlice.state FilesSlice.requests
         FilesSlice.events fst snd Nat.add].
    f_equal. f_equal.
    repeat first [rewrite <- app_assoc | progress cbn [app]].
    reflexivity. }
  rewrite Hrun. cbn [fst snd FilesSlice.state FilesSlice.events].
  split_and!.
  - reflexivity.
  - unfold dispatched. rewrite !omap_app, !dispatched_sent. reflexivity.
  - reflexivity.
  - unfold statusAt. subst actions. cbn [foldl].
    rewrite 2!recordAt_untouched by done.
    erewrite (recordAt_other _ _ _ (id A) (id B)); [|reflexivity|congruence].
    erewrite (recordAt_other _ _ _ (id A) (id B)); [|reflexivity|congruence].
    rewrite recordAt_untouched by done.
    erewrite (recordAt_settled _ _ _ (id A)); [|reflexivity].
    erewrite (recordAt_settled _ _ _ (id A)); [|reflexivity].
    rewrite 3!recordAt_untouched by done.
    by rewrite HA.
  - unfold statusAt. subst actions. cbn [foldl].
    rewrite 2!recordAt_untouched by done.
    erewrite (recordAt_settled _ _ _ (id B)); [|reflexivity].
    erewrite (recordAt_settled _ _ _ (id B)); [|reflexivity].
    rewrite recordAt_untouched by done.
    erewrite (recordAt_other _ _ _ (id B) (id A)); [|reflexivity|congruence].
    erewrite (recordAt_other _ _ _ (id B) (id A)); [|reflexivity|congruence].
    rewrite 3!recordAt_untouched by done.
    by rewrite HB.
  - subst actions. cbn [take foldl]. by rewrite !reducer_progress.
  - subst actions. cbn [foldl]. by rewrite !reducer_progress.
  - intros l s' n'. unfold freshWorld. rewrite transcribeMultipleFiles_run.
    destruct (transcribeLoop_visits_all host (length l) v sp l 0 0 0
                (FilesSlice.reducer host
                   (FilesSlice.reducer host s'
                      FilesSlice.transcribeMultipleFiles_pending)
                   (FilesSlice.setTranscriptionProgress
                      (progress 0 (length l) None)))
                n'
                ([] ++ [FilesSlice.Dispatched
                          FilesSlice.transcribeMultipleFiles_pending;
                        FilesSlice.Dispatched
                          (FilesSlice.setTranscriptionProgress
                             (progress 0 (length l) None))]))
      as (sc & ec & st' & n'' & evs' & -> & Hsum & Hall).
    exists sc, ec. cbn [fst snd FilesSlice.events].
    split_and!; [done|lia|].
    intros f Hf. rewrite !elem_of_app. left. right. by apply Hall.
Qed.

Lemma batch_of_a_success_and_a_failure_witness :
  sampleBatch.1 = Fulfilled (1, 1)
  /\ statusAt "a" (FilesSlice.state sampleBatch.2) = Some Transcribed
  /\ statusAt "b" (FilesSlice.state sampleBatch.2) = Some Error
  /\ FilesSlice.transcriptionProgress (FilesSlice.state sampleBatch.2)
     = progress 0 0 None.
Proof.
  pose proof
    (batch_of_a_success_and_a_failure flakyHost
       (FilesSlice.state (storeWith flakyHost [docA; docB])) 0
       docA docB docA docB "am_michael" 1%Q
       {| Service.audioSrc := "http://localhost:8880/download/a.mp3" |}
       "Transcription failed for b.txt: Failed to fetch"
       [Service.speechRequest "hello" "am_michael" 1%Q]
       [Service.speechRequest "world" "am_michael" 1%Q]
       ltac:(discriminate)
       ltac:(vm_compute; reflexivity)
       ltac:(vm_compute; reflexivity)
       ltac:(vm_compute; reflexivity)
       ltac:(vm_compute; reflexivity))
    as (H1 & _ & _ & H4 & H5 & _ & H7 & _).
  split_and!; [exact H1|exact H4|exact H5|exact H7].
Defined.

(** ** The persistence transform *)

Lemma lookupProp_absent k props :
  k ∉ props.*1 -> JS.lookupProp k props = JS.VUndefined.
Proof.
  induction props as [|[k' v] props IH]; cbn [JS.lookupProp]; [done|].
  rewrite fmap_cons, not_elem_of_cons. intros [Hne Hnin].
  destruct (String.eqb k k') eqn:E; [|by apply IH].
  by apply String.eqb_eq in E.
Qed.

Lemma hasBlobUrl_blanked (file : JS.value) :
  Persist.hasBlobUrl (blanked file) = Some false.
Proof.
  unfold Persist.hasBlobUrl, blanked, JS.getOpt, JS.get.
  cbn [JS.spread]. by rewrite lookupProp_setProp_eq.
Qed.

Lemma cleanedFile_idem (file : JS.value) :
  cleanedFile (cleanedFile file) = cleanedFile file.
Proof.
  unfold cleanedFile.
  destruct (Persist.hasBlobUrl file) as [[]|] eqn:E;
    by rewrite ?hasBlobUrl_blanked, ?E.
Qed.

Lemma hasBlobUrl_cleanedFile (file : JS.value) :
  is_Some (Persist.hasBlobUrl file) ->
  is_Some (Persist.hasBlobUrl (cleanedFile file)).
Proof.
  intros H. unfold cleanedFile.
  destruct (Persist.hasBlobUrl file) as [[]|] eqn:E; rewrite ?E; [|done..].
  rewrite hasBlobUrl_blanked. eauto.
Qed.

Lemma clean_spec (ks : list string) (props : list (string * JS.value)) :
  (forall key, is_Some (Persist.hasBlobUrl (JS.lookupProp key props))) ->
  exists cleaned,
    Persist.clean ks props = Some cleaned
    /\ cleaned.*1 = props.*1
    /\ forall key,
         JS.lookupProp key cleaned
         = if decide (key ∈ ks) then cleanedFile (JS.lookupProp key props)
           else JS.lookupProp key props.
Proof.
  revert props. induction ks as [|key0 ks IH]; intros props Hok.
  - exists props. split_and!; [done..|]. intros key.
    by rewrite decide_False by apply not_elem_of_nil.
  - cbn [Persist.clean].
    destruct (Hok key0) as [b Hb]. rewrite Hb. cbn [mbind option_bind].
    set (props1 :=
           if b then JS.setProp key0 (blanked (JS.lookupProp key0 props)) props
           else props).
    assert (Hlookup1 : forall key,
              JS.lookupProp key props1
              = if decide (key = key0)
                then cleanedFile (JS.lookupProp key props)
                else JS.lookupProp key props).
    { intros key. subst props1. case_decide as Hkey.
      - subst key. unfold cleanedFile. rewrite Hb. destruct b; [|done].
        apply lookupProp_setProp_eq.
      - destruct b; [|done]. by apply lookupProp_setProp_ne. }
    assert (Hkeys1 : props1.*1 = props.*1).
    { subst props1. destruct b; [|done]. apply setProp_keys.
      intros Hundef. by rewrite Hundef in Hb. }
    destruct (IH props1) as (cleaned & Hclean & Hkeys & Hlookup).
    { intros key. rewrite Hlookup1. case_decide; [|done].
      by apply hasBlobUrl_cleanedFile. }
    exists cleaned. split_and!; [done|congruence|].
    intros key. rewrite Hlookup, Hlookup1.
    destruct (decide (key = key0)) as [->|Hne].
    + rewrite (decide_True (P := key0 ∈ key0 :: ks)) by left.
      case_decide; [apply cleanedFile_idem|done].
    + destruct (decide (key ∈ ks)) as [Hin|Hnin].
      * by rewrite decide_True by (by right).
      * rewrite decide_False; [done|].
        by intros [?|?]%elem_of_cons.
Qed.

Lemma clean_own_keys (props : list (string * JS.value)) :
  (forall key, is_Some (Persist.hasBlobUrl (JS.lookupProp key props))) ->
  exists cleaned,
    Persist.clean props.*1 props = Some cleaned
    /\ cleaned.*1 = props.*1
    /\ forall key,
         JS.lookupProp key cleaned = cleanedFile (JS.lookupProp key props).
Proof.
  intros Hok. destruct (clean_spec props.*1 props Hok)
    as (cleaned & Hclean & Hkeys & Hlookup).
  exists cleaned. split_and!; [done..|]. intros key. rewrite Hlookup.
  case_decide as Hin; [done|].
  by rewrite (lookupProp_absent _ _ Hin).
Qed.




(** On a bare collection (an object with [ids] and [entities] and no
    [files] property) the write transform changes nothing. *)
Lemma filesTransform_in_ignores_bare_collection (ids entities : JS.value) :
  Persist.filesTransform_in
    (JS.VObj [("ids", ids); ("entities", entities)])
  = Some (JS.VObj [("ids", ids); ("entities", entities)]).
Proof. reflexivity. Qed.

(** ** The structural repair on load *)

Lemma falsy_getOpt (v : JS.value) (k : string) :
  JS.truthy v = false -> JS.getOpt v k = JS.VUndefined.
Proof. destruct v as [| |[]|q|[|c s]|l|props]; done. Qed.

Lemma truthy_get (v : JS.value) (k : string) :
  JS.truthy v = true -> JS.get v k = Some (JS.getOpt v k).
Proof. by destruct v. Qed.

Lemma truthy_keys (v : JS.value) :
  JS.truthy v = true -> JS.keys v = Some (JS.spread v).*1.
Proof. by destruct v. Qed.

Lemma getOpt_VObj (props : list (string * JS.value)) (k : string) :
  JS.getOpt (JS.VObj props) k = JS.lookupProp k props.
Proof. reflexivity. Qed.

Lemma getOpt_files_set (v files : JS.value) :
  JS.getOpt (JS.VObj (JS.setProp "files" files (JS.spread v))) "files" = files.
Proof.
  unfold JS.getOpt, JS.get. cbn [JS.spread]. apply lookupProp_setProp_eq.
Qed.


Lemma hasAdapterStructure_truthy (filesState : JS.value) :
  hasAdapterStructure filesState = true -> JS.truthy filesState = true.
Proof.
  destruct (JS.truthy filesState) eqn:E; [done|].
  unfold hasAdapterStructure. by rewrite (falsy_getOpt _ _ E).
Qed.

Lemma repairedCollection_structure (filesState : JS.value) :
  hasAdapterStructure (repairedCollection filesState) = true.
Proof.
  unfold repairedCollection.
  destruct (hasAdapterStructure filesState) eqn:E; [done|].
  destruct (usable _) eqn:U; [|done].
  unfold hasAdapterStructure, JS.getOpt, JS.get. cbn [JS.spread].
  rewrite lookupProp_setProp_eq.
  rewrite lookupProp_setProp_ne, lookupProp_setProp_eq by done.
  apply andb_true_iff in U as [U _]. cbn [JS.truthy JS.isArray andb].
  unfold JS.getOpt, JS.get in U. by rewrite U.
Qed.

(** The transform computes the repair of the specification. *)
Lemma filesTransform_out_repairedCollection (outboundState : JS.value) :
  Persist.filesTransform_out outboundState
  = Some (if hasAdapterStructure (JS.getOpt outboundState "files")
          then outboundState
          else JS.VObj
                 (JS.setProp "files"
                    (repairedCollection (JS.getOpt outboundState "files"))
                    (JS.spread outboundState))).
Proof.
  unfold Persist.filesTransform_out, repairedCollection.
  destruct (JS.truthy outboundState) eqn:Hstate; cbn [negb].
  - rewrite (truthy_get _ _ Hstate). cbn [mbind option_bind].
    destruct (JS.truthy (JS.getOpt outboundState "files")) eqn:Hfiles;
      cbn [negb].
    + rewrite !(truthy_get _ _ Hfiles). cbn [mbind option_bind].
      unfold hasAdapterStructure, usable.
      destruct (JS.truthy (JS.getOpt (JS.getOpt outboundState "files") "ids"));
        destruct (JS.truthy
                    (JS.getOpt (JS.getOpt outboundState "files") "entities"))
          eqn:Hents;
        destruct (JS.isArray
                    (JS.getOpt (JS.getOpt outboundState "files") "ids"));
        cbn [negb orb andb];
        try reflexivity;
        destruct (String.eqb _ "object"); try reflexivity;
        by rewrite (truthy_keys _ Hents).
    + unfold hasAdapterStructure, usable.
      by rewrite !(falsy_getOpt _ _ Hfiles).
  - unfold hasAdapterStructure, usable.
    by rewrite (falsy_getOpt _ "files" Hstate).
Qed.


Lemma migrate_keeps_structure (st : JS.value) :
  hasAdapterStructure (JS.getOpt st "files") = true ->
  Persist.migrate st = Some st.
Proof.
  intros Hstruct. unfold Persist.migrate.
  destruct (JS.truthy st) eqn:Hst; [|done].
  destruct (String.eqb _ _); [|done]. cbn [andb].
  rewrite (truthy_get _ _ Hst). cbn [mbind option_bind].
  rewrite (hasAdapterStructure_truthy _ Hstruct).
  rewrite !(truthy_get _ _ (hasAdapterStructure_truthy _ Hstruct)).
  cbn [mbind option_bind].
  unfold hasAdapterStructure in Hstruct.
  apply andb_true_iff in Hstruct as [[-> ->]%andb_true_iff _]. done.
Qed.



(** * Further properties of the code *)

(** ** White space and [trim] *)

Lemma blank_rev_app (s acc : string) :
  blank (String.rev_app s acc) = blank s && blank acc.
Proof.
  revert acc. induction s as [|c s IH]; intros acc; cbn [String.rev_app blank].
  - done.
  - rewrite IH. cbn [blank]. by destruct (JsString.isWhiteSpace c), (blank s).
Qed.

Lemma rev_app_empty (s acc : string) :
  String.rev_app s acc = EmptyString -> s = EmptyString /\ acc = EmptyString.
Proof.
  revert acc. induction s as [|c s IH]; intros acc; cbn [String.rev_app].
  - done.
  - intros [_ [=]]%IH.
Qed.

Lemma blank_trimStart (s : string) :
  blank (JsString.trimStart s) = blank s.
Proof.
  induction s as [|c s IH]; [done|]. cbn [JsString.trimStart blank].
  destruct (JsString.isWhiteSpace c) eqn:E; [done|].
  cbn [blank]. by rewrite E.
Qed.

Lemma trimStart_empty (s : string) :
  JsString.trimStart s = EmptyString -> blank s = true.
Proof. intros H. by rewrite <- blank_trimStart, H. Qed.

Lemma trim_empty_iff (s : string) :
  JsString.trim s = EmptyString <-> blank s = true.
Proof.
  split; [|apply trim_blank].
  unfold JsString.trim, JsString.trimEnd, String.rev.
  intros [H _]%rev_app_empty. apply trimStart_empty in H.
  rewrite blank_rev_app, andb_true_r, blank_trimStart in H. done.
Qed.

Lemma blank_check (text : string) :
  negb (JsString.truthy text) || (String.length (JsString.trim text) =? 0)
  = blank text.
Proof.
  destruct (blank text) eqn:E.
  - by rewrite (trim_blank _ E), orb_true_r.
  - destruct text as [|c text]; [done|]. cbn [JsString.truthy negb orb].
    destruct (JsString.trim (String c text)) eqn:T; [|done].
    apply trim_empty_iff in T. congruence.
Qed.

(** ** The synthesis client, beyond the empty input *)

(** X1.  [transcribeText] sends a request exactly when the text is not
    blank, and then exactly one: the POST of the text, voice and speed to
    [/v1/audio/speech]; it never retries, whatever the service answers. *)
Theorem transcribeText_sends_one_request_unless_blank
    (host : Host) (text fileName voice : string) (speed : Q) (n : nat) :
  (Service.transcribeText host text fileName voice speed n).2
  = if blank text then [] else [Service.speechRequest text voice speed].
Proof.
  unfold Service.transcribeText. rewrite blank_check.
  by destruct (blank text).
Qed.

Lemma transcribeText_not_blank
    (host : Host) (text fileName voice : string) (speed : Q) (n : nat) :
  blank text = false ->
  Service.transcribeText host text fileName voice speed n
  = (match Service.speechAttempt host fileName
             (fetch host n (Service.speechRequest text voice speed)) with
     | inr result => Fulfilled result
     | inl message => Rejected (Service.rethrow fileName message)
     end,
     [Service.speechRequest text voice speed]).
Proof.
  intros Hblank. unfold Service.transcribeText.
  by rewrite blank_check, Hblank.
Qed.



Lemma rethrow_truthy (fileName message : string) :
  JsString.truthy (Service.rethrow fileName message) = true.
Proof.
  unfold Service.rethrow. destruct message as [|c message]; [done|].
  by destruct (_ || _).
Qed.

Lemma prefix_append (p rest : string) : String.prefix p (p +:+ rest) = true.
Proof.
  induction p as [|c p IH]; simpl.
  - by destruct rest.
  - by destruct (ascii_dec c c).
Qed.

Lemma rethrow_request_failed (fileName rest : string) :
  Service.rethrow fileName ("API request failed" +:+ rest)
  = "API request failed" +:+ rest.
Proof.
  unfold Service.rethrow, JsString.startsWith. by rewrite prefix_append.
Qed.

(** The detail a failure message ends with. *)
Lemma errorBodyMessage_shape (host : Host) (fileName : string)
    (r : Fetch.Response) :
  exists detail,
    Service.errorBodyMessage host fileName r
    = ("API request failed for " +:+ fileName +:+ " with status " +:+
       pretty (Fetch.status r)) +:+ ": " +:+ detail
    /\ (Fetch.json r = None -> detail = Fetch.statusText r)
    /\ (forall d rest,
          Fetch.json r = Some (JS.VObj (("detail", JS.VStr d) :: rest)) ->
          d <> EmptyString -> detail = d)
    /\ (forall rest,
          Fetch.json r = Some (JS.VObj (("detail", JS.VNull) :: rest)) ->
          detail = Fetch.statusText r).
Proof.
  unfold Service.errorBodyMessage.
  destruct (Fetch.json r) as [errorData|] eqn:Hjson.
  2: { eexists. split; [reflexivity|]. by split_and!. }
  destruct (JS.get errorData "detail") as [detail|] eqn:Hget.
  2: { eexists. split; [reflexivity|]. split_and!; [done|..].
       - by intros d rest [= ->].
       - by intros rest [= ->]. }
  destruct (JS.truthy detail) eqn:Htruthy.
  2: { eexists. split; [reflexivity|]. split_and!; [done|..].
       - intros d rest [= ->] Hd. injection Hget as <-. by destruct d.
       - done. }
  destruct detail as [| |b|q|s|[|first l]|props];
    try discriminate Htruthy;
    try (destruct (JS.get first "msg") as [msg|];
         [destruct (JS.truthy msg)|]);
    (eexists; split; [reflexivity|]; split_and!; [done|..]);
    try (intros d rest [= ->] _; by injection Hget);
    try (intros rest [= ->]; by injection Hget).
Qed.

(** X3.  When the service answers a non-blank text with a status that is
    not a success, [transcribeText] rejects with the message
    [API request failed for <fileName> with status <status>: <detail>],
    which its [catch] block passes on unchanged; the detail is the status
    text when the body does not parse or has a null [detail], and the
    [detail] of the body when that is a non-empty string. *)
Theorem transcribeText_reports_the_failed_status
    (host : Host) (text fileName voice : string) (speed : Q) (n : nat)
    (r : Fetch.Response) :
  blank text = false ->
  fetch host n (Service.speechRequest text voice speed) = Fetch.Responded r ->
  Fetch.ok r = false ->
  exists detail,
    Service.transcribeText host text fileName voice speed n
    = (Rejected
         (("API request failed for " +:+ fileName +:+ " with status " +:+
           pretty (Fetch.status r)) +:+ ": " +:+ detail),
       [Service.speechRequest text voice speed])
    /\ (Fetch.json r = None -> detail = Fetch.statusText r)
    /\ (forall d rest,
          Fetch.json r = Some (JS.VObj (("detail", JS.VStr d) :: rest)) ->
          d <> EmptyString -> detail = d)
    /\ (forall rest,
          Fetch.json r = Some (JS.VObj (("detail", JS.VNull) :: rest)) ->
          detail = Fetch.statusText r).
Proof.
  intros Hblank Hfetch Hok.
  destruct (errorBodyMessage_shape host fileName r) as (detail & Hmsg & Hrest).
  exists detail. split; [|exact Hrest].
  rewrite (transcribeText_not_blank _ _ _ _ _ _ Hblank), Hfetch.
  unfold Service.speechAttempt. rewrite Hok. cbn [negb]. rewrite Hmsg.
  change (("API request failed for " +:+ fileName +:+ " with status " +:+
           pretty (Fetch.status r)) +:+ ": " +:+ detail)
    with ("API request failed"
          +:+ (" for " +:+ (fileName +:+ " with status " +:+
                            pretty (Fetch.status r)) +:+ ": " +:+ detail)).
  by rewrite rethrow_request_failed.
Qed.

Lemma transcribeText_reports_the_failed_status_witness :
  Service.transcribeText refusingHost "hello" "a.txt" "am_michael" 1%Q 0
  = (Rejected "API request failed for a.txt with status 500: voice not found",
     [Service.speechRequest "hello" "am_michael" 1%Q]).
Proof.
  destruct (transcribeText_reports_the_failed_status refusingHost "hello"
              "a.txt" "am_michael" 1%Q 0 _ eq_refl eq_refl eq_refl)
    as (detail & Hrun & _ & Hdetail & _).
  rewrite Hrun.
  rewrite (Hdetail "voice not found" [] eq_refl ltac:(discriminate)).
  reflexivity.
Defined.

Lemma synthesis_rejected_truthy (host : Host) (arg : FilesSlice.TranscribeArg)
    (n : nat) (message : string) (sent : list Fetch.Request) :
  synthesis host arg n = (Rejected message, sent) ->
  JsString.truthy message = true.
Proof.
  unfold synthesis, Service.transcribeText.
  destruct (_ || _).
  - by intros [= <- _].
  - unfold mbind, mret, Net_bind, Net_ret, netBind, netRet, send.
    destruct (Service.speechAttempt _ _ _); [|done].
    intros [= <- _]. apply rethrow_truthy.
Qed.

Lemma orString_truthy (message d : string) :
  JsString.truthy message = true ->
  FilesSlice.orString (Some message) d = message.
Proof.
  intros H. unfold FilesSlice.orString, JsString.orElse. by rewrite H.
Qed.

(** X4.  A synthesis attempt on a record of the store ([transcribeFile]
    or [refetchAudioForFile]) leaves that record with its [id], [name] and
    [content], and with the outcome of the synthesis call: transcribed,
    the handle returned and no error when it fulfilled; in error, with
    exactly the message of the rejection and the [audioSrc] it had, when
    it rejected.  Every other record is as before. *)
Theorem synthesis_attempt_records_the_outcome
    (host : Host) (s : FilesSlice.FilesState) (n : nat)
    (arg : FilesSlice.TranscribeArg) (f : ProcessedFile) :
  recordAt (id (FilesSlice.file arg)) s = Some f ->
  recordAt (id (FilesSlice.file arg))
    (FilesSlice.state (FilesSlice.transcribeFile host arg (freshWorld s n)).2)
  = Some (settledRecord f (synthesis host arg n).1)
  /\ recordAt (id (FilesSlice.file arg))
       (FilesSlice.state
          (FilesSlice.refetchAudioForFile host arg (freshWorld s n)).2)
     = Some (settledRecord f (synthesis host arg n).1)
  /\ (forall k, k <> id (FilesSlice.file arg) ->
        recordAt k
          (FilesSlice.state
             (FilesSlice.transcribeFile host arg (freshWorld s n)).2)
        = recordAt k s
        /\ recordAt k
             (FilesSlice.state
                (FilesSlice.refetchAudioForFile host arg (freshWorld s n)).2)
           = recordAt k s).
Proof.
  intros Hk. destruct (synthesis host arg n) as [r sent] eqn:Hsyn.
  unfold freshWorld.
  rewrite (transcribeFile_run _ _ _ _ _ _ _ Hsyn),
    (refetchAudioForFile_run _ _ _ _ _ _ _ Hsyn).
  cbn [snd fst FilesSlice.state].
  split_and!.
  - destruct r as [result|message]; cbn [transcribeFile_settled].
    + erewrite recordAt_settled by reflexivity.
      erewrite recordAt_settled by reflexivity. by rewrite Hk.
    + erewrite recordAt_settled by reflexivity.
      erewrite recordAt_settled by reflexivity. rewrite Hk.
      rewrite (orString_truthy _ _ (synthesis_rejected_truthy _ _ _ _ _ Hsyn)).
      done.
  - destruct r as [result|message]; cbn [refetchAudioForFile_settled].
    + erewrite recordAt_settled by reflexivity.
      erewrite recordAt_settled by reflexivity. by rewrite Hk.
    + erewrite recordAt_settled by reflexivity.
      erewrite recordAt_settled by reflexivity. rewrite Hk.
      rewrite (orString_truthy _ _ (synthesis_rejected_truthy _ _ _ _ _ Hsyn)).
      done.
  - intros k Hne. split.
    + destruct r as [result|message];
        erewrite recordAt_other by (reflexivity || done);
        by erewrite recordAt_other by (reflexivity || done).
    + destruct r as [result|message];
        erewrite recordAt_other by (reflexivity || done);
        by erewrite recordAt_other by (reflexivity || done).
Qed.

Lemma synthesis_attempt_records_the_outcome_witness :
  recordAt "a"
    (FilesSlice.state
       (FilesSlice.transcribeFile refusingHost (attempt docA)
          (freshWorld (FilesSlice.state (storeWith refusingHost [docA; docB]))
             0)).2)
  = Some {| id := "a"; name := "a.txt"; content := "hello"; status := Error;
            audioSrc := None;
            error :=
              Some "API request failed for a.txt with status 500: voice not found" |}
  /\ recordAt "b"
       (FilesSlice.state
          (FilesSlice.transcribeFile refusingHost (attempt docA)
             (freshWorld
                (FilesSlice.state (storeWith refusingHost [docA; docB])) 0)).2)
     = Some docB.
Proof.
  destruct (synthesis_attempt_records_the_outcome refusingHost
              (FilesSlice.state (storeWith refusingHost [docA; docB])) 0
              (attempt docA) docA
              ltac:(vm_compute; reflexivity))
    as (Hrecord & _ & Hframe).
  split; [exact Hrecord|].
  rewrite (proj1 (Hframe "b" ltac:(discriminate))).
  vm_compute. reflexivity.
Defined.

(** ** The entity table *)

Lemma insertSorted_perm (cmp : string -> string -> comparison) (x : string)
    (l : list string) :
  FilesSlice.insertSorted cmp x l ≡ₚ x :: l.
Proof.
  induction l as [|y l IH]; cbn [FilesSlice.insertSorted]; [done|].
  destruct (cmp x y); try done; rewrite IH; apply perm_swap.
Qed.

Lemma sortIds_perm (host : Host) (e : gmap string ProcessedFile)
    (l : list string) :
  FilesSlice.sortIds host e l ≡ₚ l.
Proof.
  unfold FilesSlice.sortIds.
  enough (H : forall acc,
            foldl (fun acc x =>
                     FilesSlice.insertSorted (FilesSlice.compareIds host e)
                       x acc) acc l ≡ₚ l ++ acc).
  { by rewrite H, app_nil_r. }
  induction l as [|x l IH]; intros acc; cbn [foldl]; [done|].
  rewrite IH, insertSorted_perm. cbn [app]. by rewrite Permutation_middle.
Qed.

Lemma merged_is_Some (models : list ProcessedFile)
    (e : gmap string ProcessedFile) (k : string) :
  is_Some (foldl (fun e m => <[id m := m]> e) e models !! k)
  <-> is_Some (e !! k) \/ k ∈ id <$> models.
Proof.
  revert e. induction models as [|m models IH]; intros e; cbn [foldl].
  - rewrite fmap_nil, elem_of_nil. tauto.
  - rewrite IH, fmap_cons, elem_of_cons, lookup_insert_is_Some.
    destruct (decide (id m = k)); intuition congruence.
Qed.

Lemma merged_lookup_key (models : list ProcessedFile)
    (e : gmap string ProcessedFile) (k : string) (f : ProcessedFile) :
  foldl (fun e m => <[id m := m]> e) e models !! k = Some f ->
  e !! k = Some f \/ id f = k.
Proof.
  revert e. induction models as [|m models IH]; intros e; cbn [foldl];
    [by left|].
  intros [H|H]%IH; [|by right].
  destruct (decide (id m = k)) as [<-|Hne].
  - rewrite lookup_insert_eq in H. injection H as <-. by right.
  - rewrite lookup_insert_ne in H by done. by left.
Qed.

Lemma merged_lookup_other (models : list ProcessedFile)
    (e : gmap string ProcessedFile) (k : string) :
  k ∉ id <$> models ->
  foldl (fun e m => <[id m := m]> e) e models !! k = e !! k.
Proof.
  revert e. induction models as [|m models IH]; intros e; cbn [foldl];
    [done|].
  rewrite fmap_cons, not_elem_of_cons. intros [Hne Hk].
  rewrite IH by done. by rewrite lookup_insert_ne.
Qed.

Lemma merged_lookup_NoDup (models : list ProcessedFile)
    (e : gmap string ProcessedFile) (f : ProcessedFile) :
  NoDup (id <$> models) -> f ∈ models ->
  foldl (fun e m => <[id m := m]> e) e models !! id f = Some f.
Proof.
  revert e. induction models as [|m models IH]; intros e; cbn [foldl].
  - by intros _ ?%elem_of_nil.
  - rewrite fmap_cons, NoDup_cons. intros [Hm Hnd] [->|Hf]%elem_of_cons.
    + rewrite merged_lookup_other by done. apply lookup_insert_eq.
    + by apply IH.
Qed.

Lemma updateOne_Coherent (host : Host) (st : FilesSlice.EntityState)
    (k : string) (changes : ProcessedFile -> ProcessedFile) :
  (forall f, id (changes f) = id f) ->
  Coherent st -> Coherent (FilesSlice.updateOne host st k changes).
Proof.
  intros Hid (Hnd & Hdom & Hkey). unfold FilesSlice.updateOne.
  destruct (FilesSlice.entities st !! k) as [entity|] eqn:E; [|done].
  split_and!; cbn [FilesSlice.ids FilesSlice.entities].
  - by rewrite sortIds_perm.
  - intros k'. rewrite sortIds_perm, lookup_insert_is_Some, Hdom.
    destruct (decide (k = k')) as [<-|]; [|intuition congruence].
    rewrite E. intuition eauto.
  - intros k' f [[<- <-]|[_ H]]%lookup_insert_Some; [|by apply Hkey].
    rewrite Hid. by apply Hkey.
Qed.

Lemma addMany_Coherent (host : Host) (st : FilesSlice.EntityState)
    (l : list ProcessedFile) :
  Coherent st -> Coherent (FilesSlice.addMany host st l).
Proof.
  intros (Hnd & Hdom & Hkey). unfold FilesSlice.addMany.
  destruct (filter _ l) as [|m models'] eqn:E; [done|].
  generalize (m :: models'). clear E. intros models.
  unfold FilesSlice.merge.
  split_and!; cbn [FilesSlice.ids FilesSlice.entities].
  - rewrite sortIds_perm. apply NoDup_app. split_and!; [done| |].
    + by intros k Hk [Hnk _]%list_elem_of_filter.
    + apply NoDup_filter, unique_NoDup.
  - intros k. rewrite sortIds_perm, elem_of_app, list_elem_of_filter,
      unique_elem_of, merged_is_Some, Hdom.
    destruct (decide (k ∈ FilesSlice.ids st)) as [Hin|Hout].
    + apply Hdom in Hin. tauto.
    + rewrite <- Hdom. tauto.
  - intros k f [H|H]%merged_lookup_key; [by apply Hkey|done].
Qed.

Lemma changes_keep_identity (a : FilesSlice.Action) (k : string)
    (changes : ProcessedFile -> ProcessedFile) (f : ProcessedFile) :
  update a = Some (k, changes) ->
  id (changes f) = id f /\ name (changes f) = name f
  /\ content (changes f) = content f.
Proof. destruct a; cbn [update]; intros [= <- <-]; done. Qed.

Lemma reducer_Coherent (host : Host) (s : FilesSlice.FilesState)
    (a : FilesSlice.Action) :
  Coherent (FilesSlice.files s) ->
  Coherent (FilesSlice.files (FilesSlice.reducer host s a)).
Proof.
  intros Hs. rewrite reducer_files.
  assert (Hupd : Coherent
                   match update a with
                   | Some (k, changes) =>
                       FilesSlice.updateOne host (FilesSlice.files s) k changes
                   | None => FilesSlice.files s
                   end).
  { destruct (update a) as [[k changes]|] eqn:E; [|done].
    apply updateOne_Coherent; [|done].
    intros f. by destruct (changes_keep_identity a k changes f E). }
  destruct a; try exact Hupd.
  - by apply addMany_Coherent.
  - split_and!; cbn; [constructor| |].
    + intros k. rewrite elem_of_nil, lookup_empty. split; [done|by intros []].
    + intros k f. by rewrite lookup_empty.
Qed.

Lemma initialState_Coherent : Coherent (FilesSlice.files FilesSlice.initialState).
Proof.
  split_and!; cbn; [constructor| |].
  - intros k. rewrite elem_of_nil, lookup_empty. split; [done|by intros []].
  - intros k f. by rewrite lookup_empty.
Qed.

Lemma reduce_Coherent (host : Host) (s : FilesSlice.FilesState)
    (actions : list FilesSlice.Action) :
  Coherent (FilesSlice.files s) ->
  Coherent (FilesSlice.files (reduce host s actions)).
Proof.
  unfold reduce. revert s.
  induction actions as [|a actions IH]; intros s Hs; cbn [foldl]; [done|].
  by apply IH, reducer_Coherent.
Qed.

(** X5.  The entity table keeps its structure under every action of the
    slice: in every state reached from the initial one, no identifier is
    listed twice, the listed identifiers are exactly those that have a
    record, each record is stored under its own [id], and so the list has
    as many identifiers as the table has records. *)
Theorem entity_table_stays_coherent (host : Host) :
  (forall s a,
     Coherent (FilesSlice.files s) ->
     Coherent (FilesSlice.files (FilesSlice.reducer host s a)))
  /\ (forall actions,
        Coherent
          (FilesSlice.files (reduce host FilesSlice.initialState actions)))
  /\ (forall actions,
        length
          (FilesSlice.ids
             (FilesSlice.files (reduce host FilesSlice.initialState actions)))
        = size
            (FilesSlice.entities
               (FilesSlice.files
                  (reduce host FilesSlice.initialState actions)))).
Proof.
  split_and!.
  - apply reducer_Coherent.
  - intros actions. apply reduce_Coherent, initialState_Coherent.
  - intros actions.
    destruct (reduce_Coherent host _ actions initialState_Coherent)
      as (Hnd & Hdom & _).
    rewrite <- size_dom, <- (size_list_to_set (C := gset string)) by done.
    f_equal. apply set_eq. intros k.
    by rewrite elem_of_list_to_set, elem_of_dom.
Qed.

Lemma insertSorted_HdRel (cmp : string -> string -> comparison)
    (a x : string) (l : list string) :
  HdRel (fun a b => cmp b a <> Lt) a l -> cmp x a <> Lt ->
  HdRel (fun a b => cmp b a <> Lt) a (FilesSlice.insertSorted cmp x l).
Proof.
  intros Hl Hx. destruct l as [|y l]; cbn [FilesSlice.insertSorted].
  - by constructor.
  - destruct (cmp x y); constructor; try done; by inversion Hl.
Qed.

Lemma insertSorted_Sorted (cmp : string -> string -> comparison)
    (x : string) (l : list string) :
  (forall a b, cmp a b = Lt -> cmp b a <> Lt) ->
  Sorted (fun a b => cmp b a <> Lt) l ->
  Sorted (fun a b => cmp b a <> Lt) (FilesSlice.insertSorted cmp x l).
Proof.
  intros Hasym. induction l as [|y l IH]; intros Hl;
    cbn [FilesSlice.insertSorted].
  - repeat constructor.
  - inversion Hl as [|? ? Hl' Hhd]; subst.
    destruct (cmp x y) eqn:E.
    + constructor; [by apply IH|]. apply insertSorted_HdRel; [done|].
      by rewrite E.
    + constructor; [done|]. constructor. by apply Hasym.
    + constructor; [by apply IH|]. apply insertSorted_HdRel; [done|].
      by rewrite E.
Qed.

Lemma sortIds_Sorted (host : Host) (e : gmap string ProcessedFile)
    (l : list string) :
  asymmetric host ->
  Sorted (fun a b => FilesSlice.compareIds host e b a <> Lt)
    (FilesSlice.sortIds host e l).
Proof.
  intros Hasym. unfold FilesSlice.sortIds.
  assert (Hcmp : forall a b,
            FilesSlice.compareIds host e a b = Lt ->
            FilesSlice.compareIds host e b a <> Lt).
  { intros a b. unfold FilesSlice.compareIds, FilesSlice.sortComparer.
    destruct (e !! a), (e !! b); try done. apply Hasym. }
  enough (H : forall acc,
            Sorted (fun a b => FilesSlice.compareIds host e b a <> Lt) acc ->
            Sorted (fun a b => FilesSlice.compareIds host e b a <> Lt)
              (foldl (fun acc x =>
                        FilesSlice.insertSorted (FilesSlice.compareIds host e)
                          x acc) acc l)).
  { apply H. constructor. }
  induction l as [|x l IH]; intros acc Hacc; cbn [foldl]; [done|].
  by apply IH, insertSorted_Sorted.
Qed.

Lemma Sorted_adjacent {A} (R : A -> A -> Prop) (l : list A) (i : nat)
    (a b : A) :
  Sorted R l -> l !! i = Some a -> l !! S i = Some b -> R a b.
Proof.
  intros Hl. revert i. induction Hl as [|x l Hl IH Hhd]; intros i; [done|].
  destruct i as [|i]; cbn.
  - intros [= ->] Hb. destruct Hhd as [|y l' Hxy]; [done|].
    by injection Hb as ->.
  - apply IH.
Qed.

Lemma Sorted_InNameOrder (host : Host) (st : FilesSlice.EntityState) :
  Sorted (fun a b =>
            FilesSlice.compareIds host (FilesSlice.entities st) b a <> Lt)
    (FilesSlice.ids st) ->
  InNameOrder host st.
Proof.
  intros Hs i k1 k2 f1 f2 H1 H2 E1 E2.
  pose proof (Sorted_adjacent _ _ _ _ _ Hs H1 H2) as H.
  unfold FilesSlice.compareIds in H. by rewrite E1, E2 in H.
Qed.

Lemma reducer_InNameOrder (host : Host) (s : FilesSlice.FilesState)
    (a : FilesSlice.Action) :
  asymmetric host ->
  InNameOrder host (FilesSlice.files s) ->
  InNameOrder host (FilesSlice.files (FilesSlice.reducer host s a)).
Proof.
  intros Hasym Hs. rewrite reducer_files.
  assert (Hupd : InNameOrder host
                   match update a with
                   | Some (k, changes) =>
                       FilesSlice.updateOne host (FilesSlice.files s) k changes
                   | None => FilesSlice.files s
                   end).
  { destruct (update a) as [[k changes]|]; [|done].
    unfold FilesSlice.updateOne.
    destruct (FilesSlice.entities (FilesSlice.files s) !! k); [|done].
    apply Sorted_InNameOrder. by apply sortIds_Sorted. }
  destruct a; try exact Hupd.
  - unfold FilesSlice.addMany. destruct (filter _ payload); [done|].
    apply Sorted_InNameOrder. by apply sortIds_Sorted.
  - by intros i k1 k2 f1 f2 H.
Qed.

(** X6.  When the comparison of names never puts two names each before
    the other, the list of identifiers is in the order of the names in
    every state reached from the initial one: no record is listed right
    before a record whose name compares smaller, whatever was added or
    updated and in whatever order. *)
Theorem ids_stay_in_name_order (host : Host)
    (actions : list FilesSlice.Action) :
  asymmetric host ->
  InNameOrder host
    (FilesSlice.files (reduce host FilesSlice.initialState actions)).
Proof.
  intros Hasym. unfold reduce.
  assert (Hinit : InNameOrder host (FilesSlice.files FilesSlice.initialState))
    by (by intros i k1 k2 f1 f2 H).
  revert Hinit. generalize FilesSlice.initialState.
  induction actions as [|a actions IH]; intros s Hs; cbn [foldl]; [done|].
  by apply IH, reducer_InNameOrder.
Qed.

Lemma ids_stay_in_name_order_witness :
  InNameOrder silentHost
    (FilesSlice.files
       (reduce silentHost FilesSlice.initialState
          [FilesSlice.addProcessedFiles [docB; docA];
           FilesSlice.updateFileWithAudio "b" "blob:1"])).
Proof.
  apply (ids_stay_in_name_order silentHost
           [FilesSlice.addProcessedFiles [docB; docA];
            FilesSlice.updateFileWithAudio "b" "blob:1"]).
  intros a b H. cbn [silentHost localeCompare] in *.
  rewrite String.compare_antisym, H. discriminate.
Defined.

(** ** Records keep their identity *)

Lemma addMany_keeps (host : Host) (st : FilesSlice.EntityState)
    (l : list ProcessedFile) (k : string) (f : ProcessedFile) :
  FilesSlice.entities st !! k = Some f ->
  FilesSlice.entities (FilesSlice.addMany host st l) !! k = Some f.
Proof.
  intros Hk. unfold FilesSlice.addMany.
  destruct (filter _ l) as [|m models'] eqn:E; [done|].
  unfold FilesSlice.merge. cbn [FilesSlice.entities].
  rewrite merged_lookup_other; [done|].
  rewrite <- E. intros (g & -> & [Hg _]%list_elem_of_filter)%list_elem_of_fmap.
  congruence.
Qed.

Lemma reducer_keeps_document (host : Host) (s : FilesSlice.FilesState)
    (a : FilesSlice.Action) (k : string) (f : ProcessedFile) :
  a <> FilesSlice.clearAllFiles ->
  recordAt k s = Some f ->
  exists g, recordAt k (FilesSlice.reducer host s a) = Some g
            /\ sameDocument f g.
Proof.
  intros Hclear Hk. unfold recordAt in *. rewrite reducer_files.
  assert (Hupd : exists g,
            FilesSlice.entities
              match update a with
              | Some (k', changes) =>
                  FilesSlice.updateOne host (FilesSlice.files s) k' changes
              | None => FilesSlice.files s
              end !! k = Some g /\ sameDocument f g).
  { destruct (update a) as [[k' changes]|] eqn:E; [|by exists f].
    rewrite updateOne_lookup, Hk. case_decide; [|by exists f].
    exists (changes f). split; [done|].
    apply (changes_keep_identity a k' changes f E). }
  destruct a; try exact Hupd; [|done].
  exists f. split; [by apply addMany_keeps|done].
Qed.

(** X7.  No action other than [clearAllFiles] removes a record or changes
    its [id], its [name] or its [content]: a record of the store is still
    there, under the same key and with these three fields as they were,
    after any sequence of such actions. *)
Theorem records_keep_their_document (host : Host)
    (s : FilesSlice.FilesState) (actions : list FilesSlice.Action)
    (k : string) (f : ProcessedFile) :
  FilesSlice.clearAllFiles ∉ actions ->
  recordAt k s = Some f ->
  exists g, recordAt k (reduce host s actions) = Some g /\ sameDocument f g.
Proof.
  unfold reduce. revert s f.
  induction actions as [|a actions IH]; intros s f Hclear Hk; cbn [foldl].
  - by exists f.
  - apply not_elem_of_cons in Hclear as [Ha Hclear].
    destruct (reducer_keeps_document host s a k f) as (g & Hg & Hfg);
      [done..|].
    destruct (IH _ g Hclear Hg) as (h & Hh & Hgh).
    exists h. split; [done|].
    destruct Hfg as (? & ? & ?), Hgh as (? & ? & ?).
    split_and!; congruence.
Qed.

Lemma records_keep_their_document_witness :
  exists g,
    recordAt "a"
      (reduce flakyHost (FilesSlice.state (storeWith flakyHost [docA]))
         [FilesSlice.transcribeFile_pending (attempt docB);
          FilesSlice.updateFileStatus "a" Error (Some "failed");
          FilesSlice.addProcessedFiles [App.readyFile "a" "z.txt" "other"]])
    = Some g
    /\ sameDocument docA g.
Proof.
  apply (records_keep_their_document flakyHost
           (FilesSlice.state (storeWith flakyHost [docA]))
           [FilesSlice.transcribeFile_pending (attempt docB);
            FilesSlice.updateFileStatus "a" Error (Some "failed");
            FilesSlice.addProcessedFiles [App.readyFile "a" "z.txt" "other"]]
           "a" docA).
  - rewrite !not_elem_of_cons. split_and!; try discriminate.
    apply not_elem_of_nil.
  - vm_compute. reflexivity.
Defined.

(** ** Ingestion into the store *)

Lemma process_ids (host : Host) (n : nat) (f : App.File) :
  id <$> App.process host n f
  = randomUUID host <$> seq n (length (App.process host n f)).
Proof.
  unfold App.process.
  repeat match goal with
         | |- context [if ?b then _ else _] => destruct b
         | |- context [match ?x with inl _ => _ | inr _ => _ end] =>
             destruct x
         end; try reflexivity.
  rewrite <- (length_fmap id (App.filesFromZip _ _ _)), filesFromZip_ids.
  by rewrite length_fmap, length_seq.
Qed.

Lemma processAll_ids (host : Host) (n : nat) (selected : list App.File) :
  id <$> App.processAll host n selected
  = randomUUID host <$> seq n (length (App.processAll host n selected)).
Proof.
  revert n. induction selected as [|f selected IH]; intros n;
    cbn [App.processAll]; [done|].
  rewrite fmap_app, length_app, seq_app, fmap_app, IH.
  by rewrite <- process_ids.
Qed.

Lemma filter_Forall_id {A} (P : A -> Prop) `{!forall x, Decision (P x)}
    (l : list A) :
  Forall P l -> filter P l = l.
Proof.
  induction 1 as [|x l Hx _ IH]; [done|].
  by rewrite filter_cons_True, IH.
Qed.

Lemma addMany_fresh (host : Host) (st : FilesSlice.EntityState)
    (l : list ProcessedFile) :
  (forall f, f ∈ l -> FilesSlice.entities st !! id f = None) ->
  FilesSlice.entities (FilesSlice.addMany host st l)
  = foldl (fun e m => <[id m := m]> e) (FilesSlice.entities st) l.
Proof.
  intros Hfresh. unfold FilesSlice.addMany.
  rewrite filter_Forall_id by (by apply Forall_forall).
  by destruct l.
Qed.

(** X8.  When the generator of identifiers gives no identifier twice and
    none that the store already uses, the records of a selection have
    distinct identifiers and the handler stores every one of them, as
    produced and under its own identifier; it leaves the records already
    stored as they were and adds nothing else, and it ends with the
    reading flag and the error banner cleared. *)
Theorem selected_files_enter_the_store (host : Host)
    (s : FilesSlice.FilesState) (n : nat) (selected : list App.File) :
  (forall i j, randomUUID host i = randomUUID host j -> i = j) ->
  (forall f, f ∈ App.processAll host n selected -> recordAt (id f) s = None) ->
  let produced := App.processAll host n selected in
  let s' := reduce host s (App.handleFilesSelected host n selected) in
  NoDup (id <$> produced)
  /\ (forall f, f ∈ produced -> recordAt (id f) s' = Some f)
  /\ (forall k f, recordAt k s = Some f -> recordAt k s' = Some f)
  /\ (forall k, is_Some (recordAt k s') ->
        is_Some (recordAt k s) \/ k ∈ id <$> produced)
  /\ (selected <> [] ->
      FilesSlice.isReadingFiles s' = false
      /\ FilesSlice.filesError s' = None).
Proof.
  intros Hinj Hfresh produced s'.
  assert (Hnd : NoDup (id <$> produced)).
  { subst produced. rewrite processAll_ids.
    apply NoDup_fmap_2; [exact Hinj|apply NoDup_seq]. }
  assert (Hentities :
    FilesSlice.entities (FilesSlice.files s')
    = foldl (fun e m => <[id m := m]> e)
        (FilesSlice.entities (FilesSlice.files s)) produced).
  { rewrite <- (addMany_fresh host) by exact Hfresh.
    subst s' produced. unfold reduce, App.handleFilesSelected.
    destruct selected as [|f0 selected0]; [done|].
    cbn [foldl]. by rewrite !reducer_files. }
  unfold recordAt. rewrite Hentities.
  split_and!.
  - exact Hnd.
  - intros f Hf. by apply merged_lookup_NoDup.
  - intros k f Hk. rewrite merged_lookup_other; [done|].
    intros (g & -> & Hg)%list_elem_of_fmap.
    specialize (Hfresh g Hg). unfold recordAt in Hfresh. congruence.
  - intros k. by rewrite merged_is_Some.
  - intros Hsel. subst s'. unfold reduce, App.handleFilesSelected.
    by destruct selected.
Qed.

Lemma selected_files_enter_the_store_witness :
  recordAt "1"
    (reduce silentHost FilesSlice.initialState
       (App.handleFilesSelected silentHost 0 sampleSelection))
  = Some (App.readyFile "1" "docs/c.txt" "world")
  /\ recordAt "3"
       (reduce silentHost FilesSlice.initialState
          (App.handleFilesSelected silentHost 0 sampleSelection))
     = Some (App.errorFile "3" "e.png"
               "Unsupported file type. Please upload .txt or .zip files.").
Proof.
  pose proof
    (selected_files_enter_the_store silentHost FilesSlice.initialState 0
       sampleSelection
       ltac:(intros i j H; by apply (inj pretty))
       ltac:(intros f _; apply lookup_empty))
    as (_ & Hstored & _).
  split.
  - apply (Hstored (App.readyFile "1" "docs/c.txt" "world")).
    apply (list_elem_of_lookup_2 _ 1). reflexivity.
  - apply (Hstored
             (App.errorFile "3" "e.png"
                "Unsupported file type. Please upload .txt or .zip files.")).
    apply (list_elem_of_lookup_2 _ 3). reflexivity.
Defined.

(** ** The batch, for any list of records *)

Lemma attempt_settles (host : Host) (st : FilesSlice.FilesState)
    (arg : FilesSlice.TranscribeArg)
    (r : Promise Service.TranscriptionResult) :
  exists changes,
    (forall x, status (changes x) = settledStatus r)
    /\ forall k,
         recordAt k
           (FilesSlice.reducer host
              (FilesSlice.reducer host st
                 (FilesSlice.transcribeFile_pending arg))
              (transcribeFile_settled arg r))
         = if decide (id (FilesSlice.file arg) = k)
           then changes <$> recordAt k st else recordAt k st.
Proof.
  destruct r as [result|message].
  - exists (FilesSlice.audioChanges (Service.audioSrc result)).
    split; [done|]. intros k.
    rewrite 2!recordAt_reducer by done.
    cbn [update transcribeFile_settled]. case_decide; [|done].
    by destruct (recordAt k st).
  - exists (FilesSlice.errorChanges
              (FilesSlice.orString (Some message)
                 (FilesSlice.orString (Some "Rejected")
                    "Transcription failed"))).
    split; [done|]. intros k.
    rewrite 2!recordAt_reducer by done.
    cbn [update transcribeFile_settled]. case_decide; [|done].
    by destruct (recordAt k st).
Qed.

Lemma settle_filesError (s : FilesSlice.FilesState) :
  FilesSlice.filesError (FilesSlice.settle s) = FilesSlice.filesError s.
Proof. unfold FilesSlice.settle. by destruct (negb _). Qed.

Lemma attempt_clears_banner (host : Host) (st : FilesSlice.FilesState)
    (arg : FilesSlice.TranscribeArg)
    (r : Promise Service.TranscriptionResult) :
  FilesSlice.filesError
    (FilesSlice.reducer host
       (FilesSlice.reducer host st (FilesSlice.transcribeFile_pending arg))
       (transcribeFile_settled arg r)) = None.
Proof.
  destruct r; cbn [transcribeFile_settled FilesSlice.reducer];
    by rewrite settle_filesError.
Qed.

Lemma synthesis_sent (host : Host) (arg : FilesSlice.TranscribeArg) (n : nat) :
  length (synthesis host arg n).2
  = length (speakable [FilesSlice.file arg]).
Proof.
  unfold synthesis, Service.transcribeText, speakable.
  rewrite blank_check.
  destruct (blank (content (FilesSlice.file arg))) eqn:E.
  - by rewrite filter_cons_False by congruence.
  - by rewrite filter_cons_True.
Qed.

Lemma dispatched_app (evs evs' : list FilesSlice.Event) :
  dispatched (evs ++ evs') = dispatched evs ++ dispatched evs'.
Proof. apply omap_app. Qed.

Lemma dispatched_cons (a : FilesSlice.Action) (evs : list FilesSlice.Event) :
  dispatched (FilesSlice.Dispatched a :: evs) = a :: dispatched evs.
Proof. reflexivity. Qed.

Lemma reduce_app (host : Host) (s : FilesSlice.FilesState)
    (actions actions' : list FilesSlice.Action) :
  reduce host s (actions ++ actions')
  = reduce host (reduce host s actions) actions'.
Proof. apply foldl_app. Qed.

Lemma transcribeLoop_spec (host : Host) (len : nat) (v : string) (sp : Q)
    (l : list ProcessedFile) (i sc ec : nat) (st : FilesSlice.FilesState)
    (n : nat) (evs : list FilesSlice.Event) :
  exists sc' ec' st' evs',
    FilesSlice.transcribeLoop host len v sp l i sc ec
      {| FilesSlice.state := st; FilesSlice.requests := n;
         FilesSlice.events := evs |}
    = ((sc', ec'),
       {| FilesSlice.state := st';
          FilesSlice.requests := n + length (speakable l);
          FilesSlice.events := evs ++ evs' |})
    /\ sc' + ec' = sc + ec + length l
    /\ st' = reduce host st (dispatched evs')
    /\ (FilesSlice.filesError st = None -> FilesSlice.filesError st' = None)
    /\ (forall k, k ∉ id <$> l -> recordAt k st' = recordAt k st)
    /\ (forall k, is_Some (recordAt k st) ->
          k ∈ id <$> l \/ Settled k st -> Settled k st').
Proof.
  revert i sc ec st n evs.
  induction l as [|f l IH]; intros i sc ec st n evs.
  - exists sc, ec, st, []. rewrite app_nil_r.
    unfold speakable. rewrite filter_nil. cbn [length]. rewrite Nat.add_0_r.
    split_and!; try done; try lia.
    intros k _ [Hk%elem_of_nil|Hk]; done.
  - destruct (synthesis host (attemptWith v sp f) n) as [r sent] eqn:Hsyn.
    rewrite (transcribeLoop_cons host len v sp f l i sc ec st n evs r sent Hsyn).
    pose proof (synthesis_sent host (attemptWith v sp f) n) as Hsent.
    rewrite Hsyn in Hsent. cbn [snd attemptWith FilesSlice.file] in Hsent.
    destruct (attempt_settles host
                (FilesSlice.reducer host st
                   (FilesSlice.setTranscriptionProgress
                      (progress (i + 1) len (Some (name f)))))
                (attemptWith v sp f) r) as (changes & Hstatus & Hrec).
    cbn [attemptWith FilesSlice.file] in Hrec.
    edestruct IH as (sc' & ec' & st' & evs' & -> & Hsum & Hst & Herr & Hout & Hin).
    eexists _, _, st', _. rewrite <- app_assoc.
    split_and!.
    + f_equal. f_equal. unfold speakable in *.
      change (f :: l) with ([f] ++ l). rewrite filter_app, length_app.
      rewrite <- Hsent. by rewrite Nat.add_assoc.
    + destruct r; simpl; lia.
    + rewrite Hst, dispatched_app, reduce_app. f_equal.
      rewrite 2!dispatched_cons, dispatched_app, dispatched_sent.
      reflexivity.
    + intros _. apply Herr. apply attempt_clears_banner.
    + intros k [Hne Hk]%not_elem_of_cons. rewrite Hout by done.
      rewrite Hrec, decide_False by done.
      by apply recordAt_untouched.
    + intros k Hsome Hk. apply Hin.
      * rewrite Hrec. case_decide.
        -- rewrite recordAt_untouched by done.
           destruct Hsome as [x ->]. by eexists.
        -- by rewrite recordAt_untouched by done.
      * destruct (decide (id f = k)) as [Heq|Hne].
        -- right. destruct Hsome as [x Hx]. exists (changes x). split.
           ++ rewrite Hrec, decide_True by done.
              rewrite recordAt_untouched by done. by rewrite Hx.
           ++ rewrite Hstatus. destruct r; [by left|by right].
        -- destruct Hk as [[?|Hk]%elem_of_cons|(x & Hx & Hs)];
             [congruence|by left|].
           right. exists x. split; [|done].
           rewrite Hrec, decide_False by done.
           by rewrite recordAt_untouched by done.
Qed.

Lemma transcribeMultipleFiles_spec (host : Host) (l : list ProcessedFile)
    (v : string) (sp : Q) (s : FilesSlice.FilesState) (n : nat) :
  exists sc ec st' evs',
    FilesSlice.transcribeMultipleFiles host (batch l v sp) (freshWorld s n)
    = (Fulfilled (sc, ec),
       {| FilesSlice.state := st';
          FilesSlice.requests := n + length (speakable l);
          FilesSlice.events := evs' |})
    /\ sc + ec = length l
    /\ st' = reduce host s (dispatched evs')
    /\ FilesSlice.isTranscribing st' = false
    /\ FilesSlice.transcriptionProgress st' = FilesSlice.noProgress
    /\ FilesSlice.filesError st' = batchBanner sc ec
    /\ (forall k, k ∉ id <$> l -> recordAt k st' = recordAt k s)
    /\ (forall k, is_Some (recordAt k s) ->
          k ∈ id <$> l \/ Settled k s -> Settled k st').
Proof.
  unfold freshWorld. rewrite transcribeMultipleFiles_run.
  destruct (transcribeLoop_spec host (length l) v sp l 0 0 0
              (FilesSlice.reducer host
                 (FilesSlice.reducer host s
                    FilesSlice.transcribeMultipleFiles_pending)
                 (FilesSlice.setTranscriptionProgress
                    (progress 0 (length l) None)))
              n
              ([] ++ [FilesSlice.Dispatched
                        FilesSlice.transcribeMultipleFiles_pending;
                      FilesSlice.Dispatched
                        (FilesSlice.setTranscriptionProgress
                           (progress 0 (length l) None))]))
    as (sc & ec & st' & evs' & -> & Hsum & Hst & Herr & Hout & Hin).
  cbn [fst snd FilesSlice.state FilesSlice.requests FilesSlice.events].
  eexists sc, ec, _, _. split_and!.
  - reflexivity.
  - lia.
  - rewrite Hst. cbn [app].
    rewrite 2!dispatched_cons, dispatched_app, 2!dispatched_cons.
    unfold reduce. cbn [foldl]. by rewrite foldl_app.
  - cbn [FilesSlice.reducer]. by destruct (0 <? ec).
  - by rewrite !reducer_progress.
  - specialize (Herr eq_refl). unfold batchBanner.
    cbn [FilesSlice.reducer]. destruct ec as [|ec]; cbn; [exact Herr|done].
  - intros k Hk. rewrite 2!recordAt_untouched by done.
    rewrite Hout by done. by rewrite 2!recordAt_untouched by done.
  - intros k Hsome Hk.
    assert (Hsettled : Settled k st').
    { apply Hin.
      - by rewrite 2!recordAt_untouched by done.
      - destruct Hk as [Hk|(x & Hx & Hs)]; [by left|right].
        exists x. split; [|done]. by rewrite 2!recordAt_untouched by done. }
    destruct Hsettled as (x & Hx & Hs). exists x. split; [|done].
    by rewrite 2!recordAt_untouched by done.
Qed.

(** X9.  A batch over any list of records always fulfils, with counts
    that add up to the length of the list.  It sends exactly one request
    per record whose content is not blank.  In the store it leaves, the
    batch is no longer transcribing, the progress is reset, the banner
    reports the counts when something failed and is empty otherwise, a
    record outside the list is as before, and every record of the list
    that the store holds is transcribed or in error. *)
Theorem batch_settles_every_record (host : Host) (l : list ProcessedFile)
    (v : string) (sp : Q) (s : FilesSlice.FilesState) (n : nat) :
  exists successCount errorCount,
    (FilesSlice.transcribeMultipleFiles host (batch l v sp)
       (freshWorld s n)).1
    = Fulfilled (successCount, errorCount)
    /\ successCount + errorCount = length l
    /\ FilesSlice.requests
         (FilesSlice.transcribeMultipleFiles host (batch l v sp)
            (freshWorld s n)).2
       = n + length (speakable l)
    /\ let s' :=
         FilesSlice.state
           (FilesSlice.transcribeMultipleFiles host (batch l v sp)
              (freshWorld s n)).2 in
       FilesSlice.isTranscribing s' = false
       /\ FilesSlice.transcriptionProgress s' = FilesSlice.noProgress
       /\ FilesSlice.filesError s' = batchBanner successCount errorCount
       /\ (forall k, k ∉ id <$> l -> recordAt k s' = recordAt k s)
       /\ (forall f, f ∈ l -> is_Some (recordAt (id f) s) ->
             Settled (id f) s').
Proof.
  destruct (transcribeMultipleFiles_spec host l v sp s n)
    as (sc & ec & st' & evs' & -> & Hsum & _ & Ht & Hp & He & Hout & Hin).
  exists sc, ec. cbn [fst snd FilesSlice.state FilesSlice.requests].
  split_and!; try done.
  intros f Hf Hsome. apply Hin; [done|]. left.
  by apply list_elem_of_fmap_2.
Qed.

(** ** Starting the batch from the ready files *)

Lemma mapM_Some_fmap {A} (l : list A) :
  mapM (fun x : option A => x) (Some <$> l) = Some l.
Proof. induction l as [|x l IH]; [done|]. cbn. by rewrite IH. Qed.

Lemma filterFiles_Some (p : ProcessedFile -> bool) (l : list ProcessedFile) :
  Selectors.filterFiles p (Some <$> l)
  = Some (filter (fun file => p file = true) l).
Proof. unfold Selectors.filterFiles. by rewrite mapM_Some_fmap. Qed.

Lemma listed_records (e : gmap string ProcessedFile) (ks : list string) :
  (forall k, k ∈ ks -> is_Some (e !! k)) ->
  exists l, (fun k => e !! k) <$> ks = Some <$> l
            /\ forall f, f ∈ l <-> exists k, k ∈ ks /\ e !! k = Some f.
Proof.
  induction ks as [|k ks IH]; intros Hks.
  - exists []. split; [done|]. intros f. rewrite elem_of_nil.
    split; [done|]. intros (k & Hk%elem_of_nil & _). done.
  - destruct IH as (l & Hl & Hmem).
    { intros k' Hk'. apply Hks. by right. }
    destruct (Hks k) as [x Hx]; [by left|].
    exists (x :: l). split; [by rewrite !fmap_cons, Hl, Hx|].
    intros f. rewrite elem_of_cons, Hmem. split.
    + intros [->|(k' & Hk' & Hf)]; [exists k; split; [by left|done]|].
      exists k'. split; [by right|done].
    + intros (k' & [->|Hk']%elem_of_cons & Hf); [left; congruence|].
      right. by exists k'.
Qed.

Lemma selectProcessedFiles_Coherent (s : FilesSlice.FilesState) :
  Coherent (FilesSlice.files s) ->
  exists l, Selectors.selectProcessedFiles s = Some <$> l
            /\ forall f, f ∈ l <-> recordAt (id f) s = Some f.
Proof.
  intros (_ & Hdom & Hkey).
  destruct (listed_records (FilesSlice.entities (FilesSlice.files s))
              (FilesSlice.ids (FilesSlice.files s))) as (l & Hl & Hmem).
  { intros k. apply Hdom. }
  exists l. split; [exact Hl|]. intros f. rewrite Hmem. unfold recordAt. split.
  - intros (k & _ & Hf). by rewrite (Hkey _ _ Hf).
  - intros Hf. exists (id f). split; [|done]. apply Hdom. by eexists.
Qed.

Lemma selectReadyFiles_Coherent (s : FilesSlice.FilesState) :
  Coherent (FilesSlice.files s) ->
  exists l, Selectors.selectReadyFiles s = Some l
            /\ forall f, f ∈ l <->
                 recordAt (id f) s = Some f /\ status f = Ready.
Proof.
  intros (l & Hl & Hmem)%selectProcessedFiles_Coherent.
  eexists. unfold Selectors.selectReadyFiles.
  rewrite Hl, filterFiles_Some. split; [reflexivity|].
  intros f. rewrite list_elem_of_filter, bool_decide_eq_true, Hmem. tauto.
Qed.

(** X10.  [handleStartTranscription], run on the ready files of a
    well-formed store, leaves no ready file: every file it was given is
    transcribed or in error afterwards and the other records are
    untouched, so the selector of ready files is empty and transcribing
    is no longer offered.  When it was given a file, it ends on the
    message of success whatever the outcomes: the batch always fulfils,
    so the message of failure is never shown. *)
Theorem start_transcription_leaves_no_ready_file (host : Host)
    (s : FilesSlice.FilesState) (n : nat) (v : string) (sp : Q)
    (readyFiles : list ProcessedFile) :
  Coherent (FilesSlice.files s) ->
  Selectors.selectReadyFiles s = Some readyFiles ->
  let run :=
    Handlers.handleStartTranscription host readyFiles v sp (freshWorld s n) in
  Selectors.selectReadyFiles (FilesSlice.state run.2) = Some []
  /\ Selectors.selectCanTranscribe (FilesSlice.state run.2) = Some false
  /\ (forall f, f ∈ readyFiles -> Settled (id f) (FilesSlice.state run.2))
  /\ (forall k f, recordAt k s = Some f -> status f <> Ready ->
        recordAt k (FilesSlice.state run.2) = Some f)
  /\ (readyFiles <> [] ->
      run.1 = Some "All transcriptions completed successfully!")
  /\ FilesSlice.requests run.2 = n + length (speakable readyFiles).
Proof.
  intros Hs Hready run.
  destruct (selectReadyFiles_Coherent s Hs) as (l & Hl & Hmem).
  rewrite Hready in Hl. injection Hl as <-.
  assert (Hrun : exists message st' evs',
            run = (message,
                   {| FilesSlice.state := st';
                      FilesSlice.requests := n + length (speakable readyFiles);
                      FilesSlice.events := evs' |})
            /\ (readyFiles <> [] ->
                message = Some "All transcriptions completed successfully!")
            /\ st' = reduce host s (dispatched evs')
            /\ (forall k, k ∉ id <$> readyFiles ->
                  recordAt k st' = recordAt k s)
            /\ (forall k, is_Some (recordAt k s) ->
                  k ∈ id <$> readyFiles -> Settled k st')).
  { subst run. clear Hready Hmem. destruct readyFiles as [|f0 fs].
    - exists None, s, []. unfold speakable. rewrite filter_nil.
      cbn [length]. rewrite Nat.add_0_r. split_and!; try done.
      intros k _ Hk%elem_of_nil. done.
    - unfold Handlers.handleStartTranscription.
      unfold mbind, mret, FilesSlice.Thunk_bind, FilesSlice.Thunk_ret,
        FilesSlice.thunkBind, FilesSlice.thunkRet.
      destruct (transcribeMultipleFiles_spec host (f0 :: fs) v sp s n)
        as (sc & ec & st' & evs' & Hrun & _ & Hst & _ & _ & _ & Hout & Hin).
      unfold batch in Hrun. rewrite Hrun.
      eexists _, st', evs'. split_and!; try done.
      intros k Hsome Hk. apply Hin; [done|by left]. }
  destruct Hrun as (message & st' & evs' & -> & Hmsg & Hst & Hout & Hin).
  cbn [fst snd FilesSlice.state FilesSlice.requests].
  assert (Hs' : Coherent (FilesSlice.files st'))
    by (rewrite Hst; by apply reduce_Coherent).
  assert (Hnone : Selectors.selectReadyFiles st' = Some []).
  { destruct (selectReadyFiles_Coherent st' Hs') as (l' & -> & Hmem').
    f_equal. destruct l' as [|g l']; [done|]. exfalso.
    destruct (Hmem' g) as [[Hg Hgs] _]; [by left|].
    destruct (decide (id g ∈ id <$> readyFiles)) as [Hk|Hk].
    - destruct (Hin (id g)) as (x & Hx & Hterm); [|done|].
      + apply list_elem_of_fmap in Hk as (f & -> & Hf).
        apply Hmem in Hf as [-> _]. by eexists.
      + rewrite Hg in Hx. injection Hx as <-. destruct Hterm; congruence.
    - rewrite Hout in Hg by done. apply Hk.
      apply list_elem_of_fmap_2. by apply Hmem. }
  split_and!.
  - exact Hnone.
  - unfold Selectors.selectCanTranscribe. by rewrite Hnone.
  - intros f Hf. apply Hin; [|by apply list_elem_of_fmap_2].
    apply Hmem in Hf as [-> _]. by eexists.
  - intros k f Hk Hst'. rewrite Hout; [done|].
    intros (g & -> & Hg)%list_elem_of_fmap.
    apply Hmem in Hg as [Hg Hgs]. congruence.
  - exact Hmsg.
  - reflexivity.
Qed.

Lemma start_transcription_leaves_no_ready_file_witness :
  Selectors.selectReadyFiles
    (FilesSlice.state
       (Handlers.handleStartTranscription flakyHost [docA; docB; docEmpty]
          "am_michael" 1%Q
          (freshWorld
             (FilesSlice.state (storeWith flakyHost [docA; docB; docEmpty]))
             0)).2)
  = Some []
  /\ (Handlers.handleStartTranscription flakyHost [docA; docB; docEmpty]
        "am_michael" 1%Q
        (freshWorld
           (FilesSlice.state (storeWith flakyHost [docA; docB; docEmpty]))
           0)).1
     = Some "All transcriptions completed successfully!"
  /\ FilesSlice.requests
       (Handlers.handleStartTranscription flakyHost [docA; docB; docEmpty]
          "am_michael" 1%Q
          (freshWorld
             (FilesSlice.state (storeWith flakyHost [docA; docB; docEmpty]))
             0)).2
     = 2.
Proof.
  pose proof
    (start_transcription_leaves_no_ready_file flakyHost
       (FilesSlice.state (storeWith flakyHost [docA; docB; docEmpty])) 0
       "am_michael" 1%Q [docA; docB; docEmpty]
       ltac:(apply (reduce_Coherent flakyHost FilesSlice.initialState
                      [FilesSlice.addProcessedFiles [docA; docB; docEmpty]]),
               initialState_Coherent)
       ltac:(vm_compute; reflexivity))
    as (H1 & _ & _ & _ & H5 & H6).
  split_and!; [exact H1|by apply H5|exact H6].
Defined.

(** ** Restoring audio after rehydration *)

Lemma markInvalid_run (host : Host) (invalid : list ProcessedFile)
    (st : FilesSlice.FilesState) (n : nat) (evs : list FilesSlice.Event) :
  exists st' evs',
    AudioRestore.markInvalid host invalid
      {| FilesSlice.state := st; FilesSlice.requests := n;
         FilesSlice.events := evs |}
    = (tt, {| FilesSlice.state := st'; FilesSlice.requests := n;
              FilesSlice.events := evs ++ evs' |})
    /\ st' = FilesSlice.withFiles st (FilesSlice.files st')
    /\ forall k,
         recordAt k st'
         = if decide (k ∈ id <$> invalid)
           then FilesSlice.audioChanges "" <$> recordAt k st
           else recordAt k st.
Proof.
  revert st evs. induction invalid as [|f invalid IH]; intros st evs.
  - exists st, []. rewrite app_nil_r. split_and!; [done|by destruct st|].
    intros k. rewrite decide_False; [done|]. apply not_elem_of_nil.
  - cbn [AudioRestore.markInvalid].
    unfold mbind, FilesSlice.Thunk_bind, FilesSlice.thunkBind,
      FilesSlice.dispatch.
    cbn [FilesSlice.state FilesSlice.requests FilesSlice.events].
    edestruct IH as (st' & evs' & -> & Hflags & Hrec).
    exists st', ([FilesSlice.Dispatched
                    (FilesSlice.updateFileStatus (id f) Transcribed None);
                  FilesSlice.Dispatched
                    (FilesSlice.updateFileWithAudio (id f) "")] ++ evs').
    split_and!.
    + by rewrite <- !app_assoc.
    + rewrite Hflags at 1. reflexivity.
    + intros k. rewrite Hrec. rewrite 2!recordAt_reducer by done.
      cbn [update]. rewrite fmap_cons.
      destruct (decide (id f = k)) as [<-|Hne].
      * rewrite (decide_True (P := id f ∈ id f :: _)) by left.
        destruct (recordAt (id f) st); case_decide; done.
      * destruct (decide (k ∈ id <$> invalid)) as [Hin|Hout].
        -- by rewrite (decide_True (P := k ∈ id f :: _)) by (by right).
        -- rewrite (decide_False (P := k ∈ id f :: _)); [done|].
           rewrite not_elem_of_cons. split; [congruence|done].
Qed.

Lemma elem_of_values (e : gmap string ProcessedFile) (f : ProcessedFile) :
  f ∈ (map_to_list e).*2 <-> exists k, e !! k = Some f.
Proof.
  rewrite list_elem_of_fmap. split.
  - intros ([k g] & -> & H%elem_of_map_to_list). by exists k.
  - intros (k & H). exists (k, f). split; [done|].
    by apply elem_of_map_to_list.
Qed.

Lemma invalidFiles_ids (head : string -> Fetch.FetchOutcome)
    (s : FilesSlice.FilesState) (k : string) (f : ProcessedFile) :
  Coherent (FilesSlice.files s) ->
  recordAt k s = Some f ->
  k ∈ id <$> AudioRestore.invalidFiles head (AudioRestore.transcribedFiles s)
  <-> stale head f = true.
Proof.
  intros (_ & _ & Hkey) Hk. unfold recordAt in Hk.
  unfold AudioRestore.invalidFiles, AudioRestore.transcribedFiles, stale.
  rewrite list_elem_of_fmap, andb_true_iff. split.
  - intros (g & -> & Hg). rewrite !list_elem_of_filter, elem_of_values in Hg.
    destruct Hg as (Hinv & Htr & k' & Hk').
    rewrite (Hkey _ _ Hk') in Hk. by simplify_eq.
  - intros [Htr Hinv]. exists f. split; [by rewrite (Hkey _ _ Hk)|].
    rewrite !list_elem_of_filter, elem_of_values. eauto.
Qed.

Lemma restored_not_stale (head : string -> Fetch.FetchOutcome)
    (f : ProcessedFile) :
  stale head (restored head f) = false.
Proof.
  unfold restored. destruct (stale head f) eqn:E; [|done].
  unfold stale, AudioRestore.isTranscribedWithAudio. cbn.
  by rewrite andb_false_r.
Qed.

(** X11.  On a well-formed store [restoreAudioData] always fulfils.  It
    blanks the handle of exactly the transcribed records whose handle is
    an object URL that its probe finds dead (they stay transcribed, with
    [audioSrc] the empty string) and leaves every other record, and the
    [id], [name] and [content] of all, as they were; afterwards no
    record holds a dead object URL.  It sends no request to the
    synthesis service and ends with the restoring flag and the banner
    cleared. *)
Theorem restoreAudioData_blanks_dead_object_urls (host : Host)
    (head : string -> Fetch.FetchOutcome) (s : FilesSlice.FilesState)
    (n : nat) :
  Coherent (FilesSlice.files s) ->
  let run := AudioRestore.restoreAudioData host head tt (freshWorld s n) in
  run.1 = Fulfilled tt
  /\ (forall k, recordAt k (FilesSlice.state run.2)
                = restored head <$> recordAt k s)
  /\ (forall k f, recordAt k (FilesSlice.state run.2) = Some f ->
        stale head f = false)
  /\ FilesSlice.requests run.2 = n
  /\ FilesSlice.isRestoringAudio (FilesSlice.state run.2) = false
  /\ FilesSlice.filesError (FilesSlice.state run.2) = None.
Proof.
  intros Hs run.
  assert (Hrun : exists st' evs',
            run = (Fulfilled tt,
                   {| FilesSlice.state :=
                        FilesSlice.reducer host st'
                          FilesSlice.restoreAudioData_fulfilled;
                      FilesSlice.requests := n;
                      FilesSlice.events := evs' |})
            /\ st' = FilesSlice.withFiles
                       (FilesSlice.reducer host s
                          FilesSlice.restoreAudioData_pending)
                       (FilesSlice.files st')
            /\ forall k,
                 recordAt k st'
                 = if decide
                        (k ∈ id <$> AudioRestore.invalidFiles head
                                      (AudioRestore.transcribedFiles s))
                   then FilesSlice.audioChanges "" <$> recordAt k s
                   else recordAt k s).
  { subst run.
    unfold AudioRestore.restoreAudioData, FilesSlice.createAsyncThunk,
      AudioRestore.getState, freshWorld.
    unfold mbind, mret, FilesSlice.Thunk_bind, FilesSlice.Thunk_ret,
      FilesSlice.thunkBind, FilesSlice.thunkRet.
    unfold FilesSlice.dispatch at 1.
    cbn [FilesSlice.state FilesSlice.requests FilesSlice.events].
    change (AudioRestore.transcribedFiles
              (FilesSlice.reducer host s FilesSlice.restoreAudioData_pending))
      with (AudioRestore.transcribedFiles s).
    destruct (markInvalid_run host
                (AudioRestore.invalidFiles head
                   (AudioRestore.transcribedFiles s))
                (FilesSlice.reducer host s FilesSlice.restoreAudioData_pending)
                n ([] ++ [FilesSlice.Dispatched
                            FilesSlice.restoreAudioData_pending]))
      as (st' & evs' & Hmark & Hflags & Hrec).
    destruct (AudioRestore.transcribedFiles s) as [|t ts] eqn:Et.
    - eexists _, _. split_and!; [reflexivity|by destruct s|].
      intros k. rewrite decide_False; [done|].
      cbn. apply not_elem_of_nil.
    - destruct (AudioRestore.invalidFiles head (t :: ts)) as [|i rest] eqn:Ei.
      + eexists _, _. split_and!; [reflexivity|by destruct s|].
        intros k. rewrite decide_False; [done|]. apply not_elem_of_nil.
      + rewrite Hmark. unfold FilesSlice.dispatch.
        cbn [FilesSlice.state FilesSlice.requests FilesSlice.events].
        eexists _, _. split_and!; [reflexivity|exact Hflags|exact Hrec]. }
  destruct Hrun as (st' & evs' & -> & Hflags & Hrec).
  cbn [fst snd FilesSlice.state FilesSlice.requests].
  assert (Hrestored : forall k,
            recordAt k (FilesSlice.reducer host st'
                          FilesSlice.restoreAudioData_fulfilled)
            = restored head <$> recordAt k s).
  { intros k. rewrite recordAt_untouched by done. rewrite Hrec.
    destruct (recordAt k s) as [f|] eqn:Hk; [|by case_decide].
    pose proof (invalidFiles_ids head s k f Hs Hk) as Hiff.
    unfold restored. cbn [fmap option_fmap option_map].
    destruct (stale head f) eqn:E; case_decide as Hin.
    - reflexivity.
    - exfalso. by apply Hin, Hiff.
    - apply Hiff in Hin. congruence.
    - reflexivity. }
  split_and!.
  - reflexivity.
  - exact Hrestored.
  - intros k f. rewrite Hrestored.
    destruct (recordAt k s) as [g|]; [|done].
    intros [= <-]. apply restored_not_stale.
  - reflexivity.
  - reflexivity.
  - rewrite Hflags. reflexivity.
Qed.

Lemma restoreAudioData_blanks_dead_object_urls_witness :
  audioSrc
    <$> recordAt "d"
          (FilesSlice.state
             (AudioRestore.restoreAudioData silentHost onlyLive tt
                (freshWorld rehydrated 0)).2)
  = Some (Some "")
  /\ recordAt "l"
       (FilesSlice.state
          (AudioRestore.restoreAudioData silentHost onlyLive tt
             (freshWorld rehydrated 0)).2)
     = Some (transcribedDoc "l" "blob:live")
  /\ recordAt "p"
       (FilesSlice.state
          (AudioRestore.restoreAudioData silentHost onlyLive tt
             (freshWorld rehydrated 0)).2)
     = Some (transcribedDoc "p" "http://localhost:8880/download/p.mp3").
Proof.
  pose proof
    (restoreAudioData_blanks_dead_object_urls silentHost onlyLive rehydrated 0
       ltac:(apply reduce_Coherent, initialState_Coherent))
    as (_ & H & _).
  rewrite !H. vm_compute. done.
Defined.

(** ** Downloading the audio *)

#[local] Set Warnings "-clear-no-such-hyp".

Lemma allOther_with_dot (base ext : string) :
  Download.allOther (base +:+ String "." ext) = false.
Proof.
  induction base as [|c base IH]; [done|].
  simpl. rewrite IH. apply andb_false_r.
Qed.

Lemma removeExtension_extension (base ext : string) :
  Download.isExtension ext = true ->
  Download.removeExtension (base +:+ String "." ext) = base.
Proof.
  intros Hext. induction base as [|c base IH].
  - simpl. by rewrite Hext.
  - simpl. rewrite IH. unfold Download.isExtension at 1.
    rewrite allOther_with_dot. by rewrite !andb_false_r.
Qed.

Lemma removeExtension_none (s : string) :
  (forall base ext, s = base +:+ String "." ext ->
                    Download.isExtension ext = false) ->
  Download.removeExtension s = s.
Proof.
  induction s as [|c s IH]; intros Hs; [done|].
  cbn [Download.removeExtension].
  destruct (Ascii.eqb c "." && Download.isExtension s) eqn:E.
  - apply andb_true_iff in E as [->%Ascii.eqb_eq E].
    by rewrite (Hs "" s eq_refl) in E.
  - f_equal. apply IH. intros base ext ->.
    by apply (Hs (String c base) ext).
Qed.

(** X12.  The name of a download is the file's name with its extension
    replaced by [.mp3]: a name [base.ext], where [ext] is not empty and
    has no [/] and no [.], becomes [base.mp3], whatever [base] is; a name
    that has no such extension is kept whole and [.mp3] is appended.  So
    names that differ only in their extension get the same download
    name. *)
Theorem audioFileName_replaces_the_extension :
  (forall base ext,
     Download.isExtension ext = true ->
     Download.audioFileName (base +:+ "." +:+ ext) = base +:+ ".mp3")
  /\ (forall s,
        (forall base ext, s = base +:+ "." +:+ ext ->
                          Download.isExtension ext = false) ->
        Download.audioFileName s = s +:+ ".mp3")
  /\ (forall base ext ext',
        Download.isExtension ext = true ->
        Download.isExtension ext' = true ->
        Download.audioFileName (base +:+ "." +:+ ext)
        = Download.audioFileName (base +:+ "." +:+ ext')).
Proof.
  unfold Download.audioFileName. split_and!.
  - intros base ext Hext.
    change ("." +:+ ext) with (String "." ext).
    by rewrite removeExtension_extension.
  - intros s Hs. by rewrite removeExtension_none.
  - intros base ext ext' Hext Hext'.
    change ("." +:+ ext) with (String "." ext).
    change ("." +:+ ext') with (String "." ext').
    by rewrite !removeExtension_extension.
Qed.

Lemma audioFileName_replaces_the_extension_witness :
  Download.audioFileName "docs/a.tar.gz" = "docs/a.tar.mp3"
  /\ Download.audioFileName "v1.2/notes" = "v1.2/notes.mp3"
  /\ Download.audioFileName "a.txt" = Download.audioFileName "a.md".
Proof.
  destruct audioFileName_replaces_the_extension as (H1 & H2 & H3).
  split_and!.
  - apply (H1 "docs/a.tar" "gz"). reflexivity.
  - apply H2. intros base ext Hs.
    repeat (destruct base as [|? base];
            [first [discriminate Hs
                   | by (injection Hs as Hs; cbv in Hs; subst ext)]
            |first [discriminate Hs | injection Hs as <- Hs]]).
  - apply (H3 "a" "txt" "md"); reflexivity.
Defined.












(** ** Loading the voices *)

Lemma unique_from (acc l : list string) :
  foldl (fun acc x => if decide (x ∈ acc) then acc else acc ++ [x]) acc l
  = acc ++ filter (fun y => y ∉ acc) (JsString.unique l).
Proof.
  unfold JsString.unique.
  induction l as [|y l IH] using rev_ind.
  - cbn [foldl]. by rewrite filter_nil, app_nil_r.
  - rewrite !foldl_app. cbn [foldl]. rewrite IH.
    set (u := foldl (fun acc x => if decide (x ∈ acc) then acc else acc ++ [x])
                [] l).
    destruct (decide (y ∈ u)) as [Hu|Hu];
      destruct (decide (y ∈ acc)) as [Ha|Ha].
    + rewrite decide_True; [done|]. apply elem_of_app. by left.
    + rewrite decide_True; [done|]. apply elem_of_app. right.
      by apply list_elem_of_filter.
    + rewrite decide_True by (apply elem_of_app; by left).
      rewrite filter_app, filter_cons_False, filter_nil, app_nil_r; [done|].
      by intros [].
    + rewrite decide_False.
      * by rewrite filter_app, filter_cons_True, filter_nil, app_assoc.
      * rewrite elem_of_app, list_elem_of_filter. tauto.
Qed.

Lemma unique_cons (x : string) (l : list string) :
  JsString.unique (x :: l)
  = x :: filter (fun y => y <> x) (JsString.unique l).
Proof.
  unfold JsString.unique at 1. cbn [foldl].
  rewrite decide_False by apply not_elem_of_nil. cbn [app].
  rewrite unique_from. cbn [app]. f_equal.
  apply list_filter_iff. intros y. by rewrite list_elem_of_singleton.
Qed.

(** X14.  [loadVoices] sends the one request for the voice list and is
    always settled by [fulfilled], with the voices of the answer or, when
    the attempt fails, the fallback list.  Whatever the settings were, it
    leaves [am_michael] selected (a voice the user had chosen is not
    kept) and listed first, followed by the other voices of the list in
    the order of their first occurrence; the speed is untouched. *)
Theorem loadVoices_resets_the_selected_voice (host : Host) (n : nat)
    (s : SettingsSlice.SettingsState) :
  exists voices,
    SettingsSlice.loadVoices host n
    = ([SettingsSlice.loadVoices_pending;
        SettingsSlice.loadVoices_fulfilled voices],
       [Service.voicesRequest])
    /\ voices
       = default Service.fallbackVoices
           (Service.voicesAttempt (fetch host n Service.voicesRequest))
    /\ let s' :=
         foldl SettingsSlice.reducer s
           [SettingsSlice.loadVoices_pending;
            SettingsSlice.loadVoices_fulfilled voices] in
       SettingsSlice.selectedVoice s' = "am_michael"
       /\ SettingsSlice.availableVoices s'
          = "am_michael"
              :: filter (fun v => v <> "am_michael") (JsString.unique voices)
       /\ SettingsSlice.selectedSpeed s' = SettingsSlice.selectedSpeed s
       /\ SettingsSlice.isLoadingVoices s' = false.
Proof.
  exists (default Service.fallbackVoices
            (Service.voicesAttempt (fetch host n Service.voicesRequest))).
  split_and!.
  - unfold SettingsSlice.loadVoices, Service.fetchAvailableVoices.
    unfold mbind, mret, Net_bind, Net_ret, netBind, netRet, send.
    cbn [fst snd app].
    by destruct (Service.voicesAttempt _).
  - reflexivity.
  - cbn [foldl]. unfold SettingsSlice.reducer at 1.
    cbn [SettingsSlice.selectedVoice SettingsSlice.availableVoices
         SettingsSlice.selectedSpeed SettingsSlice.isLoadingVoices].
    unfold SettingsSlice.includes.
    rewrite bool_decide_eq_true_2 by (apply unique_elem_of; left).
    split_and!; [done|apply unique_cons|done..].
Qed.

(** ** Writing and reading back *)

Lemma setProp_idem k v v' props :
  JS.setProp k v (JS.setProp k v' props) = JS.setProp k v props.
Proof.
  induction props as [|[k' w] props IH]; cbn [JS.setProp].
  - by rewrite String.eqb_refl.
  - destruct (String.eqb k k') eqn:E; cbn [JS.setProp]; rewrite ?E.
    + by rewrite String.eqb_refl.
    + by rewrite IH.
Qed.

Lemma hasBlobUrl_cleanedFile_false (file : JS.value) :
  is_Some (Persist.hasBlobUrl file) ->
  Persist.hasBlobUrl (cleanedFile file) = Some false.
Proof.
  intros [b Hb]. unfold cleanedFile. rewrite Hb.
  destruct b; [apply hasBlobUrl_blanked|done].
Qed.

Lemma clean_fixed (ks : list string) (props : list (string * JS.value)) :
  (forall key, Persist.hasBlobUrl (JS.lookupProp key props) = Some false) ->
  Persist.clean ks props = Some props.
Proof.
  intros Hprops. induction ks as [|key ks IH]; [done|].
  cbn [Persist.clean]. by rewrite Hprops.
Qed.

(** X15.  What the write transform returns is stable.  Applied to a
    state whose [files] hold the records under [entities], with handles
    that are strings or absent, it is idempotent: a second pass returns
    its input.  When the collection had an array [ids], the state it
    wrote is read back as it is: the read transform repairs nothing in
    it and the migration leaves it alone. *)
Theorem persisted_state_is_stable
    (props fprops entities : list (string * JS.value)) :
  JS.lookupProp "files" props = JS.VObj fprops ->
  JS.lookupProp "entities" fprops = JS.VObj entities ->
  (forall key, is_Some (Persist.hasBlobUrl (JS.lookupProp key entities))) ->
  exists persisted,
    Persist.filesTransform_in (JS.VObj props) = Some persisted
    /\ Persist.filesTransform_in persisted = Some persisted
    /\ (hasAdapterStructure (JS.VObj fprops) = true ->
        Persist.filesTransform_out persisted = Some persisted
        /\ Persist.migrate persisted = Some persisted).
Proof.
  intros Hfiles Hentities Hok.
  destruct (clean_own_keys entities Hok)
    as (cleaned & Hclean & Hkeys & Hlookup).
  exists (JS.VObj
            (JS.setProp "files"
               (JS.VObj (JS.setProp "entities" (JS.VObj cleaned) fprops))
               props)).
  split_and!.
  - unfold Persist.filesTransform_in.
    rewrite !getOpt_VObj, Hfiles, getOpt_VObj, Hentities.
    cbn [JS.truthy JS.spread]. rewrite Hclean. cbn [mbind option_bind].
    unfold JS.get. cbn [JS.spread]. by rewrite Hfiles.
  - unfold Persist.filesTransform_in.
    rewrite !getOpt_VObj, lookupProp_setProp_eq, getOpt_VObj,
      lookupProp_setProp_eq.
    cbn [JS.truthy JS.spread].
    rewrite clean_fixed.
    + cbn [mbind option_bind]. unfold JS.get. cbn [JS.spread].
      rewrite lookupProp_setProp_eq. cbn [mbind option_bind JS.spread].
      by rewrite !setProp_idem.
    + intros key. rewrite Hlookup. apply hasBlobUrl_cleanedFile_false, Hok.
  - intros Hstruct.
    assert (Hkept :
      hasAdapterStructure
        (JS.getOpt
           (JS.VObj
              (JS.setProp "files"
                 (JS.VObj (JS.setProp "entities" (JS.VObj cleaned) fprops))
                 props)) "files") = true).
    { rewrite getOpt_VObj, lookupProp_setProp_eq.
      unfold hasAdapterStructure in *.
      rewrite !getOpt_VObj in *.
      rewrite lookupProp_setProp_eq, lookupProp_setProp_ne by done.
      apply andb_true_iff in Hstruct as [[-> _]%andb_true_iff ->]. done. }
    split.
    + by rewrite filesTransform_out_repairedCollection, Hkept.
    + by apply migrate_keeps_structure.
Qed.

Lemma persisted_state_is_stable_witness :
  exists persisted,
    Persist.filesTransform_in (staleState "blob:1" "/download/b.mp3" true)
    = Some persisted
    /\ Persist.filesTransform_in persisted = Some persisted
    /\ Persist.filesTransform_out persisted = Some persisted
    /\ JS.getOpt
         (JS.getOpt (JS.getOpt (JS.getOpt persisted "files") "entities") "a")
         "audioSrc" = JS.VStr "".
Proof.
  destruct (persisted_state_is_stable
              [("files",
                JS.VObj [("ids", JS.VArr [JS.VStr "a"; JS.VStr "b"]);
                         ("entities",
                          JS.VObj [("a", storedFile "a" "blob:1");
                                   ("b", storedFile "b" "/download/b.mp3")])]);
               ("_persist", JS.VStr "{version:1}")]
              [("ids", JS.VArr [JS.VStr "a"; JS.VStr "b"]);
               ("entities",
                JS.VObj [("a", storedFile "a" "blob:1");
                         ("b", storedFile "b" "/download/b.mp3")])]
              [("a", storedFile "a" "blob:1");
               ("b", storedFile "b" "/download/b.mp3")]
              eq_refl eq_refl)
    as (persisted & Hin & Hidem & Hout).
  { intros key. cbn [JS.lookupProp].
    destruct (String.eqb key "a"); [by eexists|].
    destruct (String.eqb key "b"); by eexists. }
  exists persisted. destruct (Hout eq_refl) as [Hout' _].
  split_and!; [exact Hin|exact Hidem|exact Hout'|].
  change (staleState "blob:1" "/download/b.mp3" true)
    with (JS.VObj
            [("files",
              JS.VObj [("ids", JS.VArr [JS.VStr "a"; JS.VStr "b"]);
                       ("entities",
                        JS.VObj [("a", storedFile "a" "blob:1");
                                 ("b", storedFile "b" "/download/b.mp3")])]);
             ("_persist", JS.VStr "{version:1}")]) in Hin.
  vm_compute in Hin. injection Hin as <-. reflexivity.
Defined.

(** X16.  The read transform is idempotent: on any stored value, what
    it returns is returned unchanged by a second pass. *)
Theorem filesTransform_out_is_idempotent (outboundState : JS.value) :
  exists restored,
    Persist.filesTransform_out outboundState = Some restored
    /\ Persist.filesTransform_out restored = Some restored.
Proof.
  rewrite filesTransform_out_repairedCollection.
  eexists. split; [reflexivity|].
  rewrite filesTransform_out_repairedCollection.
  destruct (hasAdapterStructure (JS.getOpt outboundState "files")) eqn:E.
  - by rewrite E.
  - by rewrite getOpt_files_set, repairedCollection_structure.
Qed.

(** X17.  The two repairs of a stored state do not commute.  On a state
    whose collection has lost its index but still has its records, the
    read transform followed by the migration rebuilds the index from the
    keys of the records and keeps them; the migration applied first
    replaces the collection by the empty one, which the read transform
    then finds well formed, so the records are lost. *)
Theorem migrate_before_repair_loses_the_records
    (props fprops : list (string * JS.value)) :
  JS.lookupProp "files" props = JS.VObj fprops ->
  JS.truthy (JS.lookupProp "ids" fprops) = false ->
  usable (JS.lookupProp "entities" fprops) = true ->
  (exists restored,
     Persist.filesTransform_out (JS.VObj props) = Some restored
     /\ Persist.migrate restored = Some restored
     /\ JS.getOpt (JS.getOpt restored "files") "entities"
        = JS.lookupProp "entities" fprops
     /\ JS.getOpt (JS.getOpt restored "files") "ids"
        = JS.VArr
            (JS.VStr <$> (JS.spread (JS.lookupProp "entities" fprops)).*1))
  /\ (exists migrated,
        Persist.migrate (JS.VObj props) = Some migrated
        /\ JS.getOpt migrated "files" = Persist.initialAdapterState
        /\ Persist.filesTransform_out migrated = Some migrated).
Proof.
  intros Hfiles Hids Husable.
  assert (Hstruct : hasAdapterStructure (JS.VObj fprops) = false).
  { unfold hasAdapterStructure. by rewrite getOpt_VObj, Hids. }
  assert (Hentities : JS.truthy (JS.lookupProp "entities" fprops) = true).
  { by apply andb_true_iff in Husable as [? _]. }
  split.
  - eexists. rewrite filesTransform_out_repairedCollection.
    rewrite getOpt_VObj, Hfiles, Hstruct. cbn [JS.spread].
    split; [reflexivity|].
    assert (Hrepaired :
      repairedCollection (JS.VObj fprops)
      = JS.VObj
          (JS.setProp "entities" (JS.lookupProp "entities" fprops)
             (JS.setProp "ids"
                (JS.VArr
                   (JS.VStr
                      <$> (JS.spread (JS.lookupProp "entities" fprops)).*1))
                fprops))).
    { unfold repairedCollection.
      by rewrite Hstruct, getOpt_VObj, Husable. }
    split_and!.
    + apply migrate_keeps_structure.
      rewrite getOpt_VObj, lookupProp_setProp_eq.
      apply repairedCollection_structure.
    + rewrite getOpt_VObj, lookupProp_setProp_eq, Hrepaired, getOpt_VObj.
      apply lookupProp_setProp_eq.
    + rewrite getOpt_VObj, lookupProp_setProp_eq, Hrepaired, getOpt_VObj.
      rewrite lookupProp_setProp_ne by done. apply lookupProp_setProp_eq.
  - exists (JS.VObj (JS.setProp "files" Persist.initialAdapterState props)).
    split_and!.
    + unfold Persist.migrate. cbn [JS.truthy JS.typeof andb].
      rewrite String.eqb_refl.
      change (JS.get (JS.VObj props) "files")
        with (Some (JS.lookupProp "files" props)).
      rewrite Hfiles.
      cbn [mbind option_bind JS.truthy JS.get JS.spread].
      by rewrite Hids.
    + by rewrite getOpt_VObj, lookupProp_setProp_eq.
    + rewrite filesTransform_out_repairedCollection.
      by rewrite getOpt_VObj, lookupProp_setProp_eq.
Qed.

Lemma migrate_before_repair_loses_the_records_witness :
  (exists restored,
     Persist.filesTransform_out (staleState "x" "y" false) = Some restored
     /\ JS.getOpt (JS.getOpt restored "files") "ids"
        = JS.VArr [JS.VStr "a"; JS.VStr "b"])
  /\ (exists migrated,
        Persist.migrate (staleState "x" "y" false) = Some migrated
        /\ JS.getOpt migrated "files" = Persist.initialAdapterState).
Proof.
  destruct (migrate_before_repair_loses_the_records
              [("files",
                JS.VObj [("entities",
                          JS.VObj [("a", storedFile "a" "x");
                                   ("b", storedFile "b" "y")])]);
               ("_persist", JS.VStr "{version:1}")]
              [("entities",
                JS.VObj [("a", storedFile "a" "x");
                         ("b", storedFile "b" "y")])]
              eq_refl eq_refl eq_refl)
    as [(restored & Hout & _ & _ & Hids) (migrated & Hmig & Hfiles & _)].
  split.
  - exists restored. split; [exact Hout|exact Hids].
  - exists migrated. split; [exact Hmig|exact Hfiles].
Defined.

(** ** What a selected file contributes *)

Lemma filesFromZip_nil (host : Host) (n : nat) (entries : list App.ZipEntry) :
  App.filesFromZip host n entries = []
  <-> Forall (fun e => App.isTextEntry e = false) entries.
Proof.
  revert n. induction entries as [|e entries IH]; intros n;
    cbn [App.filesFromZip].
  - split; [constructor|done].
  - destruct (App.isTextEntry e) eqn:E.
    + split; [done|]. intros [He _]%Forall_cons. congruence.
    + rewrite IH, Forall_cons. tauto.
Qed.

Lemma fromEntry_Fresh (uuid : string) (e : App.ZipEntry) :
  Fresh (App.fromEntry uuid e).
Proof.
  unfold App.fromEntry, Fresh.
  destruct (App.text e); cbn; [|by auto]. split; [done|]. right. eauto.
Qed.

Lemma filesFromZip_Fresh (host : Host) (n : nat) (entries : list App.ZipEntry) :
  Forall Fresh (App.filesFromZip host n entries).
Proof.
  revert n. induction entries as [|e entries IH]; intros n;
    cbn [App.filesFromZip]; [constructor|].
  destruct (App.isTextEntry e); [|apply IH].
  constructor; [apply fromEntry_Fresh|apply IH].
Qed.

(** X18.  Every selected file is accounted for, except an archive
    without text entries.  A file that passes the text test yields
    exactly one record under its own name, whether or not it also passes
    the archive test; a file yields no record at all exactly when it
    fails the text test, passes the archive test, loads, and has no entry
    that is a text entry.  Every record made is without audio and either
    ready without error, or in error with empty content and a message. *)
Theorem selected_file_is_accounted_for (host : Host) (n : nat) (f : App.File) :
  (isText f = true ->
   exists r, App.process host n f = [r]
             /\ id r = randomUUID host n /\ name r = App.fileName f)
  /\ (App.process host n f = [] <->
      isText f = false /\ isArchive f = true
      /\ exists entries,
           App.loadAsync f = inr entries
           /\ Forall (fun e => App.isTextEntry e = false) entries)
  /\ Forall Fresh (App.process host n f).
Proof.
  unfold App.process, isText, isArchive.
  destruct (String.eqb (App.type f) "text/plain"
            || JsString.endsWith (App.fileName f) ".txt") eqn:Etext.
  - split_and!.
    + intros _. destruct (App.readAsText f); eexists; done.
    + split; [by destruct (App.readAsText f)|]. by intros [? _].
    + destruct (App.readAsText f); apply Forall_singleton; unfold Fresh; cbn;
        [|by auto]. split; [done|]. right. eauto.
  - destruct (String.eqb (App.type f) "application/zip"
              || JsString.endsWith (App.fileName f) ".zip") eqn:Ezip.
    + split_and!; [done| |].
      * destruct (App.loadAsync f) as [err|entries].
        -- split; [done|]. by intros (_ & _ & entries & ? & _).
        -- rewrite filesFromZip_nil. split.
           ++ intros H. split_and!; [done..|]. by exists entries.
           ++ by intros (_ & _ & entries' & [= <-] & H).
      * destruct (App.loadAsync f); [|apply filesFromZip_Fresh].
        apply Forall_singleton. unfold Fresh; cbn.
        split; [done|]. right. eauto.
    + split_and!; [done| |].
      * split; [done|]. by intros (_ & ? & _).
      * apply Forall_singleton. unfold Fresh; cbn.
        split; [done|]. right. eauto.
Qed.

Lemma selected_file_is_accounted_for_witness :
  App.process silentHost 0 emptyArchive = []
  /\ exists r, App.process silentHost 0 textNamedZip = [r]
               /\ name r = "notes.zip".
Proof.
  destruct (selected_file_is_accounted_for silentHost 0 emptyArchive)
    as (_ & [_ Hnil] & _).
  destruct (selected_file_is_accounted_for silentHost 0 textNamedZip)
    as (Hone & _ & _).
  split.
  - apply Hnil. split_and!; [reflexivity..|].
    eexists. split; [reflexivity|]. by repeat constructor.
  - destruct (Hone eq_refl) as (r & Hr & _ & Hname). by exists r.
Defined.

(** ** The icon of a row *)

Lemma endsWith_zip_not_txt (s : string) :
  JsString.endsWith s ".zip" = true -> JsString.endsWith s ".txt" = false.
Proof.
  unfold JsString.endsWith.
  change (String.rev ".zip") with "piz.".
  change (String.rev ".txt") with "txt.".
  destruct (String.rev s) as [|c r]; [done|]. cbn [String.prefix].
  destruct (ascii_dec "p" c) as [<-|]; [|done].
  by destruct (ascii_dec "t" "p").
Qed.

(** X19.  A row shows the archive icon exactly when the name of its
    record ends in [.zip] and contains no [/]; the [.txt] and [blob:]
    tests of the heuristic never change the icon. *)
Theorem FileIcon_is_the_archive_icon_iff (fileName : string) :
  FileListItem.FileIcon fileName = FileListItem.ArchiveBoxIcon
  <-> JsString.endsWith fileName ".zip" = true
      /\ JsString.includes fileName "/" = false.
Proof.
  unfold FileListItem.FileIcon, FileListItem.isZipEntry.
  destruct (JsString.endsWith fileName ".zip") eqn:Ezip.
  - rewrite (endsWith_zip_not_txt _ Ezip).
    destruct (JsString.includes fileName "/"); cbn; split; try done.
    by intros [_ ?].
  - cbn. split; [done|]. by intros [? _].
Qed.

(** ** The transcribing flag *)

Lemma settle_isTranscribing (s : FilesSlice.FilesState) :
  FilesSlice.isTranscribing (FilesSlice.settle s)
  = FilesSlice.isTranscribing s && stillProcessing s.
Proof.
  unfold FilesSlice.settle, stillProcessing.
  destruct (FilesSlice.some _ _); cbn; [by rewrite andb_true_r|].
  by rewrite andb_false_r.
Qed.

Lemma stillProcessing_settle (s : FilesSlice.FilesState) :
  stillProcessing (FilesSlice.settle s) = stillProcessing s.
Proof. unfold stillProcessing. by rewrite settle_files. Qed.

(** X20.  Once [transcribeFile] has settled, the store is transcribing
    exactly when some record is still processing, whatever the flag was
    before and whether or not the store holds the record of the attempt.
    [refetchAudioForFile] never changes the flag. *)
Theorem transcribing_flag_follows_the_records (host : Host)
    (arg : FilesSlice.TranscribeArg) (s : FilesSlice.FilesState) (n : nat) :
  FilesSlice.isTranscribing
    (FilesSlice.state (FilesSlice.transcribeFile host arg (freshWorld s n)).2)
  = stillProcessing
      (FilesSlice.state (FilesSlice.transcribeFile host arg (freshWorld s n)).2)
  /\ FilesSlice.isTranscribing
       (FilesSlice.state
          (FilesSlice.refetchAudioForFile host arg (freshWorld s n)).2)
     = FilesSlice.isTranscribing s.
Proof.
  destruct (synthesis host arg n) as [r sent] eqn:Hsyn. unfold freshWorld.
  rewrite (transcribeFile_run _ _ _ _ _ _ _ Hsyn),
    (refetchAudioForFile_run _ _ _ _ _ _ _ Hsyn).
  cbn [snd FilesSlice.state]. split.
  - destruct r; cbn [transcribeFile_settled FilesSlice.reducer];
      by rewrite settle_isTranscribing, stillProcessing_settle.
  - by destruct r.
Qed.

(** ** Voice lists of other shapes *)

Lemma strings_filter (l : list JS.value) :
  Service.strings (filter (fun v => JS.isString v = true) l)
  = Service.strings l.
Proof.
  unfold Service.strings. induction l as [|v l IH]; [done|].
  destruct v; rewrite ?filter_cons_True, ?filter_cons_False by done;
    cbn; by rewrite ?IH.
Qed.

Lemma parseVoices_single (k : string) (l : list JS.value) :
  Service.parseVoices (JS.VObj [(k, JS.VArr l)]) = Service.extract l.
Proof.
  unfold Service.parseVoices.
  cbn [JS.truthy JS.getOpt JS.get JS.spread JS.lookupProp].
  assert (Hscan : Service.firstArray [(k, JS.VArr l)] = Some l).
  { unfold Service.firstArray. by rewrite filter_cons_True. }
  rewrite Hscan. cbn [mbind option_bind].
  destruct (String.eqb "voices" k); [|done].
  by destruct (Service.extract l).
Qed.

(** X21.  On a success whose body is not of a documented shape,
    [fetchAvailableVoices] still answers.  From a bare array it keeps
    the strings, in order, and drops everything else, so it never falls
    back there, even on an array without strings.  An object with a
    single array property is read under any key: it gives the strings
    when all elements are strings, the [id]s when all have a string
    [id], and the fallback list when the array mixes the two or holds
    anything else. *)
Theorem fetchAvailableVoices_reads_other_shapes
    (host : Host) (n : nat) (r : Fetch.Response) (data : JS.value) :
  fetch host n Service.voicesRequest = Fetch.Responded r ->
  Fetch.ok r = true ->
  Fetch.json r = Some data ->
  (forall l,
     data = JS.VArr l ->
     (Service.fetchAvailableVoices host n).1 = Fulfilled (Service.strings l))
  /\ (forall k l,
        data = JS.VObj [(k, JS.VArr l)] ->
        (Service.fetchAvailableVoices host n).1
        = Fulfilled
            (if Service.everyString l then Service.strings l
             else if Service.everyHasId l then Service.ids l
             else Service.fallbackVoices)).
Proof.
  intros Hfetch Hok Hjson.
  assert (Hrun : (Service.fetchAvailableVoices host n).1
                 = Fulfilled (default Service.fallbackVoices
                                (Service.parseVoices data))).
  { unfold Service.fetchAvailableVoices, send, mbind, mret, Net_bind,
      Net_ret, netBind, netRet.
    rewrite Hfetch. unfold Service.voicesAttempt. rewrite Hok, Hjson.
    cbn [negb mbind option_bind fst].
    by destruct (Service.parseVoices data). }
  rewrite Hrun. split.
  - intros l ->. cbn [Service.parseVoices default]. by rewrite strings_filter.
  - intros k l ->. rewrite parseVoices_single. unfold Service.extract.
    destruct (Service.everyString l); [done|].
    by destruct (Service.everyHasId l).
Qed.

Lemma fetchAvailableVoices_reads_other_shapes_witness :
  (Service.fetchAvailableVoices
     (jsonHost (JS.VArr [JS.VStr "x"; JS.VNull; JS.VStr "y"])) 0).1
  = Fulfilled ["x"; "y"]
  /\ (Service.fetchAvailableVoices
        (jsonHost (JS.VObj [("data", JS.VArr [JS.VStr "x"; JS.VStr "y"])]))
        0).1
     = Fulfilled ["x"; "y"]
  /\ (Service.fetchAvailableVoices
        (jsonHost
           (JS.VObj [("voices",
                      JS.VArr [JS.VStr "x"; JS.VObj [("id", JS.VStr "y")]])]))
        0).1
     = Fulfilled ["am_michael"; "af_heart"].
Proof.
  split_and!.
  - apply (proj1 (fetchAvailableVoices_reads_other_shapes
                    (jsonHost (JS.VArr [JS.VStr "x"; JS.VNull; JS.VStr "y"]))
                    0 _ _ eq_refl eq_refl eq_refl)
             [JS.VStr "x"; JS.VNull; JS.VStr "y"] eq_refl).
  - apply (proj2 (fetchAvailableVoices_reads_other_shapes
                    (jsonHost
                       (JS.VObj [("data",
                                  JS.VArr [JS.VStr "x"; JS.VStr "y"])]))
                    0 _ _ eq_refl eq_refl eq_refl)
             "data" [JS.VStr "x"; JS.VStr "y"] eq_refl).
  - apply (proj2 (fetchAvailableVoices_reads_other_shapes
                    (jsonHost
                       (JS.VObj
                          [("voices",
                            JS.VArr [JS.VStr "x";
                                     JS.VObj [("id", JS.VStr "y")]])]))
                    0 _ _ eq_refl eq_refl eq_refl)
             "voices" [JS.VStr "x"; JS.VObj [("id", JS.VStr "y")]] eq_refl).
Defined.

(** ** A success without audio and without download path *)

(** X22.  When the service answers a non-blank text with a success that
    carries neither audio content nor a download path, [transcribeText]
    rejects, and the message of the error it threw is not passed on as
    it is: it does not start with [API request failed], and unless the
    file name brings in the text [X-Download-Path] the [catch] block
    wraps it, so the rejection reads
    [Transcription failed for <fileName>: API response format not
    recognized for <fileName>. Expected either audio content or a
    download path.] *)
Theorem transcribeText_wraps_the_unrecognized_response
    (host : Host) (text fileName voice : string) (speed : Q) (n : nat)
    (r : Fetch.Response) :
  blank text = false ->
  fetch host n (Service.speechRequest text voice speed) = Fetch.Responded r ->
  Fetch.ok r = true ->
  (forall ct, Fetch.contentType r = Some ct ->
              JsString.includes ct "audio/" = false) ->
  (forall p, Fetch.downloadPath r = Some p -> p = EmptyString) ->
  JsString.includes (Service.UnrecognizedResponse fileName) "X-Download-Path"
  = false ->
  Service.transcribeText host text fileName voice speed n
  = (Rejected
       ("Transcription failed for " +:+ fileName +:+ ": " +:+
        "API response format not recognized for " +:+ fileName +:+
        ". Expected either audio content or a download path."),
     [Service.speechRequest text voice speed]).
Proof.
  intros Hblank Hfetch Hok Hct Hpath Hname.
  rewrite transcribeText_not_blank by done. rewrite Hfetch.
  assert (Hattempt : Service.speechAttempt host fileName (Fetch.Responded r)
                     = inl (Service.UnrecognizedResponse fileName)).
  { unfold Service.speechAttempt. rewrite Hok. cbn [negb].
    destruct (Fetch.contentType r) as [ct|] eqn:Ect.
    - rewrite (Hct ct eq_refl), andb_false_r.
      destruct (Fetch.downloadPath r) as [p|] eqn:Ep; [|done].
      by rewrite (Hpath p eq_refl).
    - destruct (Fetch.downloadPath r) as [p|] eqn:Ep; [|done].
      by rewrite (Hpath p eq_refl). }
  rewrite Hattempt. f_equal. f_equal.
  unfold Service.rethrow. rewrite Hname, orb_false_r.
  assert (Hprefix : JsString.startsWith
                      (Service.UnrecognizedResponse fileName)
                      "API request failed" = false)
    by (vm_compute; reflexivity).
  by rewrite Hprefix.
Qed.

Lemma transcribeText_wraps_the_unrecognized_response_witness :
  Service.transcribeText (jsonHost JS.VNull) "hello" "a.txt" "am_michael"
    1%Q 0
  = (Rejected
       "Transcription failed for a.txt: API response format not recognized for a.txt. Expected either audio content or a download path.",
     [Service.speechRequest "hello" "am_michael" 1%Q]).
Proof.
  apply (transcribeText_wraps_the_unrecognized_response
           (jsonHost JS.VNull) "hello" "a.txt" "am_michael" 1%Q 0 _
           eq_refl eq_refl eq_refl).
  - intros ct [= <-]. reflexivity.
  - intros p [=].
  - vm_compute. reflexivity.
Defined.

(** ** The statistics of the list *)

Lemma count_by_status (l : list ProcessedFile) :
  length (filter (fun f => bool_decide (status f = Ready) = true) l)
  + length (filter (fun f => bool_decide (status f = Processing) = true) l)
  + length (filter (fun f => bool_decide (status f = Transcribed) = true) l)
  + length (filter (fun f => bool_decide (status f = Error) = true) l)
  + length (filter (fun f => ~ Counted f) l)
  = length l.
Proof.
  induction l as [|f l IH]; [done|].
  rewrite !filter_cons.
  repeat case_decide; cbn [length]; rewrite ?bool_decide_eq_true in *;
    unfold Counted in *;
    first [lia | congruence
          | exfalso; destruct (status f); intuition congruence].
Qed.

(** X23.  On a well-formed store the statistics count every record
    once: the total is the number of listed identifiers, and the counts
    of ready, processing, transcribed and failed records never exceed it
    and add up to it when no record is pending or being read. *)
Theorem statistics_add_up (s : FilesSlice.FilesState) :
  Coherent (FilesSlice.files s) ->
  exists stats,
    Selectors.selectFileStatistics s = Some stats
    /\ Selectors.statTotal stats
       = length (FilesSlice.ids (FilesSlice.files s))
    /\ Selectors.statReady stats + Selectors.statProcessing stats
       + Selectors.statTranscribed stats + Selectors.statErrors stats
       <= Selectors.statTotal stats
    /\ ((forall k f, recordAt k s = Some f -> Counted f) ->
        Selectors.statReady stats + Selectors.statProcessing stats
        + Selectors.statTranscribed stats + Selectors.statErrors stats
        = Selectors.statTotal stats).
Proof.
  intros Hs.
  destruct (selectProcessedFiles_Coherent s Hs) as (l & Hl & Hmem).
  unfold Selectors.selectFileStatistics. rewrite Hl, !filterFiles_Some.
  cbn [mbind option_bind]. eexists. split; [reflexivity|].
  cbn [Selectors.statTotal Selectors.statReady Selectors.statProcessing
       Selectors.statTranscribed Selectors.statErrors].
  pose proof (count_by_status l) as Hcount.
  rewrite length_fmap.
  split_and!.
  - rewrite <- (length_fmap Some l), <- Hl.
    unfold Selectors.selectProcessedFiles. by rewrite length_fmap.
  - lia.
  - intros Hcounted.
    assert (Hnone : filter (fun f => ~ Counted f) l = []).
    { destruct (filter (fun f => ~ Counted f) l) as [|f fs] eqn:E; [done|].
      assert (Hf : f ∈ filter (fun f => ~ Counted f) l)
        by (rewrite E; left).
      apply list_elem_of_filter in Hf as [Hn Hf].
      destruct Hn. apply (Hcounted (id f)). by apply Hmem. }
    rewrite Hnone in Hcount. cbn [length] in Hcount. lia.
Qed.

Lemma statistics_add_up_witness :
  exists stats,
    Selectors.selectFileStatistics rehydrated = Some stats
    /\ Selectors.statTotal stats = 4
    /\ Selectors.statReady stats + Selectors.statProcessing stats
       + Selectors.statTranscribed stats + Selectors.statErrors stats
       <= Selectors.statTotal stats.
Proof.
  destruct (statistics_add_up rehydrated
              ltac:(apply reduce_Coherent, initialState_Coherent))
    as (stats & Hstats & Htotal & Hle & _).
  exists stats. split_and!; [exact Hstats| |exact Hle].
  rewrite Htotal. vm_compute. reflexivity.
Defined.
